(** * ddbimport: CSV to DynamoDB import, verified against its Go sources

    The development embeds
    - [csvtodynamo/convert.go]: the [Converter] with its value converters,
      [Read] and [ReadBatch];
    - the command's [main] package: [delimiter], the flag checks of [main],
      the discovery of the state machine, the polling loop and the total of
      [importRemote], and the queue / worker pool of [importLocal].

    Go values are modelled as follows.  A [string] is a Rocq [string] (a
    sequence of bytes), a byte or a rune is a [Z], an [int64] is a [Z] wrapped
    to 64 bits, a slice is a [list], a [map[string]T] is a [gmap string T], a
    nil map or a nil error is [None].  A run-time panic is the [Panicked]
    outcome. *)

From Stdlib Require Import ZArith Ascii String List Lia Permutation.
From stdpp Require Import base gmap strings list.

Import ListNotations.
Local Open Scope string_scope.
Local Open Scope list_scope.
Local Open Scope Z_scope.

(** ** Bytes and strings *)

Definition byte_of_ascii (c : ascii) : Z := Z.of_N (N_of_ascii c).

Fixpoint bytes_of_string (s : string) : list Z :=
  match s with
  | EmptyString => []
  | String c s' => byte_of_ascii c :: bytes_of_string s'
  end.

Definition char_tab : ascii := "009"%char.
Definition char_lf : ascii := "010"%char.
Definition char_cr : ascii := "013"%char.

(** ** encoding/base64, [StdEncoding] (standard alphabet, '=' padding, not strict) *)

Module base64.

Definition encodeStd : string :=
  "ABCDEFGHIJKLMNOPQRSTUVWXYZabcdefghijklmnopqrstuvwxyz0123456789+/".

Definition padChar : Z := byte_of_ascii "="%char.

Inductive error := CorruptInputError (pos : Z).

(** Position of [c] in the alphabet. *)
Fixpoint index_from (alphabet : list Z) (i : Z) (c : Z) : Z :=
  match alphabet with
  | [] => 255
  | a :: rest => if a =? c then i else index_from rest (i + 1) c
  end.

(** [decodeMap]: every entry is 0xff except [decodeMap[encoder[i]] = i]. *)
Definition decodeMap (c : Z) : Z := index_from (bytes_of_string encodeStd) 0 c.

Definition is_newline (c : Z) : bool :=
  (c =? byte_of_ascii char_lf) || (c =? byte_of_ascii char_cr).

(** [for si < len(src) && (src[si] == '\n' || src[si] == '\r') { si++ }] *)
Fixpoint skip_newlines (src : list Z) (si : Z) : list Z * Z :=
  match src with
  | c :: rest => if is_newline c then skip_newlines rest (si + 1) else (src, si)
  | [] => ([], si)
  end.

(** The tail of [decodeQuantum]: the 6-bit values in [dbuf] (missing ones
    are zero) are packed into 24 bits and the first [dlen - 1] bytes are
    stored. *)
Definition quantum_bytes (dbuf : list Z) (dlen : nat) : list Z :=
  let d := fun i => nth i dbuf 0 in
  let val := Z.lor (Z.lor (Z.lor (Z.shiftl (d 0%nat) 18) (Z.shiftl (d 1%nat) 12))
                          (Z.shiftl (d 2%nat) 6)) (d 3%nat) in
  firstn (dlen - 1)
    [Z.land (Z.shiftr val 16) 255; Z.land (Z.shiftr val 8) 255; Z.land val 255].

(** [Decode]: the loop [for si < len(src) { si, ninc, err = decodeQuantum(..) }]
    with the body of [decodeQuantum] unfolded in it.  [src] is what is left
    of the input from offset [si]; [j] and [dbuf] are the loop variables of
    the quantum being read.  The result is the decoded bytes ([dst[:n]])
    and the error.  The library's 8- and 4-character fast paths decode the
    same quanta and fall back to this loop otherwise. *)
Fixpoint decode_loop (srclen : Z) (src : list Z) (si : Z) (j : nat) (dbuf : list Z)
  : list Z * option error :=
  match src with
  | [] =>
      match j with
      | O => ([], None)
      | _ => ([], Some (CorruptInputError (si - Z.of_nat j)))
      end
  | c :: rest =>
      let si := si + 1 in
      let out := decodeMap c in
      if negb (out =? 255) then
        let dbuf := dbuf ++ [out] in
        match j with
        | 3%nat =>
            let '(bs, err) := decode_loop srclen rest si 0 [] in
            (quantum_bytes dbuf 4 ++ bs, err)
        | _ => decode_loop srclen rest si (S j) dbuf
        end
      else if is_newline c then decode_loop srclen rest si j dbuf
      else if negb (c =? padChar) then ([], Some (CorruptInputError (si - 1)))
      else
        match j with
        | 0%nat | 1%nat => ([], Some (CorruptInputError (si - 1)))
        | 2%nat =>
            let '(rest2, si2) := skip_newlines rest si in
            match rest2 with
            | [] => ([], Some (CorruptInputError srclen))
            | c2 :: rest3 =>
                if negb (c2 =? padChar) then ([], Some (CorruptInputError (si2 - 1)))
                else
                  let '(rest4, si4) := skip_newlines rest3 (si2 + 1) in
                  (quantum_bytes dbuf 2,
                   match rest4 with
                   | [] => None
                   | _ => Some (CorruptInputError si4)
                   end)
            end
        | _ =>
            let '(rest4, si4) := skip_newlines rest si in
            (quantum_bytes dbuf j,
             match rest4 with
             | [] => None
             | _ => Some (CorruptInputError si4)
             end)
        end
  end.

(** [StdEncoding.DecodeString]: [dbuf[:n], err].  On malformed input the
    bytes decoded so far are returned together with the error. *)
Definition DecodeString (s : string) : list Z * option error :=
  let src := bytes_of_string s in
  decode_loop (Z.of_nat (length src)) src 0 0 [].

End base64.

(** ** dynamodb.AttributeValue

    A struct of optional fields; [SetS], [SetN], [SetBOOL], [SetM] and [SetB]
    each fill one field of the receiver.  Of its ten fields the five that the
    converters set are kept. *)

#[local] Set Warnings "-register-all".

Inductive AttributeValue := mkAttributeValue {
  av_S : option string;
  av_N : option string;
  av_BOOL : option bool;
  av_M : option (gmap string AttributeValue);
  av_B : option (list Z)
}.

Definition AttributeValue_zero : AttributeValue :=
  mkAttributeValue None None None None None.

Definition SetS (v : AttributeValue) (s : string) : AttributeValue :=
  mkAttributeValue (Some s) (av_N v) (av_BOOL v) (av_M v) (av_B v).
Definition SetN (v : AttributeValue) (s : string) : AttributeValue :=
  mkAttributeValue (av_S v) (Some s) (av_BOOL v) (av_M v) (av_B v).
Definition SetBOOL (v : AttributeValue) (b : bool) : AttributeValue :=
  mkAttributeValue (av_S v) (av_N v) (Some b) (av_M v) (av_B v).
Definition SetM (v : AttributeValue) (m : option (gmap string AttributeValue))
  : AttributeValue :=
  mkAttributeValue (av_S v) (av_N v) (av_BOOL v) m (av_B v).
Definition SetB (v : AttributeValue) (b : list Z) : AttributeValue :=
  mkAttributeValue (av_S v) (av_N v) (av_BOOL v) (av_M v) (Some b).

(** ** Errors and panics *)

(** The error values the program tests for: [io.EOF] and [csv.ErrFieldCount]
    (which the reader wraps in a [*csv.ParseError]; [errors.Is] sees through
    the wrapper). *)
Inductive error := io_EOF | csv_ErrFieldCount.

#[global] Instance error_eq_dec : EqDecision error.
Proof. solve_decision. Defined.

(** A call either returns or panics with a run-time error. *)
Inductive runtime_error := IndexOutOfRange (index : nat) (len : nat).

Inductive outcome (A : Type) :=
| Returned (a : A)
| Panicked (e : runtime_error).
Arguments Returned {A} a.
Arguments Panicked {A} e.

(** ** encoding/csv: the reader, after lexing

    The input is held as the records still to be read; a record has one
    string per field (the reader skips empty lines, so a record of a real
    input has at least one field; errors of quoting are not modelled).
    [FieldsPerRecord] is the reader's public field: 0 in a reader made by
    [NewReader], set by the first record read, and compared with the length
    of every later record. *)

Module csv.

Record Reader := mkReader {
  pending : list (list string);
  FieldsPerRecord : Z
}.

Definition NewReader (records : list (list string)) : Reader :=
  mkReader records 0.

(** [Reader.Read].  The record is returned together with [ErrFieldCount]. *)
Definition Read (r : Reader) : Reader * (list string * option error) :=
  match pending r with
  | [] => (r, ([], Some io_EOF))
  | dst :: rest =>
      if 0 <? FieldsPerRecord r then
        if negb (Z.of_nat (length dst) =? FieldsPerRecord r)
        then (mkReader rest (FieldsPerRecord r), (dst, Some csv_ErrFieldCount))
        else (mkReader rest (FieldsPerRecord r), (dst, None))
      else if FieldsPerRecord r =? 0 then
        (mkReader rest (Z.of_nat (length dst)), (dst, None))
      else (mkReader rest (FieldsPerRecord r), (dst, None))
  end.

End csv.

(** ** csvtodynamo *)

Module csvtodynamo.

Abbreviation keyConverter := (string -> AttributeValue) (only parsing).

(** [Configuration]: a nil slice is the empty list. *)
Record Configuration := mkConfiguration {
  KeyToConverter : gmap string keyConverter;
  Columns : list string;
  KeyColumns : list string
}.

Definition NewConfiguration : Configuration :=
  mkConfiguration ∅ [] [].

(** [Converter]: [columnNamesToInclude] is [None] while it is nil. *)
Record Converter := mkConverter {
  r : csv.Reader;
  conf : Configuration;
  columnNames : list string;
  columnNamesToInclude : option (gmap string bool)
}.

Definition stringValue : keyConverter := fun s => SetS AttributeValue_zero s.

Definition numberValue : keyConverter := fun s => SetN AttributeValue_zero s.

Definition trueValue : AttributeValue := SetBOOL AttributeValue_zero true.
Definition falseValue : AttributeValue := SetBOOL AttributeValue_zero false.

Definition boolValues : gmap string AttributeValue :=
  <["false" := falseValue]>
    (<["FALSE" := falseValue]>
       (<["true" := trueValue]>
          (<["TRUE" := trueValue]> ∅))).

Definition boolValue : keyConverter := fun s =>
  match boolValues !! s with
  | Some v => v
  | None => falseValue
  end.

Definition binValue : keyConverter := fun s =>
  let '(b, _) := base64.DecodeString s in
  SetB AttributeValue_zero b.

Section MapValue.

(** [json.Unmarshal([]byte(s), &av)] for [av] a nil
    [map[string]*dynamodb.AttributeValue]: the value of [av] afterwards
    ([None] when it is still nil).  The decoder is the library's. *)
Variable json_Unmarshal : string -> option (gmap string AttributeValue).

Definition mapValue : keyConverter := fun s =>
  SetM AttributeValue_zero (json_Unmarshal s).

Definition AddMapKeys (cf : Configuration) (s : list string) : Configuration :=
  mkConfiguration
    (foldl (fun m k => <[k := mapValue]> m) (KeyToConverter cf) s)
    (Columns cf) (KeyColumns cf).

End MapValue.

Definition add_keys (f : keyConverter) (cf : Configuration) (s : list string)
  : Configuration :=
  mkConfiguration
    (foldl (fun m k => <[k := f]> m) (KeyToConverter cf) s)
    (Columns cf) (KeyColumns cf).

Definition AddStringKeys := add_keys stringValue.
Definition AddNumberKeys := add_keys numberValue.
Definition AddBoolKeys := add_keys boolValue.
Definition AddBinKeys := add_keys binValue.

Definition AddKeyColumns (cf : Configuration) (s : list string) : Configuration :=
  mkConfiguration (KeyToConverter cf) (Columns cf)
    (foldl (fun ks k => ks ++ [k]) (KeyColumns cf) s).

(** [len(m)] of a map that may be nil. *)
Definition map_len {A} (m : option (gmap string A)) : nat :=
  match m with
  | Some m => size m
  | None => 0
  end.

(** [m[k]] of a [map[string]bool] that may be nil: [false] when absent. *)
Definition map_index (m : option (gmap string bool)) (k : string) : bool :=
  match m with
  | Some m => default false (m !! k)
  | None => false
  end.

Definition set_r (c : Converter) (rd : csv.Reader) : Converter :=
  mkConverter rd (conf c) (columnNames c) (columnNamesToInclude c).

Definition init (c : Converter) : Converter * option error :=
  let c1 :=
    if (0 <? length (KeyColumns (conf c)))%nat then
      mkConverter (r c) (conf c) (columnNames c)
        (Some (foldl (fun m k => <[k := true]> m) ∅ (KeyColumns (conf c))))
    else c in
  if (0 <? length (Columns (conf c1)))%nat then
    (mkConverter (r c1) (conf c1) (Columns (conf c1)) (columnNamesToInclude c1), None)
  else
    let '(r', (record, err)) := csv.Read (r c1) in
    let c2 := set_r c1 r' in
    match err with
    | Some e => (c2, Some e)
    | None =>
        match columnNames c2 with
        | [] => (mkConverter r' (conf c2) record (columnNamesToInclude c2), None)
        | _ :: _ => (c2, None)
        end
    end.

Definition NewConverter (rd : csv.Reader) (cf : option Configuration)
  : Converter * option error :=
  let cf := match cf with
            | None => NewConfiguration
            | Some cf => cf
            end in
  init (mkConverter rd cf [] None).

Definition dynamoValue (c : Converter) (key value : string) : AttributeValue :=
  match KeyToConverter (conf c) !! key with
  | Some f => f value
  | None => stringValue value
  end.

(** The body of [for i, column := range c.columnNames] in [Read], from
    index [i] on; [record[i]] panics when [i] is out of range. *)
Fixpoint read_columns (c : Converter) (record : list string) (i : nat)
  (columns : list string) (items : gmap string AttributeValue)
  : outcome (gmap string AttributeValue) :=
  match columns with
  | [] => Returned items
  | column :: columns' =>
      if (0 <? map_len (columnNamesToInclude c))%nat
         && negb (map_index (columnNamesToInclude c) column)
      then read_columns c record (S i) columns' items
      else
        match record !! i with
        | None => Panicked (IndexOutOfRange i (length record))
        | Some v =>
            if negb (String.length v =? 0)%nat
            then read_columns c record (S i) columns'
                   (<[column := dynamoValue c column v]> items)
            else read_columns c record (S i) columns' items
        end
  end.

(** [Converter.Read]: the converter after the call, the item ([None] for a
    nil map) and the error. *)
Definition Read (c : Converter)
  : outcome (Converter * (option (gmap string AttributeValue) * option error)) :=
  let '(r', (record, err)) := csv.Read (r c) in
  let c' := set_r c r' in
  match err with
  | Some e => Returned (c', (None, Some e))
  | None =>
      match read_columns c' record 0 (columnNames c') ∅ with
      | Panicked e => Panicked e
      | Returned items => Returned (c', (Some items, None))
      end
  end.

Definition batchSize : nat := 25.

(** The loop of [ReadBatch] with [n] iterations left; [items] holds
    [items[:read]]. *)
Fixpoint ReadBatch_loop (n : nat) (c : Converter)
  (items : list (option (gmap string AttributeValue)))
  : outcome (Converter * (list (option (gmap string AttributeValue)) * nat * option error)) :=
  match n with
  | O => Returned (c, (items, length items, None))
  | S n' =>
      match Read c with
      | Panicked e => Panicked e
      | Returned (c', (item, Some e)) => Returned (c', (items, length items, Some e))
      | Returned (c', (item, None)) => ReadBatch_loop n' c' (items ++ [item])
      end
  end.

(** [Converter.ReadBatch]: [items[:read], read, err]. *)
Definition ReadBatch (c : Converter) := ReadBatch_loop batchSize c [].

End csvtodynamo.

(** ** strings.Split and the conversion of a rune to a string *)

Module strings.

(** [strings.Split(s, sep)] for a separator of one byte: the substrings
  between the occurrences of the separator, an empty string included where
  two separators meet or the text starts or ends with one.  The result is
  never empty: the empty text gives one empty string. *)
Fixpoint Split (s : string) (sep : ascii) : list string :=
match s with
| EmptyString => [EmptyString]
| String c s' =>
    if Ascii.eqb c sep then EmptyString :: Split s' sep
    else
      match Split s' sep with
      | [] => [String c EmptyString]
      | h :: t => String c h :: t
      end
end.

End strings.

Definition ascii_of_byte (b : Z) : ascii := ascii_of_N (Z.to_N b).

(** [string(r)] for a rune [r]: its UTF-8 encoding, and the encoding of
    U+FFFD for a value that is no valid code point. *)
Definition string_of_rune (r : Z) : string :=
  let bytes :=
    if (r <? 0) || (1114111 <? r) || ((55296 <=? r) && (r <=? 57343))
    then [239; 191; 189]
    else if r <? 128 then [r]
    else if r <? 2048 then
      [Z.lor 192 (Z.shiftr r 6); Z.lor 128 (Z.land r 63)]
    else if r <? 65536 then
      [Z.lor 224 (Z.shiftr r 12); Z.lor 128 (Z.land (Z.shiftr r 6) 63);
       Z.lor 128 (Z.land r 63)]
    else
      [Z.lor 240 (Z.shiftr r 18); Z.lor 128 (Z.land (Z.shiftr r 12) 63);
       Z.lor 128 (Z.land (Z.shiftr r 6) 63); Z.lor 128 (Z.land r 63)] in
  fold_right (fun b s => String (ascii_of_byte b) s) EmptyString bytes.

(** ** sls/state: the description of a job

    The records of package [state], from the literal that [main] builds. *)

Module state.

Record Source := mkSource {
Region : string;
Bucket : string;
Key : string;
NumericFields : list string;
BooleanFields : list string;
Delimiter : string
}.

Record Configuration := mkConfiguration {
LambdaConcurrency : Z;
LambdaDurationSeconds : Z
}.

Record Target := mkTarget {
Target_Region : string;
TableName : string
}.

Record Input := mkInput {
Input_Source : Source;
Input_Configuration : Configuration;
Input_Target : Target
}.

End state.


(** ** The command: package main *)

Module main.

Import csvtodynamo.

Definition rune := Z.

(** [s[0]] for a string known not to be empty. *)
Definition string_head (s : string) : Z :=
  match s with
  | String c _ => byte_of_ascii c
  | EmptyString => 0
  end.

Definition delimiter (s : string) : rune :=
  if String.eqb s "," || String.eqb s (String char_tab EmptyString) then string_head s
  else if String.eqb s "tab" then byte_of_ascii char_tab
  else byte_of_ascii ","%char.

(** *** importRemote: waiting for the execution and reading its output *)

(** The constants [sfn.ExecutionStatus...]. *)
Definition ExecutionStatusRunning : string := "RUNNING".
Definition ExecutionStatusSucceeded : string := "SUCCEEDED".
Definition ExecutionStatusFailed : string := "FAILED".
Definition ExecutionStatusTimedOut : string := "TIMED_OUT".
Definition ExecutionStatusAborted : string := "ABORTED".

Record DescribeExecutionOutput := mkDescribeExecutionOutput {
  Status : string;
  Output : string
}.

Record sfnResponse := mkSfnResponse {
  ProcessedCount : Z;
  DurationMS : Z
}.

(** What the remote import does, in order.  [Fatal] is [logger.Fatal]: the
    message is logged and the process exits. *)
Inductive remote_event :=
| Info (msg : string)
| Sleep (seconds : Z)
| Unmarshal (payload : string)
| Fatal (msg : string)
| Complete (lines : Z).

(** How the loop [waitForOutput] ends on a finite list of answers:
    with the output payload, with a fatal exit, or still polling when the
    answers run out. *)
Inductive wait_result :=
| Succeeded (outputPayload : string)
| Exited
| Polling.

(** The loop labelled [waitForOutput]; the answers of the successive calls
    of [DescribeExecution] are given in order, [inr] for an error. *)
Fixpoint waitForOutput (answers : list (DescribeExecutionOutput + string))
  : list remote_event * wait_result :=
  match answers with
  | [] => ([], Polling)
  | inr _ :: _ => ([Fatal "failed to get execution status"], Exited)
  | inl deo :: rest =>
      if String.eqb (Status deo) ExecutionStatusRunning then
        let '(evs, res) := waitForOutput rest in
        (Info "execution running" :: Sleep 5 :: evs, res)
      else if String.eqb (Status deo) ExecutionStatusSucceeded then
        ([Info "execution succeeded"], Succeeded (Output deo))
      else ([Fatal "unexpected execution status"], Exited)
  end.

Definition wrap64 (z : Z) : Z := (z + 2 ^ 63) mod 2 ^ 64 - 2 ^ 63.

Section Remote.

(** [json.Unmarshal([]byte(outputPayload), &output)]: [None] for an error. *)
Variable json_Unmarshal : string -> option (list sfnResponse).

(** [importRemote] after the loop: the output is parsed and the
    processed counts are summed. *)
Definition importRemote_output (outputPayload : string) : list remote_event :=
  Unmarshal outputPayload ::
    match json_Unmarshal outputPayload with
    | None => [Fatal "failed to unmarshal output"]
    | Some output =>
        [Complete (fold_left (fun lines op => wrap64 (lines + ProcessedCount op))
                     output 0)]
    end.

(** [importRemote] from the first poll on. *)
Definition importRemote_wait (answers : list (DescribeExecutionOutput + string))
  : list remote_event :=
  let '(evs, res) := waitForOutput answers in
  match res with
  | Succeeded outputPayload => evs ++ importRemote_output outputPayload
  | Exited | Polling => evs
  end.

End Remote.

(** *** importLocal: the ingestion loop, the queue and the workers *)

Definition batch : Type := list (option (gmap string AttributeValue)).

Definition queue_capacity : nat := 128.

(** Where a worker goroutine stands. *)
Inductive worker :=
| WReceive                     (* at [for batch := range batches] *)
| WWrite (b : batch)           (* before [batchWriter.Write(batch)] *)
| WAddRecords (b : batch)      (* before [atomic.AddInt64(&recordCount, ..)] *)
| WAddBatch (recordCount : Z)  (* before [atomic.AddInt64(&batchCount, 1)] *)
| WDone.                       (* returned *)

(** Where the main goroutine stands. *)
Inductive producer :=
| PReadBatch (reader : Converter)           (* before [reader.ReadBatch()] *)
| PSend (b : batch) (eof : bool) (reader : Converter)  (* before [batches <- batch] *)
| PClose                                    (* before [close(batches)] *)
| PWait                                     (* at [wg.Wait()] *)
| PComplete                                 (* returned *)
| PFatal                                    (* exited through [logger.Fatal] *)
| PPanic (e : runtime_error).

Inductive log_entry :=
| LogBatchWriteError (workerIndex : nat)
| LogProgress (workerIndex : nat) (records : Z)
| LogReadBatchFatal (batchCount : Z)
| LogComplete (records : Z).

(** The state of a run.  [batches] is the buffer of the channel, [sent]
    and [written] are the histories of the values sent on the channel and
    of the calls of the sink with their success. *)
Record state := mkState {
  main_pc : producer;
  batches : list batch;
  closed : bool;
  workers : list worker;
  recordCount : Z;
  batchCount : Z;
  sent : list batch;
  written : list (batch * bool);
  log : list log_entry
}.

Definition set_main (s : state) (p : producer) : state :=
  mkState p (batches s) (closed s) (workers s) (recordCount s) (batchCount s)
    (sent s) (written s) (log s).

Definition set_worker (s : state) (i : nat) (w : worker) : state :=
  mkState (main_pc s) (batches s) (closed s) (<[i := w]> (workers s))
    (recordCount s) (batchCount s) (sent s) (written s) (log s).

Definition add_log (s : state) (e : log_entry) : state :=
  mkState (main_pc s) (batches s) (closed s) (workers s) (recordCount s)
    (batchCount s) (sent s) (written s) (log s ++ [e]).

Definition all_done (ws : list worker) : bool :=
  forallb (fun w => match w with WDone => true | _ => false end) ws.

(** The process is alive until [importLocal] returns, exits or panics. *)
Definition running (s : state) : bool :=
  match main_pc s with
  | PComplete | PFatal | PPanic _ => false
  | _ => true
  end.

(** One step of the main goroutine; [None] when it is blocked. *)
Definition main_step (s : state) : option state :=
  match main_pc s with
  | PReadBatch reader =>
      match ReadBatch reader with
      | Panicked e => Some (set_main s (PPanic e))
      | Returned (reader', (b, _, err)) =>
          match err with
          | Some e =>
              if decide (e = io_EOF) then Some (set_main s (PSend b true reader'))
              else Some (set_main (add_log s (LogReadBatchFatal (batchCount s))) PFatal)
          | None => Some (set_main s (PSend b false reader'))
          end
      end
  | PSend b eof reader =>
      if (length (batches s) <? queue_capacity)%nat then
        Some (mkState (if eof then PClose else PReadBatch reader)
                (batches s ++ [b]) (closed s) (workers s) (recordCount s)
                (batchCount s) (sent s ++ [b]) (written s) (log s))
      else None
  | PClose =>
      Some (mkState PWait (batches s) true (workers s) (recordCount s)
              (batchCount s) (sent s) (written s) (log s))
  | PWait =>
      if all_done (workers s)
      then Some (set_main (add_log s (LogComplete (recordCount s))) PComplete)
      else None
  | PComplete | PFatal | PPanic _ => None
  end.

(** One step of worker [i]; [ok] is the answer of the sink, used when the
    step is the call of [batchWriter.Write].  [None] when the worker is
    blocked or has returned. *)
Definition worker_step (i : nat) (ok : bool) (s : state) : option state :=
  match workers s !! i with
  | None => None
  | Some WReceive =>
      match batches s with
      | b :: rest =>
          Some (mkState (main_pc s) rest (closed s) (<[i := WWrite b]> (workers s))
                  (recordCount s) (batchCount s) (sent s) (written s) (log s))
      | [] => if closed s then Some (set_worker s i WDone) else None
      end
  | Some (WWrite b) =>
      let s' := mkState (main_pc s) (batches s) (closed s) (workers s)
                  (recordCount s) (batchCount s) (sent s)
                  (written s ++ [(b, ok)]) (log s) in
      if ok then Some (set_worker s' i (WAddRecords b))
      else Some (set_worker (add_log s' (LogBatchWriteError i)) i WDone)
  | Some (WAddRecords b) =>
      let rc := wrap64 (recordCount s + Z.of_nat (length b)) in
      Some (mkState (main_pc s) (batches s) (closed s)
              (<[i := WAddBatch rc]> (workers s))
              rc (batchCount s) (sent s) (written s) (log s))
  | Some (WAddBatch rc) =>
      let bc := wrap64 (batchCount s + 1) in
      let s' := mkState (main_pc s) (batches s) (closed s)
                  (<[i := WReceive]> (workers s))
                  (recordCount s) bc (sent s) (written s) (log s) in
      if Z.rem bc 100 =? 0 then Some (add_log s' (LogProgress i rc)) else Some s'
  | Some WDone => None
  end.

(** The scheduler's choice at each step. *)
Inductive action :=
| Main
| Worker (i : nat) (ok : bool).

Definition step (a : action) (s : state) : option state :=
  if running s then
    match a with
    | Main => main_step s
    | Worker i ok => worker_step i ok s
    end
  else None.

(** A run under a schedule; [None] when the schedule asks for a step that
    cannot be taken. *)
Fixpoint run (sched : list action) (s : state) : option state :=
  match sched with
  | [] => Some s
  | a :: sched' =>
      match step a s with
      | Some s' => run sched' s'
      | None => None
      end
  end.

Inductive start_result :=
| Started (s : state)
| StartFatal (msg : string)
| StartPanic.

(** [importLocal] up to the ingestion loop, on an input that opened and
    lexed to [records]: the converter is built from the field lists, the
    counters are initialised and [concurrency] workers are started
    ([wg.Add] panics on a negative count). *)
Definition importLocal_start (records : list (list string))
  (numericFields booleanFields : list string) (concurrency : Z) : start_result :=
  let cf := AddBoolKeys (AddNumberKeys NewConfiguration numericFields) booleanFields in
  match NewConverter (csv.NewReader records) (Some cf) with
  | (_, Some _) => StartFatal "failed to create CSV reader"
  | (reader, None) =>
      if concurrency <? 0 then StartPanic
      else Started (mkState (PReadBatch reader) [] false
                      (replicate (Z.to_nat concurrency) WReceive)
                      0 1 [] [] [])
  end.


(** *** main: the flags and what is started *)

(** The values of the flags after [flag.Parse()]. *)
Record Flags := mkFlags {
tableRegionFlag : string;
tableNameFlag : string;
bucketRegionFlag : string;
bucketNameFlag : string;
bucketKeyFlag : string;
inputFileFlag : string;
stepFnRegionFlag : string;
remoteFlag : bool;
numericFieldsFlag : string;
booleanFieldsFlag : string;
delimiterFlag : string;
concurrencyFlag : Z
}.

(** Where [importLocal] reads from: [os.Open] of a path, or [s3Get]. *)
Inductive input_source :=
| FromFile (path : string)
| FromS3 (region bucket key : string).

(** What [main] does after the flags are parsed.  [Usage] is
  [printUsageAndExit]: the usage and the message are printed and the
  process exits with status 1. *)
Inductive started :=
| Install
| Usage (suffix : string)
| ImportRemote (stepFnRegion : string) (input : state.Input)
| ImportLocal (input : input_source) (inputName : string)
  (numericFields booleanFields : list string) (delimiter : rune)
  (tableRegion tableName : string) (concurrency : Z).

Definition nonempty (s : string) : bool := negb (String.eqb s EmptyString).

Section Main.

(** [url.PathEscape], used for the name under which the input is logged. *)
Variable PathEscape : string -> string.

(** [main]; [args] is [os.Args]. *)
Definition main (args : list string) (f : Flags) : started :=
if match args with
 | _ :: a :: _ => String.eqb a "install"
 | _ => false
 end
then Install
else if negb (nonempty (tableRegionFlag f)) || negb (nonempty (tableNameFlag f))
then Usage "Must include a table region and table name flag."
else
let numericFields := strings.Split (numericFieldsFlag f) ","%char in
let booleanFields := strings.Split (booleanFieldsFlag f) ","%char in
let localFile := nonempty (inputFileFlag f) in
let remoteFile := nonempty (bucketRegionFlag f) || nonempty (bucketNameFlag f)
                  || nonempty (bucketKeyFlag f) in
if localFile && remoteFile
then Usage "Must pass inputFile OR bucketRegion, bucketName and bucketKey."
else if remoteFile && (negb (nonempty (bucketRegionFlag f))
                       || negb (nonempty (bucketNameFlag f))
                       || negb (nonempty (bucketKeyFlag f)))
then Usage "Must pass values for all of the bucketRegion, bucketName and bucketKey arguments if a localFile argument is omitted."
else if remoteFlag f then
  if negb remoteFile
  then Usage "Remote import requires the file to be located within an S3 bucket. Pass the bucketRegion, bucketName and bucketKey arguments."
  else
    let stepFnRegion :=
      if nonempty (stepFnRegionFlag f) then stepFnRegionFlag f
      else tableRegionFlag f in
    ImportRemote stepFnRegion
      (state.mkInput
         (state.mkSource (bucketRegionFlag f) (bucketNameFlag f) (bucketKeyFlag f)
            numericFields booleanFields
            (string_of_rune (delimiter (delimiterFlag f))))
         (state.mkConfiguration (concurrencyFlag f) 900)
         (state.mkTarget (tableRegionFlag f) (tableNameFlag f)))
else if remoteFile then
  ImportLocal
    (FromS3 (bucketRegionFlag f) (bucketNameFlag f) (bucketKeyFlag f))
    ("s3://" ++ PathEscape (bucketNameFlag f) ++ "/"
       ++ PathEscape (bucketKeyFlag f) ++ " (" ++ bucketRegionFlag f ++ ")")%string
    numericFields booleanFields (delimiter (delimiterFlag f))
    (tableRegionFlag f) (tableNameFlag f) (concurrencyFlag f)
else
  ImportLocal (FromFile (inputFileFlag f)) (inputFileFlag f)
    numericFields booleanFields (delimiter (delimiterFlag f))
    (tableRegionFlag f) (tableNameFlag f) (concurrencyFlag f).

End Main.

(** *** importRemote: finding the state machine *)

Record StateMachineListItem := mkStateMachineListItem {
Name : string;
StateMachineArn : string
}.

(** The callback passed to [ListStateMachinesPages]: the new value of [arn]
  and whether to go on to the next page. *)
Fixpoint find_on_page (page : list StateMachineListItem) (arn : option string)
: option string * bool :=
match page with
| [] => (arn, true)
| sm :: page' =>
    if String.eqb (Name sm) "ddbimport" then (Some (StateMachineArn sm), false)
    else find_on_page page' arn
end.

(** [ListStateMachinesPages] with that callback: the pages are fetched in
  order until the callback returns false or the pages end.  The result is
  [arn] and the number of pages fetched. *)
Fixpoint ListStateMachinesPages (pages : list (list StateMachineListItem))
(arn : option string) (fetched : nat) : option string * nat :=
match pages with
| [] => (arn, fetched)
| page :: pages' =>
    match find_on_page page arn with
    | (arn', true) => ListStateMachinesPages pages' arn' (S fetched)
    | (arn', false) => (arn', S fetched)
    end
end.

(** [importRemote] up to the start of the execution: the ARN found, or the
  fatal exit when none of the state machines is named "ddbimport". *)
Definition find_state_machine (pages : list (list StateMachineListItem))
: string + remote_event :=
match ListStateMachinesPages pages None 0 with
| (Some arn, _) => inl arn
| (None, _) =>
    inr (Fatal "ddbimport state machine not found. Have you deployed the ddbimport Step Function?")
end.

End main.

(** * Properties *)

Import csvtodynamo.

(** ** Specification-side notions *)

(** ASCII lower-casing, for "any casing of". *)
Definition ascii_to_lower (c : ascii) : ascii :=
  let n := N_of_ascii c in
  if ((65 <=? n) && (n <=? 90))%N then ascii_of_N (n + 32) else c.

Fixpoint string_to_lower (s : string) : string :=
  match s with
  | EmptyString => EmptyString
  | String c s' => String (ascii_to_lower c) (string_to_lower s')
  end.

(** The boolean conversion as the specification words it: insensitive to
    case on "true" and "false", [false] on everything else. *)
Definition bool_conversion_case_insensitive : Prop :=
  forall s : string,
    (string_to_lower s = "true" -> boolValue s = trueValue) /\
    (string_to_lower s = "false" -> boolValue s = falseValue) /\
    (string_to_lower s <> "true" -> string_to_lower s <> "false" ->
     boolValue s = falseValue).


(** The delimiter selection as the specification words it. *)
Definition delimiter_named_only : Prop :=
  forall s : string,
    (s = "tab" -> main.delimiter s = byte_of_ascii char_tab) /\
    (s = "comma" -> main.delimiter s = byte_of_ascii ","%char) /\
    (s <> "tab" -> s <> "comma" -> main.delimiter s = byte_of_ascii ","%char).

(** Header "a,b" with both columns boolean, and the row "yes,FALSE". *)
Definition bool_converter_ab : Converter :=
  fst (NewConverter (csv.NewReader [["a"; "b"]; ["yes"; "FALSE"]])
         (Some (AddBoolKeys NewConfiguration ["a"; "b"]))).





(** The allow-list test of [Read]: the column is converted unless an
    allow-list is set and leaves it out. *)
Definition included (c : Converter) (column : string) : bool :=
  negb ((0 <? map_len (columnNamesToInclude c))%nat
        && negb (map_index (columnNamesToInclude c) column)).

(** A converter whose column names are the header row [hdr], read through
    the CSV reader, which since then expects [length hdr] fields. *)
Definition header_mode (hdr : list string) (c : Converter) : Prop :=
  columnNames c = hdr /\
  csv.FieldsPerRecord (r c) = Z.of_nat (length hdr) /\
  hdr <> [].

(** [n] calls of [Read], whatever they return. *)
Fixpoint advance (n : nat) (c : Converter) : outcome Converter :=
  match n with
  | O => Returned c
  | S n' =>
      match Read c with
      | Returned (c', _) => advance n' c'
      | Panicked e => Panicked e
      end
  end.

(** Empty columns as the specification words it: a column (a position of
    the row) with empty text leaves its name out of the item. *)
Definition empty_column_absent : Prop :=
  forall (c c' : Converter) (record : list string) (rest : list (list string))
         (items : gmap string AttributeValue) (i : nat) (column : string),
    csv.pending (r c) = record :: rest ->
    length record = length (columnNames c) ->
    Read c = Returned (c', (Some items, None)) ->
    columnNames c !! i = Some column ->
    record !! i = Some EmptyString ->
    items !! column = None.

(** Short rows as the claim words it: with explicit columns, a (first) row
    with fewer fields than the column list makes [Read] panic. *)
Definition short_row_panics : Prop :=
  forall (cf : Configuration) (row : list string) (rest : list (list string)),
    Columns cf <> [] ->
    (length row < length (Columns cf))%nat ->
    exists e, Read (fst (NewConverter (csv.NewReader (row :: rest)) (Some cf))) = Panicked e.

(** A configuration with explicit columns and an allow-list. *)
Definition conf_ab_keep_a : Configuration :=
  AddKeyColumns (mkConfiguration ∅ ["a"; "b"] []) ["a"].

(** The column passes the allow-list of the configuration. *)
Definition allowed (cf : Configuration) (column : string) : Prop :=
  KeyColumns cf = [] \/ column ∈ KeyColumns cf.

Definition config_of (cf : option Configuration) : Configuration :=
  match cf with
  | None => NewConfiguration
  | Some cf => cf
  end.

(** The allow-list that [init] builds from the configuration. *)
Definition include_map (cf : Configuration) : option (gmap string bool) :=
  if (0 <? length (KeyColumns cf))%nat
  then Some (foldl (fun m k => <[k := true]> m) ∅ (KeyColumns cf))
  else None.

(** A header that names two columns alike, and a row whose first field is
    empty. *)
Definition converter_aa : Converter :=
  fst (NewConverter (csv.NewReader [["a"; "a"]; [EmptyString; "x"]]) None).

(** Explicit columns and no allow-list. *)
Definition conf_abc : Configuration := mkConfiguration ∅ ["a"; "b"; "c"] [].

(** Two explicit columns and no allow-list. *)
Definition conf_ab : Configuration := mkConfiguration ∅ ["a"; "b"] [].

(** Field counts as the specification words it: wherever it stands, a row
    whose field count differs from the number of column names makes [Read]
    fail with the field-count error and return a nil item. *)
Definition mismatch_rejected : Prop :=
  forall (records : list (list string)) (cf : option Configuration) (n : nat)
         (c0 c : Converter) (row : list string) (rest : list (list string)),
    NewConverter (csv.NewReader records) cf = (c0, None) ->
    advance n c0 = Returned c ->
    csv.pending (r c) = row :: rest ->
    length row <> length (columnNames c) ->
    exists c', Read c = Returned (c', (None, Some csv_ErrFieldCount)).

Definition arity (n : nat) (rows : list (list string)) : Prop :=
  Forall (fun row : list string => length row = n) rows.

(** Header "a,b,c" and the row "the,,cork". *)
Definition converter_the_cork : Converter :=
  fst (NewConverter (csv.NewReader [["a"; "b"; "c"]; ["the"; EmptyString; "cork"]]) None).

(** The events of [n] polls that found the execution running. *)
Fixpoint running_events (n : nat) : list main.remote_event :=
  match n with
  | O => []
  | S n' => main.Info "execution running" :: main.Sleep 5 :: running_events n'
  end.

Definition is_Unmarshal (e : main.remote_event) : bool :=
  match e with
  | main.Unmarshal _ => true
  | _ => false
  end.

(** A decoder of the remote output that accepts nothing. *)
Definition no_json : string -> option (list main.sfnResponse) := fun _ => None.

(** ** The worker pool: bookkeeping for the invariants *)

Definition sumZ (l : list Z) : Z := foldr Z.add 0 l.

Definition batch_len (b : main.batch) : Z := Z.of_nat (length b).

(** The batch a worker has received and not yet passed to the sink. *)
Definition inflight (w : main.worker) : list main.batch :=
  match w with
  | main.WWrite b => [b]
  | _ => []
  end.

(** Records written by a worker and not yet added to [recordCount]. *)
Definition uncounted_records (w : main.worker) : Z :=
  match w with
  | main.WAddRecords b => batch_len b
  | _ => 0
  end.

(** Batches written by a worker and not yet added to [batchCount]. *)
Definition uncounted_batches (w : main.worker) : Z :=
  match w with
  | main.WAddRecords _ | main.WAddBatch _ => 1
  | _ => 0
  end.

(** The batches the sink accepted, in the order of the calls. *)
Definition ok_batches (written : list (main.batch * bool)) : list main.batch :=
  map fst (filter (fun w => snd w = true) written).

Definition is_progress (e : main.log_entry) : bool :=
  match e with
  | main.LogProgress _ _ => true
  | _ => false
  end.

Definition progress_count (l : list main.log_entry) : nat :=
  length (filter (fun e => is_progress e = true) l).

(** How many of the first [k] increments of a counter that starts at 1
    reach a multiple of 100. *)
Definition hundreds (k : Z) : nat :=
  length (filter (fun j => Z.rem (main.wrap64 (1 + j)) 100 = 0) (seqZ 1 k)).

(** No worker stands between a successful write and the update of the
    counters. *)
Definition quiescent (s : main.state) : Prop :=
  Forall (fun w => uncounted_batches w = 0) (main.workers s).

(** The transitions of a run, one per goroutine step. *)
Inductive transition : main.state -> main.state -> Prop :=
| t_read_panic s rd e :
    main.main_pc s = main.PReadBatch rd ->
    ReadBatch rd = Panicked e ->
    transition s (main.set_main s (main.PPanic e))
| t_read_send s rd rd' b n err eof :
    main.main_pc s = main.PReadBatch rd ->
    ReadBatch rd = Returned (rd', (b, n, err)) ->
    (err = None /\ eof = false \/ err = Some io_EOF /\ eof = true) ->
    transition s (main.set_main s (main.PSend b eof rd'))
| t_read_fatal s rd rd' b n e :
    main.main_pc s = main.PReadBatch rd ->
    ReadBatch rd = Returned (rd', (b, n, Some e)) ->
    e <> io_EOF ->
    transition s
      (main.set_main (main.add_log s (main.LogReadBatchFatal (main.batchCount s)))
         main.PFatal)
| t_send s b eof rd :
    main.main_pc s = main.PSend b eof rd ->
    (length (main.batches s) < main.queue_capacity)%nat ->
    transition s
      (main.mkState (if eof then main.PClose else main.PReadBatch rd)
         (main.batches s ++ [b]) (main.closed s) (main.workers s)
         (main.recordCount s) (main.batchCount s) (main.sent s ++ [b])
         (main.written s) (main.log s))
| t_close s :
    main.main_pc s = main.PClose ->
    transition s
      (main.mkState main.PWait (main.batches s) true (main.workers s)
         (main.recordCount s) (main.batchCount s) (main.sent s)
         (main.written s) (main.log s))
| t_wait s :
    main.main_pc s = main.PWait ->
    main.all_done (main.workers s) = true ->
    transition s
      (main.set_main (main.add_log s (main.LogComplete (main.recordCount s)))
         main.PComplete)
| t_receive s l1 l2 b rest :
    main.running s = true ->
    main.workers s = l1 ++ main.WReceive :: l2 ->
    main.batches s = b :: rest ->
    transition s
      (main.mkState (main.main_pc s) rest (main.closed s)
         (l1 ++ main.WWrite b :: l2)
         (main.recordCount s) (main.batchCount s) (main.sent s)
         (main.written s) (main.log s))
| t_return s l1 l2 :
    main.running s = true ->
    main.workers s = l1 ++ main.WReceive :: l2 ->
    main.batches s = [] ->
    main.closed s = true ->
    transition s
      (main.mkState (main.main_pc s) (main.batches s) (main.closed s)
         (l1 ++ main.WDone :: l2)
         (main.recordCount s) (main.batchCount s) (main.sent s)
         (main.written s) (main.log s))
| t_write_ok s l1 l2 b :
    main.running s = true ->
    main.workers s = l1 ++ main.WWrite b :: l2 ->
    transition s
      (main.mkState (main.main_pc s) (main.batches s) (main.closed s)
         (l1 ++ main.WAddRecords b :: l2)
         (main.recordCount s) (main.batchCount s) (main.sent s)
         (main.written s ++ [(b, true)]) (main.log s))
| t_write_error s l1 l2 b :
    main.running s = true ->
    main.workers s = l1 ++ main.WWrite b :: l2 ->
    transition s
      (main.mkState (main.main_pc s) (main.batches s) (main.closed s)
         (l1 ++ main.WDone :: l2)
         (main.recordCount s) (main.batchCount s) (main.sent s)
         (main.written s ++ [(b, false)])
         (main.log s ++ [main.LogBatchWriteError (length l1)]))
| t_add_records s l1 l2 b :
    main.running s = true ->
    main.workers s = l1 ++ main.WAddRecords b :: l2 ->
    transition s
      (main.mkState (main.main_pc s) (main.batches s) (main.closed s)
         (l1 ++ main.WAddBatch (main.wrap64 (main.recordCount s + batch_len b)) :: l2)
         (main.wrap64 (main.recordCount s + batch_len b))
         (main.batchCount s) (main.sent s) (main.written s) (main.log s))
| t_add_batch s l1 l2 rc :
    main.running s = true ->
    main.workers s = l1 ++ main.WAddBatch rc :: l2 ->
    transition s
      (main.mkState (main.main_pc s) (main.batches s) (main.closed s)
         (l1 ++ main.WReceive :: l2)
         (main.recordCount s) (main.wrap64 (main.batchCount s + 1))
         (main.sent s) (main.written s)
         (main.log s ++
            if Z.rem (main.wrap64 (main.batchCount s + 1)) 100 =? 0
            then [main.LogProgress (length l1) rc] else [])).

(** Reachability through transitions. *)
Inductive reaches : main.state -> main.state -> Prop :=
| reaches_refl s : reaches s s
| reaches_step s1 s2 s3 : reaches s1 s2 -> transition s2 s3 -> reaches s1 s3.

(** The counters against the history of the sink: both lag behind the
    accepted batches by what the workers have written and not yet counted. *)
Definition counters_inv (s : main.state) : Prop :=
  main.recordCount s =
    main.wrap64 (sumZ (map batch_len (ok_batches (main.written s)))
                 - sumZ (map uncounted_records (main.workers s)))
  /\ main.batchCount s =
       main.wrap64 (1 + Z.of_nat (length (ok_batches (main.written s)))
                    - sumZ (map uncounted_batches (main.workers s)))
  /\ sumZ (map uncounted_batches (main.workers s))
       <= Z.of_nat (length (ok_batches (main.written s)))
  /\ progress_count (main.log s) =
       hundreds (Z.of_nat (length (ok_batches (main.written s)))
                 - sumZ (map uncounted_batches (main.workers s))).

(** The initial state of the pool for a converter and a worker count. *)
Definition initial (reader : Converter) (n : nat) : main.state :=
  main.mkState (main.PReadBatch reader) [] false (replicate n main.WReceive)
    0 1 [] [] [].

(** The queue against the histories: every batch sent is in the queue, in
    the hands of a worker, or was passed to the sink; the queue is closed
    only once the main goroutine is past its loop; while the sink has
    accepted every batch, a worker has returned only on a closed and empty
    queue; and [importLocal] returns only after every worker. *)
Definition pool_inv (n : nat) (s : main.state) : Prop :=
  length (main.workers s) = n
  /\ main.sent s ≡ₚ
       map fst (main.written s) ++ flat_map inflight (main.workers s) ++ main.batches s
  /\ (main.closed s = true ->
      main.main_pc s = main.PWait \/ main.main_pc s = main.PComplete)
  /\ (Forall (fun w : main.batch * bool => snd w = true) (main.written s) ->
      main.WDone ∈ main.workers s ->
      main.closed s = true /\ main.batches s = [])
  /\ (main.main_pc s = main.PComplete -> main.all_done (main.workers s) = true).

Definition full (b : main.batch) : Prop := length b = 25%nat.

Definition accepted (w : main.batch * bool) : Prop := snd w = true.

(** The ingestion loop on an input of a header and [N] rows of its arity,
    [N] a multiple of 25: full batches are sent while rows are left, then one
    empty batch, then the queue is closed. *)
Definition ingest_inv (hdr : list string) (N : nat) (s : main.state) : Prop :=
  match main.main_pc s with
  | main.PReadBatch rd =>
      header_mode hdr rd /\ arity (length hdr) (csv.pending (r rd)) /\
      Forall full (main.sent s) /\
      (25 * length (main.sent s) + length (csv.pending (r rd)) = N)%nat
  | main.PSend b eof rd =>
      Forall full (main.sent s) /\
      if eof then b = [] /\ (25 * length (main.sent s) = N)%nat
      else full b /\ header_mode hdr rd /\ arity (length hdr) (csv.pending (r rd)) /\
           (25 * (length (main.sent s) + 1) + length (csv.pending (r rd)) = N)%nat
  | main.PClose | main.PWait | main.PComplete =>
      exists bs, main.sent s = bs ++ [[]] /\ Forall full bs /\ (25 * length bs = N)%nat
  | main.PFatal | main.PPanic _ => False
  end.

(** [m] calls of [ReadBatch], whatever they return. *)
Fixpoint after_batches (m : nat) (c : Converter) : outcome Converter :=
  match m with
  | O => Returned c
  | S m' =>
      match ReadBatch c with
      | Returned (c', _) => after_batches m' c'
      | Panicked e => Panicked e
      end
  end.

(** A schedule that runs the goroutines one after the other: the main
    goroutine reads and sends a batch, worker 0 takes it through the sink
    and the counters; after the last batch the queue is closed, the [n]
    workers return and [importLocal] completes. *)
Definition round : list main.action :=
  [main.Main; main.Main; main.Worker 0 true; main.Worker 0 true;
   main.Worker 0 true; main.Worker 0 true].

Definition sequential_schedule (m n : nat) : list main.action :=
  concat (replicate (S m) round) ++
  [main.Main] ++ map (fun i => main.Worker i true) (seq 0 n) ++ [main.Main].

(** The progress counters as the specification words them: after [k]
    accepted batches of [r] records in all, the batch counter is [k], the
    record counter is [r], and progress was logged once per multiple of 100
    among the batch counts 1 .. [k]. *)
Definition counters_count_from_zero : Prop :=
  forall (records : list (list string)) (numericFields booleanFields : list string)
         (concurrency : Z) (s0 : main.state) (sched : list main.action)
         (s : main.state),
    main.importLocal_start records numericFields booleanFields concurrency
      = main.Started s0 ->
    main.run sched s0 = Some s ->
    quiescent s ->
    main.batchCount s = Z.of_nat (length (ok_batches (main.written s)))
    /\ main.recordCount s = sumZ (map batch_len (ok_batches (main.written s)))
    /\ progress_count (main.log s)
       = Z.to_nat (Z.of_nat (length (ok_batches (main.written s))) / 100).

(** A run on the header "a" and the row "1", with one worker. *)
Definition one_row_start : main.state :=
  initial (fst (NewConverter (csv.NewReader [["a"]; ["1"]])
                  (Some (AddBoolKeys (AddNumberKeys NewConfiguration []) []))))
    1.

Definition one_row_final : main.state :=
  match main.run (sequential_schedule 0 1) one_row_start with
  | Some s => s
  | None => one_row_start
  end.

(** One call of [ReadBatch] on a new converter, as [TestConverter] makes it. *)
Definition test_ReadBatch (records : list (list string)) (cf : option Configuration) :=
  match ReadBatch (fst (NewConverter (csv.NewReader records) cf)) with
  | Returned (_, res) => Some res
  | Panicked _ => None
  end.


(** ** Further notions for the converter *)

(** The item that [Read] builds from a record: the column loop run on an
    empty map ([None] if it panics). *)
Definition row_item (c : Converter) (record : list string)
  : option (gmap string AttributeValue) :=
  match read_columns c record 0 (columnNames c) ∅ with
  | Returned items => Some items
  | Panicked _ => None
  end.

(** Header "a,b,c", the allow-list "b,c", one row. *)
Definition converter_keep_bc : Converter :=
  fst (NewConverter (csv.NewReader [["a"; "b"; "c"]; ["the"; "red, wine"; "cork"]])
         (Some (AddKeyColumns NewConfiguration ["b"; "c"]))).

(** Columns "a" and "b" declared numeric, then "b" declared boolean. *)
Definition converter_num_bool : Converter :=
  mkConverter (csv.NewReader [])
    (AddBoolKeys (AddNumberKeys NewConfiguration ["a"; "b"]) ["b"]) [] None.

(** ** Further notions for binary columns *)

(** The text without its line breaks (LF and CR). *)
Fixpoint strip_line_breaks (s : string) : string :=
  match s with
  | EmptyString => EmptyString
  | String c s' =>
      if base64.is_newline (byte_of_ascii c) then strip_line_breaks s'
      else String c (strip_line_breaks s')
  end.

Fixpoint strip_newlines (src : list Z) : list Z :=
  match src with
  | [] => []
  | c :: rest =>
      if base64.is_newline c then strip_newlines rest else c :: strip_newlines rest
  end.

(** Two results of the decoder with the same bytes, both accepted or both
    rejected. *)
Definition same_decoding (x y : list Z * option base64.error) : Prop :=
  fst x = fst y /\ (snd x = None <-> snd y = None).

(** ** Further notions for the command *)

Definition tab_string : string := String char_tab EmptyString.

(** Flags of a remote import from a bucket. *)
Definition flags_remote : main.Flags :=
  main.mkFlags "eu-west-1" "table" "eu-west-2" "bucket" "data.csv" EmptyString
    EmptyString true "a,b" EmptyString "comma" 8.

(** Flags of a local import from a file, the other flags at their defaults. *)
Definition flags_local : main.Flags :=
  main.mkFlags "eu-west-1" "table" EmptyString EmptyString EmptyString "data.csv"
    EmptyString false EmptyString EmptyString "comma" 8.

(** The table flags alone: no source is named. *)
Definition flags_no_source : main.Flags :=
  main.mkFlags "eu-west-1" "table" EmptyString EmptyString EmptyString EmptyString
    EmptyString false EmptyString EmptyString "comma" 8.

Definition no_escape : string -> string := fun s => s.

Definition is_ddbimport (sm : main.StateMachineListItem) : bool :=
  String.eqb (main.Name sm) "ddbimport".

(** ** Further notions for the worker pool *)

Definition is_done (w : main.worker) : bool :=
  match w with
  | main.WDone => true
  | _ => false
  end.

(** The calls of the sink that returned an error. *)
Definition failed_writes (written : list (main.batch * bool)) : nat :=
  length (filter (fun w : main.batch * bool => snd w = false) written).

(** The workers that have returned. *)
Definition returned (ws : list main.worker) : nat :=
  length (filter (fun w => is_done w = true) ws).

(** What the main goroutine holds for the queue is a batch of at most 25
    items, and so is every batch in the queue. *)
Definition queue_inv (s : main.state) : Prop :=
  (length (main.batches s) <= main.queue_capacity)%nat /\
  Forall (fun b : main.batch => (length b <= 25)%nat) (main.batches s) /\
  match main.main_pc s with
  | main.PSend b _ _ => (length b <= 25)%nat
  | _ => True
  end.

(** [importLocal] has returned only through its last log line, which holds
    the record counter. *)
Definition complete_inv (s : main.state) : Prop :=
  main.main_pc s = main.PComplete ->
  exists l, main.log s = l ++ [main.LogComplete (main.recordCount s)].

(** The batches the sink refused, in the order of the calls. *)
Definition failed_batches (written : list (main.batch * bool)) : list main.batch :=
  map fst (filter (fun w : main.batch * bool => snd w = false) written).

(** With no worker nothing leaves the queue and the counters stay. *)
Definition idle_inv (s : main.state) : Prop :=
  main.workers s = [] /\ main.written s = [] /\
  main.recordCount s = 0 /\ main.batchCount s = 1 /\
  main.sent s = main.batches s.

(** The ingestion loop on an input whose rows have the header's arity up to
    the row [bad], which comes after [G] of them: full batches are sent
    while 25 good rows are left, then the loop ends in [logger.Fatal]. *)
Definition fatal_inv (hdr bad : list string) (rest : list (list string)) (G : nat)
  (s : main.state) : Prop :=
  Forall full (main.sent s) /\
  match main.main_pc s with
  | main.PReadBatch rd =>
      header_mode hdr rd /\
      exists good, csv.pending (r rd) = good ++ bad :: rest /\
                   arity (length hdr) good /\
                   (25 * length (main.sent s) + length good = G)%nat
  | main.PSend b eof rd =>
      eof = false /\ full b /\ header_mode hdr rd /\
      exists good, csv.pending (r rd) = good ++ bad :: rest /\
                   arity (length hdr) good /\
                   (25 * (length (main.sent s) + 1) + length good = G)%nat
  | main.PFatal =>
      (25 * length (main.sent s) <= G < 25 * length (main.sent s) + 25)%nat /\
      exists l bc, main.log s = l ++ [main.LogReadBatchFatal bc]
  | main.PClose | main.PWait | main.PComplete | main.PPanic _ => False
  end.

(** The ingestion loop on an input of a header and rows of its arity: what
    was sent, what is about to be sent and the conversions of the rows
    still to read make up the conversions of all the rows, in their order. *)
Definition delivery_inv (hdr : list string) (c0 : Converter)
  (rows : list (list string)) (s : main.state) : Prop :=
  match main.main_pc s with
  | main.PReadBatch rd =>
      header_mode hdr rd /\ arity (length hdr) (csv.pending (r rd)) /\
      (forall row, row_item rd row = row_item c0 row) /\
      concat (main.sent s) ++ map (row_item c0) (csv.pending (r rd))
        = map (row_item c0) rows
  | main.PSend b eof rd =>
      header_mode hdr rd /\ arity (length hdr) (csv.pending (r rd)) /\
      (forall row, row_item rd row = row_item c0 row) /\
      concat (main.sent s) ++ b ++ map (row_item c0) (csv.pending (r rd))
        = map (row_item c0) rows /\
      (eof = true -> csv.pending (r rd) = [])
  | main.PClose | main.PWait | main.PComplete =>
      concat (main.sent s) = map (row_item c0) rows
  | main.PFatal | main.PPanic _ => False
  end.

(** Header "a,b" with "b" declared binary, and a row whose second field is
    not base64. *)
Definition converter_bin_short : Converter :=
  fst (NewConverter (csv.NewReader [["a"; "b"]; ["x"; "!"]])
         (Some (AddBinKeys NewConfiguration ["b"]))).
(** ** Boolean columns *)

Lemma trueValue_neq_falseValue : trueValue <> falseValue.
Proof. discriminate. Qed.

Lemma boolValues_lookup (s : string) :
  boolValues !! s =
    if decide (s = "true" \/ s = "TRUE") then Some trueValue
    else if decide (s = "false" \/ s = "FALSE") then Some falseValue
    else None.
Proof.
  unfold boolValues.
  rewrite !lookup_insert, lookup_empty.
  repeat case_decide; subst; try reflexivity; try discriminate;
    exfalso; intuition congruence.
Qed.

Lemma boolValue_counterexample_eval :
  string_to_lower "True" = "true" /\ boolValue "True" = falseValue.
Proof. split; [reflexivity |]. unfold boolValue. rewrite boolValues_lookup. reflexivity. Qed.

(** C1, as stated: the conversion is not insensitive to case.  "True" is a
    casing of "true" and converts to [false]. *)
Lemma boolValue_not_case_insensitive : ~ bool_conversion_case_insensitive.
Proof.
  intros H. destruct (H "True") as [Ht _].
  destruct boolValue_counterexample_eval as [Hl Hv].
  specialize (Ht Hl). rewrite Hv in Ht.
  apply trueValue_neq_falseValue. symmetry. exact Ht.
Qed.

(** C1, amended: on a column whose converter is [boolValue] the texts "true"
    and "TRUE" convert to [true], and every other text ("false", "FALSE",
    "True", "yes", ...) converts to [false]. *)
Theorem boolValue_exact_table (c : Converter) (column s : string) :
  KeyToConverter (conf c) !! column = Some boolValue ->
  dynamoValue c column s =
    (if decide (s = "true" \/ s = "TRUE") then trueValue else falseValue)
  /\ av_BOOL trueValue = Some true /\ av_BOOL falseValue = Some false.
Proof.
  intros Hk. split; [| split; reflexivity].
  unfold dynamoValue. rewrite Hk. unfold boolValue.
  rewrite boolValues_lookup.
  repeat case_decide; reflexivity.
Qed.

Lemma boolValue_exact_table_witness :
  dynamoValue bool_converter_ab "a" "yes" =
    (if decide ("yes" = "true" \/ "yes" = "TRUE") then trueValue else falseValue)
  /\ av_BOOL trueValue = Some true /\ av_BOOL falseValue = Some false.
Proof.
  apply (boolValue_exact_table bool_converter_ab "a" "yes").
  vm_compute. reflexivity.
Defined.

(** ** The delimiter *)

(** C6, as stated: the one-character string holding a tab is neither "tab"
    nor "comma" and is mapped to the tab character, not to the comma. *)
Lemma delimiter_tab_character : ~ delimiter_named_only.
Proof.
  intros H.
  destruct (H (String char_tab EmptyString)) as (_ & _ & Hc).
  assert (Hd : main.delimiter (String char_tab EmptyString) = 44)
    by (apply Hc; discriminate).
  vm_compute in Hd. discriminate.
Qed.

(** C6, amended: the selection maps "tab" and the one-character string
    holding a tab to the tab character, and every other string ("comma" and
    "," among them) to the comma. *)
Theorem delimiter_exact (s : string) :
  main.delimiter s =
    if decide (s = "tab" \/ s = String char_tab EmptyString)
    then byte_of_ascii char_tab else byte_of_ascii ","%char.
Proof.
  unfold main.delimiter.
  destruct (String.eqb_spec s ",") as [-> | Hc]; [reflexivity |].
  destruct (String.eqb_spec s (String char_tab EmptyString)) as [-> | Ht]; [reflexivity |].
  destruct (String.eqb_spec s "tab") as [-> | Hn]; [reflexivity |].
  simpl. case_decide as Hd; [| reflexivity].
  destruct Hd; contradiction.
Qed.

(** ** Binary columns *)





Lemma binValue_bytes (s : string) :
  binValue s = SetB AttributeValue_zero (fst (base64.DecodeString s)).
Proof. unfold binValue. destruct (base64.DecodeString s). reflexivity. Qed.





(** ** The CSV reader *)

Lemma csv_Read_eof (rd : csv.Reader) :
  csv.pending rd = [] -> csv.Read rd = (rd, ([], Some io_EOF)).
Proof. intros H. unfold csv.Read. rewrite H. reflexivity. Qed.

Lemma csv_Read_first (rd : csv.Reader) (dst : list string) (rest : list (list string)) :
  csv.pending rd = dst :: rest -> csv.FieldsPerRecord rd = 0 ->
  csv.Read rd = (csv.mkReader rest (Z.of_nat (length dst)), (dst, None)).
Proof. intros H H0. unfold csv.Read. rewrite H, H0. reflexivity. Qed.

Lemma csv_Read_checked (rd : csv.Reader) (dst : list string) (rest : list (list string)) :
  csv.pending rd = dst :: rest -> 0 < csv.FieldsPerRecord rd ->
  csv.Read rd =
    (csv.mkReader rest (csv.FieldsPerRecord rd),
     (dst, if decide (Z.of_nat (length dst) = csv.FieldsPerRecord rd)
           then None else Some csv_ErrFieldCount)).
Proof.
  intros H H0. unfold csv.Read. rewrite H.
  apply Z.ltb_lt in H0. rewrite H0.
  case_decide as Hd.
  - apply Z.eqb_eq in Hd. rewrite Hd. reflexivity.
  - apply Z.eqb_neq in Hd. rewrite Hd. reflexivity.
Qed.

(** ** The column loop of [Read] *)

Lemma string_length_zero (v : string) : (String.length v =? 0)%nat = true <-> v = EmptyString.
Proof. destruct v; simpl; split; intros H; congruence. Qed.

Lemma read_columns_absent (c : Converter) (record : list string) (column : string) :
  forall columns i items items',
    read_columns c record i columns items = Returned items' ->
    items !! column = None ->
    (forall k, columns !! k = Some column -> record !! (i + k)%nat = Some EmptyString) ->
    items' !! column = None.
Proof.
  induction columns as [| col columns IH]; intros i items items' Hr Hi He; simpl in Hr.
  - congruence.
  - assert (Hnext : forall k, columns !! k = Some column ->
                      record !! (S i + k)%nat = Some EmptyString).
    { intros k Hk. specialize (He (S k) Hk).
      replace (S i + k)%nat with (i + S k)%nat by lia. exact He. }
    destruct ((0 <? map_len (columnNamesToInclude c))%nat
              && negb (map_index (columnNamesToInclude c) col)).
    { eapply IH; eauto. }
    destruct (record !! i) as [v |] eqn:Hv; [| discriminate].
    destruct (negb (String.length v =? 0)%nat) eqn:Hlen.
    + eapply IH; [exact Hr | | exact Hnext].
      destruct (decide (col = column)) as [-> | Hne].
      * specialize (He 0%nat eq_refl). rewrite Nat.add_0_r, Hv in He.
        injection He as ->. discriminate.
      * rewrite lookup_insert_ne by exact Hne. exact Hi.
    + eapply IH; eauto.
Qed.

Lemma read_columns_present (c : Converter) (record : list string) (column : string)
  (v : AttributeValue) :
  forall columns i items items',
    read_columns c record i columns items = Returned items' ->
    items' !! column = Some v ->
    items !! column = Some v \/
    exists k raw, columns !! k = Some column /\ record !! (i + k)%nat = Some raw /\
                  raw <> EmptyString /\ v = dynamoValue c column raw.
Proof.
  induction columns as [| col columns IH]; intros i items items' Hr Hv; simpl in Hr.
  - left. congruence.
  - assert (Hshift : forall items0 : gmap string AttributeValue,
              (items0 !! column = Some v \/
               exists k raw, columns !! k = Some column /\
                 record !! (S i + k)%nat = Some raw /\
                 raw <> EmptyString /\ v = dynamoValue c column raw) ->
              items0 !! column = Some v \/
              exists k raw, (col :: columns) !! k = Some column /\
                 record !! (i + k)%nat = Some raw /\
                 raw <> EmptyString /\ v = dynamoValue c column raw).
    { intros items0 [H | (k & raw & Hk & Hraw & Hne & Heq)]; [left; exact H |].
      right. exists (S k), raw. repeat split; try assumption.
      replace (i + S k)%nat with (S i + k)%nat by lia. exact Hraw. }
    destruct ((0 <? map_len (columnNamesToInclude c))%nat
              && negb (map_index (columnNamesToInclude c) col)).
    { apply Hshift. eapply IH; eauto. }
    destruct (record !! i) as [raw |] eqn:Hraw; [| discriminate].
    destruct (negb (String.length raw =? 0)%nat) eqn:Hlen.
    + destruct (IH _ _ _ Hr Hv) as [Hin | Hex].
      * destruct (decide (col = column)) as [-> | Hne].
        -- rewrite lookup_insert_eq in Hin. injection Hin as <-.
           right. exists 0%nat, raw. rewrite Nat.add_0_r.
           repeat split; try assumption; try reflexivity.
           intros ->. discriminate.
        -- rewrite lookup_insert_ne in Hin by exact Hne. left. exact Hin.
      * apply (Hshift items). right. exact Hex.
    + apply Hshift. eapply IH; eauto.
Qed.

Lemma read_columns_total (c : Converter) (record : list string) :
  forall columns i items,
    (forall k column, columns !! k = Some column -> included c column = true ->
                      (i + k < length record)%nat) ->
    exists items', read_columns c record i columns items = Returned items'.
Proof.
  induction columns as [| col columns IH]; intros i items Hin; simpl.
  - eauto.
  - assert (Hnext : forall k column, columns !! k = Some column ->
                      included c column = true -> (S i + k < length record)%nat).
    { intros k column Hk Hc. specialize (Hin (S k) column Hk Hc). lia. }
    destruct ((0 <? map_len (columnNamesToInclude c))%nat
              && negb (map_index (columnNamesToInclude c) col)) eqn:Hskip.
    { apply IH. exact Hnext. }
    assert (Hlt : (i < length record)%nat).
    { specialize (Hin 0%nat col eq_refl). unfold included in Hin. rewrite Hskip in Hin.
      specialize (Hin eq_refl). lia. }
    destruct (lookup_lt_is_Some_2 record i Hlt) as [v Hv]. rewrite Hv.
    destruct (negb (String.length v =? 0)%nat); apply IH; exact Hnext.
Qed.

Lemma read_columns_panics (c : Converter) (record : list string) :
  forall columns i items k column,
    columns !! k = Some column -> included c column = true ->
    (length record <= i + k)%nat ->
    exists e, read_columns c record i columns items = Panicked e.
Proof.
  induction columns as [| col columns IH]; intros i items k column Hk Hc Hle.
  - discriminate.
  - simpl.
    destruct k as [| k].
    + injection Hk as ->. unfold included in Hc.
      destruct ((0 <? map_len (columnNamesToInclude c))%nat
                && negb (map_index (columnNamesToInclude c) column)); [discriminate |].
      rewrite (lookup_ge_None_2 record i) by lia. eauto.
    + assert (Hrec : forall items0,
                exists e, read_columns c record (S i) columns items0 = Panicked e).
      { intros items0. apply (IH (S i) items0 k column Hk Hc). lia. }
      destruct ((0 <? map_len (columnNamesToInclude c))%nat
                && negb (map_index (columnNamesToInclude c) col)); [apply Hrec |].
      destruct (record !! i) as [v |]; [| eauto].
      destruct (negb (String.length v =? 0)%nat); apply Hrec.
Qed.

(** ** Initialisation *)

Lemma foldl_include_lookup (ks : list string) (column : string) :
  forall m0 : gmap string bool,
    foldl (fun m k => <[k := true]> m) m0 ks !! column =
      if decide (column ∈ ks) then Some true else m0 !! column.
Proof.
  induction ks as [| k ks IH]; intros m0; cbn [foldl].
  - destruct (decide (column ∈ [])) as [H | H]; [inversion H | reflexivity].
  - rewrite IH.
    destruct (decide (column ∈ ks)) as [Hin | Hin];
      destruct (decide (column ∈ k :: ks)) as [Hin' | Hin']; try reflexivity.
    + exfalso. apply Hin'. right. assumption.
    + apply elem_of_cons in Hin' as [-> | Hin']; [| contradiction].
      apply lookup_insert_eq.
    + rewrite lookup_insert_ne; [reflexivity |].
      intros ->. apply Hin'. left.
Qed.

Lemma included_allowed (rd : csv.Reader) (cf : Configuration) (names : list string)
  (column : string) :
  included (mkConverter rd cf names (include_map cf)) column = true <->
  allowed cf column.
Proof.
  unfold included, allowed, include_map. cbn [columnNamesToInclude].
  destruct (KeyColumns cf) as [| k ks] eqn:Hks; cbn [length Nat.ltb Nat.leb].
  - simpl. split; auto.
  - cbn [map_len map_index].
    set (m := foldl (fun m k => <[k := true]> m) ∅ (k :: ks)).
    assert (Hlook : m !! column = if decide (column ∈ k :: ks) then Some true else None).
    { subst m. rewrite foldl_include_lookup, lookup_empty. reflexivity. }
    assert (Hsize : (0 <? size m)%nat = true).
    { apply Nat.ltb_lt. destruct (size m) eqn:Hs; [| lia].
      apply map_size_empty_iff in Hs.
      assert (Hk : m !! k = Some true).
      { subst m. rewrite foldl_include_lookup.
        destruct (decide (k ∈ k :: ks)) as [Hd | Hd]; [reflexivity |].
        exfalso. apply Hd. left. }
      rewrite Hs, lookup_empty in Hk. discriminate. }
    rewrite Hlook. destruct (size m); [discriminate Hsize |].
    destruct (decide (column ∈ k :: ks)) as [Hd | Hd]; simpl; split; auto.
    + discriminate.
    + intros [H | H]; [discriminate | contradiction].
Qed.

Lemma NewConverter_explicit (rd : csv.Reader) (cf : Configuration) :
  Columns cf <> [] ->
  NewConverter rd (Some cf) = (mkConverter rd cf (Columns cf) (include_map cf), None).
Proof.
  intros Hc. unfold NewConverter, init, include_map. cbn [conf r columnNames columnNamesToInclude].
  destruct (KeyColumns cf) as [| k ks]; cbn [length Nat.ltb Nat.leb];
    cbn [conf r columnNames columnNamesToInclude];
    destruct (Columns cf) as [| col cols]; try contradiction; reflexivity.
Qed.

Lemma NewConverter_header (cf : option Configuration) (header : list string)
  (rows : list (list string)) :
  Columns (config_of cf) = [] ->
  NewConverter (csv.NewReader (header :: rows)) cf =
    (mkConverter (csv.mkReader rows (Z.of_nat (length header))) (config_of cf) header
       (include_map (config_of cf)), None).
Proof.
  intros Hc. unfold NewConverter, init, include_map. fold (config_of cf).
  cbn [conf r columnNames columnNamesToInclude].
  destruct (KeyColumns (config_of cf)) as [| k ks]; cbn [length Nat.ltb Nat.leb];
    cbn [conf r columnNames columnNamesToInclude]; rewrite Hc; reflexivity.
Qed.

Lemma NewConverter_header_mode (cf : option Configuration) (header : list string)
  (rows : list (list string)) :
  Columns (config_of cf) = [] -> header <> [] ->
  exists c0, NewConverter (csv.NewReader (header :: rows)) cf = (c0, None) /\
             header_mode header c0 /\ csv.pending (r c0) = rows /\
             conf c0 = config_of cf.
Proof.
  intros Hc Hh. eexists. split; [apply NewConverter_header; exact Hc |].
  unfold header_mode. simpl. auto.
Qed.

(** ** [Read] on a converter that took its columns from the header *)

Lemma header_mode_positive (hdr : list string) (c : Converter) :
  header_mode hdr c -> 0 < csv.FieldsPerRecord (r c).
Proof.
  intros (_ & Hf & Hn). rewrite Hf. destruct hdr; [contradiction | simpl; lia].
Qed.

Lemma header_mode_set_r (hdr : list string) (c : Converter) (rest : list (list string)) :
  header_mode hdr c ->
  header_mode hdr (set_r c (csv.mkReader rest (csv.FieldsPerRecord (r c)))).
Proof. intros (Hn & Hf & Hh). unfold header_mode. simpl. auto. Qed.

Lemma Read_eof (c : Converter) :
  csv.pending (r c) = [] ->
  Read c = Returned (set_r c (r c), (None, Some io_EOF)).
Proof. intros H. unfold Read. rewrite (csv_Read_eof _ H). reflexivity. Qed.

Lemma set_r_same (c : Converter) : set_r c (r c) = c.
Proof. destruct c. reflexivity. Qed.

Lemma Read_header_mismatch (hdr : list string) (c : Converter) (row : list string)
  (rest : list (list string)) :
  header_mode hdr c -> csv.pending (r c) = row :: rest ->
  length row <> length hdr ->
  Read c = Returned (set_r c (csv.mkReader rest (csv.FieldsPerRecord (r c))),
                     (None, Some csv_ErrFieldCount)).
Proof.
  intros Hm Hp Hlen. unfold Read.
  rewrite (csv_Read_checked _ _ _ Hp (header_mode_positive _ _ Hm)).
  destruct Hm as (_ & Hf & _).
  case_decide as Hd; [| reflexivity].
  rewrite Hf in Hd. apply Nat2Z.inj in Hd. contradiction.
Qed.

Lemma Read_header_ok (hdr : list string) (c : Converter) (row : list string)
  (rest : list (list string)) :
  header_mode hdr c -> csv.pending (r c) = row :: rest ->
  length row = length hdr ->
  exists items,
    Read c = Returned (set_r c (csv.mkReader rest (csv.FieldsPerRecord (r c))),
                       (Some items, None)).
Proof.
  intros Hm Hp Hlen. unfold Read.
  rewrite (csv_Read_checked _ _ _ Hp (header_mode_positive _ _ Hm)).
  destruct Hm as (Hn & Hf & _).
  case_decide as Hd; [| exfalso; apply Hd; rewrite Hf, Hlen; reflexivity].
  set (c' := set_r c _).
  destruct (read_columns_total c' row (columnNames c') 0 ∅) as [items Hi].
  { intros k column Hk _. apply lookup_lt_Some in Hk.
    subst c'. simpl in Hk. rewrite Hn in Hk. lia. }
  rewrite Hi. eauto.
Qed.

(** In this mode [Read] always returns and keeps the mode. *)
Lemma Read_header_mode (hdr : list string) (c : Converter) :
  header_mode hdr c ->
  exists c' res, Read c = Returned (c', res) /\ header_mode hdr c' /\
                 csv.pending (r c') = tail (csv.pending (r c)) /\
                 conf c' = conf c.
Proof.
  intros Hm. destruct (csv.pending (r c)) as [| row rest] eqn:Hp.
  - rewrite (Read_eof _ Hp), set_r_same. eexists _, _. split; [reflexivity |].
    rewrite Hp. auto.
  - destruct (decide (length row = length hdr)) as [Hlen | Hlen].
    + destruct (Read_header_ok _ _ _ _ Hm Hp Hlen) as [items ->].
      eexists _, _. split; [reflexivity |]. split; [| split; reflexivity].
      apply header_mode_set_r. exact Hm.
    + rewrite (Read_header_mismatch _ _ _ _ Hm Hp Hlen).
      eexists _, _. split; [reflexivity |]. split; [| split; reflexivity].
      apply header_mode_set_r. exact Hm.
Qed.

Lemma advance_header_mode (hdr : list string) :
  forall n c,
    header_mode hdr c ->
    exists c', advance n c = Returned c' /\ header_mode hdr c' /\
               csv.pending (r c') = drop n (csv.pending (r c)) /\
               conf c' = conf c.
Proof.
  induction n as [| n IH]; intros c Hm; simpl.
  - exists c. rewrite drop_0. auto.
  - destruct (Read_header_mode _ _ Hm) as (c1 & res & -> & Hm1 & Hp1 & Hc1).
    destruct (IH c1 Hm1) as (c' & Ha & Hm' & Hp' & Hc').
    exists c'. split; [exact Ha |]. split; [exact Hm' |]. split.
    + rewrite Hp', Hp1. destruct (csv.pending (r c)); simpl; [apply drop_nil | reflexivity].
    + congruence.
Qed.

(** Once the reader's field count is set, [Read] keeps it and consumes one
    record. *)
Lemma Read_checked_step (c c' : Converter) res :
  Read c = Returned (c', res) -> 0 < csv.FieldsPerRecord (r c) ->
  csv.FieldsPerRecord (r c') = csv.FieldsPerRecord (r c) /\
  csv.pending (r c') = tail (csv.pending (r c)).
Proof.
  intros Hr Hpos. unfold Read in Hr.
  destruct (csv.pending (r c)) as [| row rest] eqn:Hp.
  - rewrite (csv_Read_eof _ Hp) in Hr. cbv beta iota zeta in Hr.
    injection Hr as <- _. cbn [set_r r]. rewrite Hp. auto.
  - rewrite (csv_Read_checked _ _ _ Hp Hpos) in Hr. cbv beta iota zeta in Hr.
    destruct (decide (Z.of_nat (length row) = csv.FieldsPerRecord (r c))) as [Hd | Hd].
    + match type of Hr with
      | context [read_columns ?a ?b ?c ?d ?e] => destruct (read_columns a b c d e)
      end; [| discriminate Hr].
      injection Hr as <- _. cbn [set_r r csv.FieldsPerRecord csv.pending tail]. auto.
    + injection Hr as <- _. cbn [set_r r csv.FieldsPerRecord csv.pending tail]. auto.
Qed.

Lemma advance_checked :
  forall n c c',
    advance n c = Returned c' -> 0 < csv.FieldsPerRecord (r c) ->
    csv.FieldsPerRecord (r c') = csv.FieldsPerRecord (r c) /\
    csv.pending (r c') = drop n (csv.pending (r c)).
Proof.
  induction n as [| n IH]; intros c c' Ha Hpos; cbn [advance] in Ha.
  - injection Ha as <-. rewrite drop_0. auto.
  - destruct (Read c) as [[c1 res] | e] eqn:Hr; [| discriminate Ha].
    destruct (Read_checked_step _ _ _ Hr Hpos) as [Hf Hp].
    destruct (IH c1 c' Ha) as [Hf' Hp']; [rewrite Hf; exact Hpos |].
    split; [congruence |]. rewrite Hp', Hp.
    destruct (csv.pending (r c)); [apply drop_nil | reflexivity].
Qed.

Lemma conf_ab_Read :
  exists c' items,
    Read (mkConverter (csv.NewReader [["1"; "2"; "3"]]) conf_ab ["a"; "b"] None) =
      Returned (c', (Some items, None)).
Proof. eexists _, _. vm_compute. reflexivity. Qed.

(** C4, as stated: a row whose field count differs from the number of
    column names is not always rejected.  With the explicit columns "a,b"
    the first row "1,2,3" is converted and no error is returned. *)
Lemma Read_long_first_row_accepted : ~ mismatch_rejected.
Proof.
  intros H.
  destruct (H [["1"; "2"; "3"]] (Some conf_ab) 0%nat
              (mkConverter (csv.NewReader [["1"; "2"; "3"]]) conf_ab ["a"; "b"] None)
              (mkConverter (csv.NewReader [["1"; "2"; "3"]]) conf_ab ["a"; "b"] None)
              ["1"; "2"; "3"] [] eq_refl eq_refl eq_refl) as [c' Hc'].
  - simpl. lia.
  - destruct conf_ab_Read as (c1 & items & Hr). congruence.
Qed.

(** C4, amended: the field count that rows are checked against is that of
    the first record of the input.  When the column names are read from the
    header row this is the header's arity: wherever it stands, a row of
    another field count makes [Read] fail with [csv.ErrFieldCount] and return
    a nil item.  With explicit columns the first record is the first data
    row: [Read] never returns an error on it, whatever its field count, and
    returns an item when it has at least as many fields as there are column
    names; every later row that is reached (the reads before it having
    returned) and whose field count differs from that of the first row, not
    from that of the column list, fails with [csv.ErrFieldCount] and a nil
    item.  A record has at least one field. *)
Theorem Read_field_count_mismatch (cf : option Configuration)
  (first : list string) (before : list (list string)) (row : list string)
  (after : list (list string)) :
  first <> [] -> length row <> length first ->
  exists c0,
    NewConverter (csv.NewReader (first :: before ++ row :: after)) cf = (c0, None) /\
    if decide (Columns (config_of cf) = []) then
      columnNames c0 = first /\
      exists c c',
        advance (length before) c0 = Returned c /\
        csv.pending (r c) = row :: after /\
        Read c = Returned (c', (None, Some csv_ErrFieldCount))
    else
      columnNames c0 = Columns (config_of cf) /\
      csv.pending (r c0) = first :: before ++ row :: after /\
      (forall c1 res, Read c0 = Returned (c1, res) ->
                      exists items, res = (Some items, None)) /\
      ((length (Columns (config_of cf)) <= length first)%nat ->
       exists c1 items, Read c0 = Returned (c1, (Some items, None))) /\
      (forall c, advance (S (length before)) c0 = Returned c ->
                 csv.pending (r c) = row :: after /\
                 exists c', Read c = Returned (c', (None, Some csv_ErrFieldCount))).
Proof.
  intros Hfirst Hlen.
  destruct (decide (Columns (config_of cf) = [])) as [Hc | Hn].
  - destruct (NewConverter_header_mode cf first (before ++ row :: after) Hc Hfirst)
      as (c0 & Hnew & Hm0 & Hp0 & _).
    exists c0. split; [exact Hnew |]. split; [apply Hm0 |].
    destruct (advance_header_mode first (length before) c0 Hm0)
      as (c & Hadv & Hm & Hp & _).
    rewrite Hp0, drop_app_length in Hp.
    exists c. eexists. split; [exact Hadv |]. split; [exact Hp |].
    apply (Read_header_mismatch first c row after Hm Hp Hlen).
  - destruct cf as [cf |]; [| contradiction Hn; reflexivity].
    cbn [config_of] in *.
    rewrite (NewConverter_explicit _ _ Hn).
    set (c0 := mkConverter (csv.NewReader (first :: before ++ row :: after)) cf
                 (Columns cf) (include_map cf)).
    set (c1 := set_r c0 (csv.mkReader (before ++ row :: after) (Z.of_nat (length first)))).
    assert (Hread : Read c0 =
              match read_columns c1 first 0 (Columns cf) ∅ with
              | Panicked e => Panicked e
              | Returned items => Returned (c1, (Some items, None))
              end).
    { unfold Read.
      rewrite (csv_Read_first (r c0) first (before ++ row :: after) eq_refl eq_refl).
      reflexivity. }
    assert (Hpos : 0 < Z.of_nat (length first)).
    { destruct first; [contradiction | simpl; lia]. }
    exists c0. split; [reflexivity |]. split; [reflexivity |]. split; [reflexivity |].
    split; [| split].
    + intros c1' res Hr. rewrite Hread in Hr.
      destruct (read_columns c1 first 0 (Columns cf) ∅) as [items |]; [| discriminate Hr].
      injection Hr as _ <-. exists items. reflexivity.
    + intros Hle.
      destruct (read_columns_total c1 first (Columns cf) 0 ∅) as [items Hi].
      * intros k column Hk _. apply lookup_lt_Some in Hk. simpl. lia.
      * exists c1, items. rewrite Hread, Hi. reflexivity.
    + intros c Ha. cbn [advance] in Ha. rewrite Hread in Ha.
      destruct (read_columns c1 first 0 (Columns cf) ∅) as [items |]; [| discriminate Ha].
      destruct (advance_checked _ _ _ Ha Hpos) as [Hf Hp].
      cbn [c1 set_r r csv.FieldsPerRecord csv.pending] in Hf, Hp.
      rewrite drop_app_length in Hp.
      split; [exact Hp |].
      unfold Read. rewrite (csv_Read_checked (r c) row after Hp) by (rewrite Hf; exact Hpos).
      rewrite Hf.
      destruct (decide (Z.of_nat (length row) = Z.of_nat (length first))) as [He | He].
      * apply Nat2Z.inj in He. contradiction.
      * eexists. reflexivity.
Qed.

Lemma Read_field_count_mismatch_witness :
  exists c0,
    NewConverter (csv.NewReader (["1"; "2"; "3"] :: [] ++ ["4"; "5"] :: []))
      (Some conf_ab) = (c0, None) /\
    if decide (Columns (config_of (Some conf_ab)) = []) then
      columnNames c0 = ["1"; "2"; "3"] /\
      exists c c',
        advance (length (@nil (list string))) c0 = Returned c /\
        csv.pending (r c) = ["4"; "5"] :: [] /\
        Read c = Returned (c', (None, Some csv_ErrFieldCount))
    else
      columnNames c0 = Columns (config_of (Some conf_ab)) /\
      csv.pending (r c0) = ["1"; "2"; "3"] :: [] ++ ["4"; "5"] :: [] /\
      (forall c1 res, Read c0 = Returned (c1, res) ->
                      exists items, res = (Some items, None)) /\
      ((length (Columns (config_of (Some conf_ab))) <= length ["1"; "2"; "3"])%nat ->
       exists c1 items, Read c0 = Returned (c1, (Some items, None))) /\
      (forall c, advance (S (length (@nil (list string)))) c0 = Returned c ->
                 csv.pending (r c) = ["4"; "5"] :: [] /\
                 exists c', Read c = Returned (c', (None, Some csv_ErrFieldCount))).
Proof.
  apply (Read_field_count_mismatch (Some conf_ab) ["1"; "2"; "3"] [] ["4"; "5"] []).
  - discriminate.
  - simpl. lia.
Defined.

(** ** Empty fields *)

Lemma Read_returned_items (c c' : Converter) (record : list string)
  (rest : list (list string)) (items : gmap string AttributeValue) :
  csv.pending (r c) = record :: rest ->
  Read c = Returned (c', (Some items, None)) ->
  exists c1, conf c1 = conf c /\ columnNamesToInclude c1 = columnNamesToInclude c /\
             read_columns c1 record 0 (columnNames c) ∅ = Returned items.
Proof.
  intros Hp Hr. unfold Read in Hr.
  destruct (csv.Read (r c)) as [r' [rec err]] eqn:Hcsv.
  assert (Hrec : rec = record).
  { unfold csv.Read in Hcsv. rewrite Hp in Hcsv.
    repeat match type of Hcsv with
           | context [if ?b then _ else _] => destruct b
           end; congruence. }
  subst rec. exists (set_r c r').
  split; [reflexivity |]. split; [reflexivity |].
  destruct err; [discriminate |].
  cbn [set_r columnNames] in Hr |- *.
  match type of Hr with
  | context [read_columns ?a ?b ?c ?d ?e] =>
      destruct (read_columns a b c d e) eqn:Hrc
  end; [congruence | discriminate].
Qed.

Lemma converter_aa_Read :
  Read converter_aa =
    Returned (set_r converter_aa (csv.mkReader [] 2),
              (Some (<["a" := stringValue "x"]> ∅), None)).
Proof. vm_compute. reflexivity. Qed.

(** C5, as stated: when two columns bear the same name, the empty text of
    one does not keep the name out of the item.  Header "a,a", row ",x":
    the first column is empty and the item holds "a". *)
Lemma Read_empty_column_duplicate_name : ~ empty_column_absent.
Proof.
  intros H.
  specialize (H converter_aa _ [EmptyString; "x"] [] _ 0%nat "a"
                eq_refl eq_refl converter_aa_Read eq_refl eq_refl).
  rewrite lookup_insert_eq in H. discriminate.
Qed.

Lemma converter_the_cork_Read :
  Read converter_the_cork =
    Returned (set_r converter_the_cork (csv.mkReader [] 3),
              (Some (<["a" := stringValue "the"]> (<["c" := stringValue "cork"]> ∅)),
               None)).
Proof. vm_compute. reflexivity. Qed.


(** ** Explicit columns and short rows *)

Lemma conf_ab_keep_a_Read :
  exists c' items,
    Read (fst (NewConverter (csv.NewReader [["x"]]) (Some conf_ab_keep_a))) =
      Returned (c', (Some items, None)).
Proof. eexists _, _. vm_compute. reflexivity. Qed.

(** C9, as stated: a short row does not always make [Read] panic.  With
    columns "a,b" and the allow-list "a", the one-field row "x" is
    converted: the missing column is never indexed. *)
Lemma Read_short_row_filtered : ~ short_row_panics.
Proof.
  intros H.
  destruct (H conf_ab_keep_a ["x"] []) as [e He].
  - discriminate.
  - simpl. lia.
  - destruct conf_ab_keep_a_Read as (c' & items & Hr). congruence.
Qed.

(** C9, amended: with explicit columns the reader's arity check is set by
    the first data row, not by the column list; on that row [Read] panics
    with an index out of range, instead of returning [csv.ErrFieldCount],
    exactly when a column that passes the allow-list stands at a position
    beyond the row's fields, which without an allow-list is whenever the row
    is shorter than the column list.  A later row of another arity than the
    first gets [csv.ErrFieldCount] from the reader. *)
Theorem Read_short_first_row (cf : Configuration) (row : list string)
  (rest : list (list string)) :
  Columns cf <> [] ->
  snd (NewConverter (csv.NewReader (row :: rest)) (Some cf)) = None
  /\ ((exists i column, Columns cf !! i = Some column /\ allowed cf column /\
                        (length row <= i)%nat) ->
      exists e, Read (fst (NewConverter (csv.NewReader (row :: rest)) (Some cf)))
                = Panicked e)
  /\ ((forall i column, Columns cf !! i = Some column -> allowed cf column ->
                        (i < length row)%nat) ->
      exists c' items,
        Read (fst (NewConverter (csv.NewReader (row :: rest)) (Some cf)))
        = Returned (c', (Some items, None)))
  /\ (KeyColumns cf = [] -> (length row < length (Columns cf))%nat ->
      exists e, Read (fst (NewConverter (csv.NewReader (row :: rest)) (Some cf)))
                = Panicked e)
  /\ (forall c1 res row2 rest2,
        Read (fst (NewConverter (csv.NewReader (row :: rest)) (Some cf)))
        = Returned (c1, res) ->
        row <> [] -> rest = row2 :: rest2 -> length row2 <> length row ->
        exists c2, Read c1 = Returned (c2, (None, Some csv_ErrFieldCount))).
Proof.
  intros Hc. rewrite (NewConverter_explicit _ _ Hc). cbn [fst snd].
  set (c0 := mkConverter (csv.NewReader (row :: rest)) cf (Columns cf) (include_map cf)).
  set (c1 := set_r c0 (csv.mkReader rest (Z.of_nat (length row)))).
  assert (Hread : Read c0 =
            match read_columns c1 row 0 (Columns cf) ∅ with
            | Panicked e => Panicked e
            | Returned items => Returned (c1, (Some items, None))
            end).
  { unfold Read. rewrite (csv_Read_first (r c0) row rest eq_refl eq_refl). reflexivity. }
  assert (Hincl : forall column, included c1 column = true <-> allowed cf column).
  { intros column. apply included_allowed. }
  assert (Hpanic : (exists i column, Columns cf !! i = Some column /\ allowed cf column /\
                                     (length row <= i)%nat) ->
                   exists e, Read c0 = Panicked e).
  { intros (i & column & Hi & Ha & Hle).
    destruct (read_columns_panics c1 row (Columns cf) 0 ∅ i column Hi) as [e He].
    - apply Hincl. exact Ha.
    - simpl. exact Hle.
    - exists e. rewrite Hread, He. reflexivity. }
  split; [reflexivity |]. split; [exact Hpanic |]. split; [| split].
  - intros Hall.
    destruct (read_columns_total c1 row (Columns cf) 0 ∅) as [items Hi].
    + intros k column Hk Hin. simpl. apply (Hall k column Hk). apply Hincl. exact Hin.
    + exists c1, items. rewrite Hread, Hi. reflexivity.
  - intros Hk Hlt. apply Hpanic.
    destruct (lookup_lt_is_Some_2 (Columns cf) (length row) Hlt) as [column Hcol].
    exists (length row), column. split; [exact Hcol |]. split; [left; exact Hk | lia].
  - intros c1' res row2 rest2 Hr Hne -> Hlen.
    rewrite Hread in Hr.
    destruct (read_columns c1 row 0 (Columns cf) ∅); [| discriminate].
    injection Hr as <- _.
    unfold Read. subst c1. cbn [set_r r].
    rewrite (csv_Read_checked (csv.mkReader (row2 :: rest2) (Z.of_nat (length row)))
               row2 rest2 eq_refl)
      by (cbn [csv.FieldsPerRecord]; destruct row; [contradiction | simpl; lia]).
    cbn [csv.FieldsPerRecord].
    destruct (decide (Z.of_nat (length row2) = Z.of_nat (length row))) as [He | He].
    + apply Nat2Z.inj in He. contradiction.
    + eexists. reflexivity.
Qed.

Lemma Read_short_first_row_witness :
  exists e, Read (fst (NewConverter (csv.NewReader [["1"; "2"]]) (Some conf_abc)))
            = Panicked e.
Proof.
  destruct (Read_short_first_row conf_abc ["1"; "2"] []) as (_ & _ & _ & H & _).
  - discriminate.
  - apply H; [reflexivity | simpl; lia].
Defined.

(** ** [ReadBatch] *)

Lemma Read_consumes (c c' : Converter) res :
  Read c = Returned (c', res) ->
  (length (csv.pending (r c)) <= length (csv.pending (r c')) + 1)%nat.
Proof.
  unfold Read. destruct (csv.Read (r c)) as [r' [rec err]] eqn:Hcsv. intros Hr.
  assert (Hlen : (length (csv.pending (r c)) <= length (csv.pending r') + 1)%nat).
  { unfold csv.Read in Hcsv. destruct (csv.pending (r c)) as [| dst rest0] eqn:Hp.
    - simpl. lia.
    - repeat match type of Hcsv with
             | context [if ?b then _ else _] => destruct b
             end; injection Hcsv as <- _ _; simpl; lia. }
  destruct err.
  - injection Hr as <- _. exact Hlen.
  - destruct (read_columns _ _ _ _ _); [| discriminate].
    injection Hr as <- _. exact Hlen.
Qed.

(** Whatever the converter and the input, a call returns the items it
    read with their count, reads at most [n] rows and stops at the first
    error. *)
Lemma ReadBatch_loop_bound :
  forall n c items c' items' k err,
    ReadBatch_loop n c items = Returned (c', (items', k, err)) ->
    k = length items' /\
    (length items' <= length items + n)%nat /\
    (length (csv.pending (r c)) <= length (csv.pending (r c')) + n)%nat.
Proof.
  induction n as [| n IH]; intros c items c' items' k err H; simpl in H.
  - injection H as <- <- <- _. lia.
  - destruct (Read c) as [[c1 [item e]] | e] eqn:Hr; [| discriminate].
    pose proof (Read_consumes _ _ _ Hr) as Hc.
    destruct e.
    + injection H as <- <- <- _. lia.
    + apply IH in H. rewrite length_app in H. simpl in H. lia.
Qed.

Lemma ReadBatch_loop_header (hdr : list string) :
  forall n c items,
    header_mode hdr c -> arity (length hdr) (csv.pending (r c)) ->
    exists c' new,
      ReadBatch_loop n c items =
        Returned (c', (items ++ new, length (items ++ new),
                       if (length (csv.pending (r c)) <? n)%nat
                       then Some io_EOF else None)) /\
      length new = Nat.min n (length (csv.pending (r c))) /\
      Forall is_Some new /\
      header_mode hdr c' /\
      csv.pending (r c') = drop n (csv.pending (r c)) /\
      conf c' = conf c.
Proof.
  induction n as [| n IH]; intros c items Hm Har.
  - exists c, []. simpl. rewrite app_nil_r, drop_0. split_and!; auto using Forall_nil.
  - cbn [ReadBatch_loop].
    destruct (csv.pending (r c)) as [| row rest] eqn:Hp.
    + rewrite (Read_eof _ Hp), set_r_same.
      exists c, []. rewrite app_nil_r, Hp. simpl. split_and!; auto using Forall_nil.
    + apply Forall_cons in Har as [Hrow Hrest].
      destruct (Read_header_ok _ _ _ _ Hm Hp Hrow) as [item ->].
      set (c1 := set_r c _).
      assert (Hm1 : header_mode hdr c1) by (apply header_mode_set_r; exact Hm).
      destruct (IH c1 (items ++ [Some item]) Hm1 Hrest)
        as (c' & new & Hloop & Hlen & Hsome & Hm' & Hp' & Hc').
      exists c', (Some item :: new).
      replace (items ++ Some item :: new) with ((items ++ [Some item]) ++ new)
        by (rewrite <- app_assoc; reflexivity).
      split; [exact Hloop |]. simpl in *.
      split_and!; auto; apply Forall_cons; (split; [eexists; reflexivity | exact Hsome]).
Qed.



(** ** Remote mode: the polling loop *)

Section RemoteProperties.

Variable json_Unmarshal : string -> option (list main.sfnResponse).

Lemma importRemote_wait_running (deo : main.DescribeExecutionOutput)
  (rest : list (main.DescribeExecutionOutput + string)) :
  main.Status deo = main.ExecutionStatusRunning ->
  main.importRemote_wait json_Unmarshal (inl deo :: rest) =
    main.Info "execution running" :: main.Sleep 5 ::
      main.importRemote_wait json_Unmarshal rest.
Proof.
  intros Hs. unfold main.importRemote_wait. cbn [main.waitForOutput].
  rewrite Hs. cbn [String.eqb Ascii.eqb Bool.eqb main.ExecutionStatusRunning].
  destruct (main.waitForOutput rest) as [evs res].
  destruct res; reflexivity.
Qed.

Lemma importRemote_wait_terminal (deo : main.DescribeExecutionOutput)
  (rest : list (main.DescribeExecutionOutput + string)) :
  main.Status deo <> main.ExecutionStatusRunning ->
  main.importRemote_wait json_Unmarshal (inl deo :: rest) =
    if decide (main.Status deo = main.ExecutionStatusSucceeded)
    then main.Info "execution succeeded" ::
           main.importRemote_output json_Unmarshal (main.Output deo)
    else [main.Fatal "unexpected execution status"].
Proof.
  intros Hs. unfold main.importRemote_wait. cbn [main.waitForOutput].
  destruct (String.eqb_spec (main.Status deo) main.ExecutionStatusRunning) as [He | _];
    [contradiction |].
  destruct (String.eqb_spec (main.Status deo) main.ExecutionStatusSucceeded) as [He | He].
  - rewrite decide_True by exact He. reflexivity.
  - rewrite decide_False by exact He. reflexivity.
Qed.

Lemma importRemote_wait_prefix (pre : list main.DescribeExecutionOutput)
  (rest : list (main.DescribeExecutionOutput + string)) :
  Forall (fun d => main.Status d = main.ExecutionStatusRunning) pre ->
  main.importRemote_wait json_Unmarshal (map inl pre ++ rest) =
    running_events (length pre) ++ main.importRemote_wait json_Unmarshal rest.
Proof.
  induction 1 as [| d pre Hd _ IH]; [reflexivity |].
  cbn [map app length running_events].
  rewrite (importRemote_wait_running d _ Hd), IH. reflexivity.
Qed.

Lemma running_events_no_Unmarshal (n : nat) :
  existsb is_Unmarshal (running_events n) = false.
Proof. induction n as [| n IH]; [reflexivity | exact IH]. Qed.

(** C8: whatever the polled statuses, each "RUNNING" answer is logged,
    followed by a 5 second sleep and the next poll; the first other answer
    ends the loop: "SUCCEEDED" makes the output be parsed, every other
    status is a fatal exit and the output is never parsed.  Later answers
    are not asked for. *)
Theorem importRemote_wait_outcomes (pre : list main.DescribeExecutionOutput)
  (deo : main.DescribeExecutionOutput)
  (rest : list (main.DescribeExecutionOutput + string)) :
  Forall (fun d => main.Status d = main.ExecutionStatusRunning) pre ->
  main.Status deo <> main.ExecutionStatusRunning ->
  main.importRemote_wait json_Unmarshal (map inl pre) = running_events (length pre)
  /\ main.importRemote_wait json_Unmarshal (map inl pre ++ inl deo :: rest) =
       running_events (length pre) ++
       (if decide (main.Status deo = main.ExecutionStatusSucceeded)
        then main.Info "execution succeeded" ::
               main.importRemote_output json_Unmarshal (main.Output deo)
        else [main.Fatal "unexpected execution status"])
  /\ existsb is_Unmarshal
       (main.importRemote_wait json_Unmarshal (map inl pre ++ inl deo :: rest)) =
       bool_decide (main.Status deo = main.ExecutionStatusSucceeded).
Proof.
  intros Hpre Hdeo.
  split.
  { rewrite <- (app_nil_r (map inl pre)), (importRemote_wait_prefix _ _ Hpre).
    apply app_nil_r. }
  rewrite (importRemote_wait_prefix _ _ Hpre), (importRemote_wait_terminal _ _ Hdeo).
  split; [reflexivity |].
  rewrite existsb_app, running_events_no_Unmarshal.
  destruct (decide (main.Status deo = main.ExecutionStatusSucceeded)) as [Hs | Hs].
  - rewrite bool_decide_eq_true_2 by exact Hs. reflexivity.
  - rewrite bool_decide_eq_false_2 by exact Hs. reflexivity.
Qed.

End RemoteProperties.

Lemma importRemote_wait_outcomes_witness :
  main.importRemote_wait no_json
    (map inl [main.mkDescribeExecutionOutput "RUNNING" EmptyString;
              main.mkDescribeExecutionOutput "RUNNING" EmptyString]
     ++ inl (main.mkDescribeExecutionOutput "FAILED" EmptyString) :: []) =
  [main.Info "execution running"; main.Sleep 5;
   main.Info "execution running"; main.Sleep 5;
   main.Fatal "unexpected execution status"].
Proof.
  refine (proj1 (proj2 (importRemote_wait_outcomes no_json
            [main.mkDescribeExecutionOutput "RUNNING" EmptyString;
             main.mkDescribeExecutionOutput "RUNNING" EmptyString]
            (main.mkDescribeExecutionOutput "FAILED" EmptyString) [] _ _))).
  - repeat constructor.
  - discriminate.
Defined.

(** ** The worker pool: steps are transitions *)

Lemma workers_split (ws : list main.worker) (i : nat) (w : main.worker) :
  ws !! i = Some w ->
  exists l1 l2, ws = l1 ++ w :: l2 /\ length l1 = i /\
                forall w', <[i := w']> ws = l1 ++ w' :: l2.
Proof.
  intros H. exists (take i ws), (drop (S i) ws).
  pose proof (lookup_lt_Some _ _ _ H) as Hlt.
  split; [symmetry; apply take_drop_middle; exact H |].
  split; [rewrite length_take; lia |].
  intros w'. apply insert_take_drop. exact Hlt.
Qed.

Lemma main_step_transition (s s' : main.state) :
  main.main_step s = Some s' -> transition s s'.
Proof.
  unfold main.main_step. intros H.
  destruct (main.main_pc s) as [rd | b eof rd | | | | |] eqn:Hpc; try discriminate.
  - destruct (ReadBatch rd) as [[rd' [[b n] err]] | e] eqn:Hrb.
    + destruct err as [e |].
      * destruct (decide (e = io_EOF)) as [-> | Hne]; injection H as <-.
        -- eapply t_read_send; eauto.
        -- eapply t_read_fatal; eauto.
      * injection H as <-. eapply t_read_send; eauto.
    + injection H as <-. eapply t_read_panic; eauto.
  - destruct (length (main.batches s) <? main.queue_capacity)%nat eqn:Hcap; [| discriminate].
    injection H as <-. apply t_send; [exact Hpc |]. apply Nat.ltb_lt. exact Hcap.
  - injection H as <-. apply t_close. exact Hpc.
  - destruct (main.all_done (main.workers s)) eqn:Hd; [| discriminate].
    injection H as <-. apply t_wait; assumption.
Qed.

Lemma worker_step_transition (i : nat) (ok : bool) (s s' : main.state) :
  main.running s = true ->
  main.worker_step i ok s = Some s' -> transition s s'.
Proof.
  unfold main.worker_step. intros Hrun H.
  destruct (main.workers s !! i) as [w |] eqn:Hw; [| discriminate].
  destruct (workers_split _ _ _ Hw) as (l1 & l2 & Hws & Hl1 & Hins).
  subst i.
  destruct w as [| b | b | rc |]; try discriminate.
  - destruct (main.batches s) as [| b rest] eqn:Hb.
    + destruct (main.closed s) eqn:Hc; [| discriminate].
      injection H as <-. unfold main.set_worker. rewrite Hins.
      apply t_return; assumption.
    + injection H as <-. rewrite Hins. apply t_receive; assumption.
  - destruct ok; injection H as <-; unfold main.set_worker, main.add_log;
      cbn [main.workers main.main_pc main.batches main.closed main.recordCount
           main.batchCount main.sent main.written main.log]; rewrite Hins.
    + apply t_write_ok; assumption.
    + apply t_write_error; assumption.
  - injection H as <-. rewrite Hins. apply t_add_records; assumption.
  - destruct (Z.rem (main.wrap64 (main.batchCount s + 1)) 100 =? 0) eqn:Hrem;
      injection H as <-; unfold main.add_log;
      cbn [main.workers main.main_pc main.batches main.closed main.recordCount
           main.batchCount main.sent main.written main.log]; rewrite Hins.
    + pose proof (t_add_batch s l1 l2 rc Hrun Hws) as T. rewrite Hrem in T. exact T.
    + pose proof (t_add_batch s l1 l2 rc Hrun Hws) as T. rewrite Hrem, app_nil_r in T.
      exact T.
Qed.

Lemma step_transition (a : main.action) (s s' : main.state) :
  main.step a s = Some s' -> transition s s'.
Proof.
  unfold main.step. destruct (main.running s) eqn:Hrun; [| discriminate].
  destruct a as [| i ok].
  - apply main_step_transition.
  - apply worker_step_transition. exact Hrun.
Qed.

Lemma run_reaches (sched : list main.action) :
  forall s s', main.run sched s = Some s' -> reaches s s'.
Proof.
  induction sched as [| a sched IH]; intros s s' H; simpl in H.
  - injection H as <-. constructor.
  - destruct (main.step a s) as [s1 |] eqn:Hs; [| discriminate].
    apply step_transition in Hs. specialize (IH _ _ H).
    clear H. induction IH as [| ? ? ? _ IH' T].
    + eapply reaches_step; [constructor | exact Hs].
    + eapply reaches_step; [apply IH'; exact Hs | exact T].
Qed.

(** ** The worker pool: the counters *)

Lemma wrap64_small (z : Z) : - 2 ^ 63 <= z < 2 ^ 63 -> main.wrap64 z = z.
Proof. intros H. unfold main.wrap64. rewrite Z.mod_small; lia. Qed.

Lemma wrap64_add_l (a b : Z) : main.wrap64 (main.wrap64 a + b) = main.wrap64 (a + b).
Proof.
  unfold main.wrap64. f_equal.
  replace ((a + 2 ^ 63) mod 2 ^ 64 - 2 ^ 63 + b + 2 ^ 63)
    with ((a + 2 ^ 63) mod 2 ^ 64 + b) by lia.
  rewrite Zplus_mod_idemp_l. f_equal. lia.
Qed.

Lemma sumZ_app (l1 l2 : list Z) : sumZ (l1 ++ l2) = sumZ l1 + sumZ l2.
Proof. induction l1 as [| x l1 IH]; simpl; [reflexivity | rewrite IH; lia]. Qed.

Lemma sumZ_single (x : Z) : sumZ [x] = x.
Proof. simpl. lia. Qed.

Lemma sumZ_map_middle {A} (f : A -> Z) (l1 l2 : list A) (x : A) :
  sumZ (map f (l1 ++ x :: l2)) = sumZ (map f l1) + f x + sumZ (map f l2).
Proof. rewrite map_app, sumZ_app. simpl. lia. Qed.

Lemma ok_batches_snoc_true (written : list (main.batch * bool)) (b : main.batch) :
  ok_batches (written ++ [(b, true)]) = ok_batches written ++ [b].
Proof. unfold ok_batches. rewrite filter_app, map_app. reflexivity. Qed.

Lemma ok_batches_snoc_false (written : list (main.batch * bool)) (b : main.batch) :
  ok_batches (written ++ [(b, false)]) = ok_batches written.
Proof. unfold ok_batches. rewrite filter_app, map_app. simpl. apply app_nil_r. Qed.

Lemma progress_count_snoc (l : list main.log_entry) (e : main.log_entry) :
  progress_count (l ++ [e]) = (progress_count l + if is_progress e then 1 else 0)%nat.
Proof.
  unfold progress_count. rewrite filter_app, length_app.
  destruct e; simpl; reflexivity.
Qed.

Lemma hundreds_succ (k : Z) :
  0 <= k ->
  hundreds (k + 1) =
    (hundreds k + if (Z.rem (main.wrap64 (1 + (k + 1))) 100 =? 0)%Z then 1 else 0)%nat.
Proof.
  intros Hk. unfold hundreds.
  rewrite seqZ_app by lia. rewrite filter_app, length_app. f_equal.
  rewrite seqZ_cons by lia. rewrite seqZ_nil by lia.
  rewrite filter_cons, filter_nil.
  destruct (Z.eqb_spec (Z.rem (main.wrap64 (1 + (k + 1))) 100) 0) as [He | He].
  - rewrite decide_True by (rewrite <- He; f_equal; f_equal; lia). reflexivity.
  - rewrite decide_False; [reflexivity |].
    intros H. apply He. rewrite <- H. f_equal. f_equal. lia.
Qed.

Lemma uncounted_batches_nonneg (ws : list main.worker) :
  0 <= sumZ (map uncounted_batches ws).
Proof.
  induction ws as [| w ws IH]; simpl; [lia |].
  destruct w; simpl; lia.
Qed.

Ltac state_simpl :=
  unfold main.set_main, main.add_log in *;
  cbn [main.main_pc main.batches main.closed main.workers main.recordCount
       main.batchCount main.sent main.written main.log] in *.

Lemma counters_inv_transition (s s' : main.state) :
  transition s s' -> counters_inv s -> counters_inv s'.
Proof.
  unfold counters_inv.
  intros T (Hrc & Hbc & Hle & Hpr).
  destruct T; state_simpl;
    try (rewrite ?progress_count_snoc; cbn [is_progress];
         rewrite ?Nat.add_0_r; auto; fail);
    match goal with
    | Hws : main.workers _ = _ |- _ => rewrite Hws in *
    end;
    rewrite ?sumZ_map_middle in *; cbn [uncounted_records uncounted_batches] in *;
    rewrite ?ok_batches_snoc_true, ?ok_batches_snoc_false, ?map_app, ?sumZ_app,
      ?length_app; cbn [map length]; rewrite ?sumZ_single;
    rewrite ?progress_count_snoc; cbn [is_progress]; rewrite ?Nat.add_0_r.
  - (* receive *)
    split_and!; [rewrite Hrc | rewrite Hbc | | rewrite Hpr]; try (f_equal; lia); lia.
  - (* return *)
    split_and!; [rewrite Hrc | rewrite Hbc | | rewrite Hpr]; try (f_equal; lia); lia.
  - (* write, accepted *)
    split_and!; [rewrite Hrc | rewrite Hbc | | rewrite Hpr]; try (f_equal; lia); lia.
  - (* write, error *)
    split_and!; [rewrite Hrc | rewrite Hbc | | rewrite Hpr]; try (f_equal; lia); lia.
  - (* recordCount *)
    split_and!; [| rewrite Hbc | | rewrite Hpr]; try (f_equal; lia); try lia.
    rewrite Hrc, wrap64_add_l. f_equal. lia.
  - (* batchCount *)
    pose proof (uncounted_batches_nonneg l1) as Hn1.
    pose proof (uncounted_batches_nonneg l2) as Hn2.
    split_and!; [rewrite Hrc; f_equal; lia | | lia |].
    + rewrite Hbc, wrap64_add_l. f_equal. lia.
    + set (k := Z.of_nat (length (ok_batches (main.written s)))) in *.
      set (u := sumZ (map uncounted_batches l1) + sumZ (map uncounted_batches l2)) in *.
      replace (k - (sumZ (map uncounted_batches l1) + 0 + sumZ (map uncounted_batches l2)))
        with ((k - (u + 1)) + 1) by lia.
      rewrite hundreds_succ by lia.
      replace (k - (sumZ (map uncounted_batches l1) + 1 + sumZ (map uncounted_batches l2)))
        with (k - (u + 1)) in * by lia.
      rewrite <- Hpr.
      rewrite Hbc, wrap64_add_l.
      replace (1 + k - (sumZ (map uncounted_batches l1) + 1
                        + sumZ (map uncounted_batches l2)) + 1)
        with (1 + (k - (u + 1) + 1)) by lia.
      destruct (Z.rem (main.wrap64 (1 + (k - (u + 1) + 1))) 100 =? 0).
      * rewrite progress_count_snoc. reflexivity.
      * rewrite app_nil_r. lia.
Qed.

Lemma counters_inv_initial (reader : Converter) (n : nat) :
  counters_inv (initial reader n).
Proof.
  unfold counters_inv, initial. cbn [main.recordCount main.batchCount main.written
    main.workers main.log].
  assert (Hz : forall f : main.worker -> Z, f main.WReceive = 0 ->
                 sumZ (map f (replicate n main.WReceive)) = 0).
  { intros f Hf. induction n as [| n IH]; simpl; [reflexivity |]. rewrite Hf, IH. reflexivity. }
  rewrite !Hz by reflexivity. split_and!; reflexivity || (simpl; lia).
Qed.

Lemma counters_inv_reaches (s s' : main.state) :
  reaches s s' -> counters_inv s -> counters_inv s'.
Proof.
  induction 1 as [| s1 s2 s3 _ IH T]; [auto |].
  intros H. eapply counters_inv_transition; eauto.
Qed.

(** ** The worker pool: the queue *)

Lemma elem_of_middle_change (l1 l2 : list main.worker) (w w' x : main.worker) :
  x ∈ l1 ++ w' :: l2 -> x <> w' -> x ∈ l1 ++ w :: l2.
Proof.
  intros H Hne. apply elem_of_app in H as [H | H].
  - apply elem_of_app. left. exact H.
  - apply elem_of_cons in H as [H | H]; [contradiction |].
    apply elem_of_app. right. right. exact H.
Qed.

Lemma running_not_complete (s : main.state) :
  main.running s = true -> main.main_pc s <> main.PComplete.
Proof. unfold main.running. intros H Hpc. rewrite Hpc in H. discriminate. Qed.

Lemma pool_inv_transition (n : nat) (s s' : main.state) :
  transition s s' -> pool_inv n s -> pool_inv n s'.
Proof.
  unfold pool_inv.
  intros T (Hlen & Hperm & Hclosed & Hdone & Hcomplete).
  destruct T; state_simpl;
    try match goal with
      | Hws : main.workers _ = _ |- _ =>
          rewrite Hws in *; rewrite ?flat_map_app in *;
          cbn [flat_map inflight app] in *;
          rewrite ?length_app in *; cbn [length] in *
      end;
    try match goal with
      | Hrun : main.running _ = true |- _ =>
          pose proof (running_not_complete _ Hrun) as Hnc
      end.
  - (* ReadBatch panics *)
    split_and!; auto; try discriminate.
    intros Hc. destruct (Hclosed Hc); congruence.
  - (* ReadBatch returns a batch *)
    split_and!; auto; try discriminate.
    intros Hc. destruct (Hclosed Hc); congruence.
  - (* ReadBatch fails *)
    split_and!; auto; try discriminate.
    intros Hc. destruct (Hclosed Hc); congruence.
  - (* send *)
    split_and!; auto.
    + rewrite Hperm. solve_Permutation.
    + intros Hc. destruct (Hclosed Hc); congruence.
    + intros Hok Hd. destruct (Hdone Hok Hd) as [Hc _].
      destruct (Hclosed Hc); congruence.
    + destruct eof; discriminate.
  - (* close *)
    split_and!; auto; try discriminate.
    intros Hok Hd. destruct (Hdone Hok Hd) as [Hc _].
    destruct (Hclosed Hc); congruence.
  - (* wait *)
    split_and!; auto.
  - (* receive *)
    split_and!; auto.
    + rewrite Hperm, H1. solve_Permutation.
    + intros Hok Hd. apply (elem_of_middle_change _ _ main.WReceive) in Hd; [| discriminate].
      destruct (Hdone Hok Hd) as [_ Hb]. congruence.
  - (* return *)
    split_and!; auto.
  - (* write, accepted *)
    split_and!; auto.
    + rewrite Hperm, map_app. cbn [map fst]. solve_Permutation.
    + intros Hok Hd. apply Forall_app in Hok as [Hok _].
      apply (elem_of_middle_change _ _ (main.WWrite b)) in Hd; [| discriminate].
      auto.
  - (* write, error *)
    split_and!; auto.
    + rewrite Hperm, map_app. cbn [map fst]. solve_Permutation.
    + intros Hok _. apply Forall_app in Hok as [_ Hok].
      apply Forall_cons in Hok as [Hok _]. discriminate.
  - (* recordCount *)
    split_and!; auto.
    + intros Hok Hd.
      apply (elem_of_middle_change _ _ (main.WAddRecords b)) in Hd; [| discriminate].
      auto.
  - (* batchCount *)
    split_and!; auto.
    + intros Hok Hd.
      apply (elem_of_middle_change _ _ (main.WAddBatch rc)) in Hd; [| discriminate].
      auto.
Qed.

Lemma pool_inv_initial (reader : Converter) (n : nat) :
  pool_inv n (initial reader n).
Proof.
  unfold pool_inv, initial. state_simpl.
  assert (Hfm : flat_map inflight (replicate n main.WReceive) = []).
  { induction n as [| n IH]; simpl; auto. }
  split_and!.
  - apply length_replicate.
  - rewrite Hfm. reflexivity.
  - discriminate.
  - intros _ Hd. apply elem_of_replicate in Hd as [Hd _]. discriminate.
  - discriminate.
Qed.

Lemma pool_inv_reaches (n : nat) (s s' : main.state) :
  reaches s s' -> pool_inv n s -> pool_inv n s'.
Proof.
  induction 1 as [| s1 s2 s3 _ IH T]; [auto |].
  intros H. eapply pool_inv_transition; eauto.
Qed.

(** ** The ingestion loop on well-formed input *)

Lemma ReadBatch_header (hdr : list string) (c : Converter) :
  header_mode hdr c -> arity (length hdr) (csv.pending (r c)) ->
  exists c' items,
    ReadBatch c =
      Returned (c', (items, length items,
                     if (length (csv.pending (r c)) <? 25)%nat
                     then Some io_EOF else None)) /\
    length items = Nat.min 25 (length (csv.pending (r c))) /\
    Forall is_Some items /\
    header_mode hdr c' /\
    csv.pending (r c') = drop 25 (csv.pending (r c)).
Proof.
  intros Hm Har.
  destruct (ReadBatch_loop_header hdr batchSize c [] Hm Har)
    as (c' & items & Hb & Hl & Hs & Hm' & Hp' & _).
  exists c', items. auto.
Qed.

Lemma ingest_inv_transition (hdr : list string) (m : nat) (s s' : main.state) :
  transition s s' -> ingest_inv hdr (25 * m) s -> ingest_inv hdr (25 * m) s'.
Proof.
  unfold ingest_inv. intros T Hinv.
  destruct T; state_simpl;
    try match goal with
      | Hpc : main.main_pc _ = _ |- _ => rewrite Hpc in Hinv
      end;
    try exact Hinv.
  - (* ReadBatch panics *)
    destruct Hinv as (Hm & Har & _).
    destruct (ReadBatch_header _ _ Hm Har) as (c' & items & Hb & _). congruence.
  - (* ReadBatch returns a batch *)
    destruct Hinv as (Hm & Har & Hfull & Hn).
    destruct (ReadBatch_header _ _ Hm Har) as (c' & items & Hb & Hl & _ & Hm' & Hp').
    rewrite Hb in H0. injection H0 as <- <- <- <-.
    split; [exact Hfull |].
    destruct (Nat.ltb_spec (length (csv.pending (r rd))) 25) as [Hlt | Hge].
    + destruct H1 as [[He _] | [_ ->]]; [discriminate |].
      assert (Hz : length (csv.pending (r rd)) = 0%nat) by lia.
      rewrite Hz in Hl. simpl in Hl. destruct items; [| discriminate].
      split; [reflexivity | lia].
    + destruct H1 as [[_ ->] | [He _]]; [| discriminate].
      split; [unfold full; lia |]. split; [exact Hm' |]. split.
      * rewrite Hp'. apply Forall_drop. exact Har.
      * rewrite Hp', length_drop. lia.
  - (* ReadBatch fails *)
    destruct Hinv as (Hm & Har & _).
    destruct (ReadBatch_header _ _ Hm Har) as (c' & items & Hb & _).
    rewrite Hb in H0. injection H0 as _ _ _ He.
    destruct (length (csv.pending (r rd)) <? 25)%nat; congruence.
  - (* send *)
    destruct Hinv as (Hfull & Hrest). destruct eof.
    + destruct Hrest as [-> Hn]. exists (main.sent s). auto.
    + destruct Hrest as (Hb & Hm & Har & Hn).
      split; [exact Hm |]. split; [exact Har |]. split.
      * apply Forall_app. split; [exact Hfull |]. apply Forall_cons. split; [exact Hb | constructor].
      * rewrite length_app. simpl. lia.
Qed.

Lemma ingest_inv_reaches (hdr : list string) (m : nat) (s s' : main.state) :
  reaches s s' -> ingest_inv hdr (25 * m) s -> ingest_inv hdr (25 * m) s'.
Proof.
  induction 1 as [| s1 s2 s3 _ IH T]; [auto |].
  intros H. eapply ingest_inv_transition; eauto.
Qed.

Lemma after_batches_header (hdr : list string) :
  forall m c,
    header_mode hdr c -> arity (length hdr) (csv.pending (r c)) ->
    length (csv.pending (r c)) = (25 * m)%nat ->
    exists cm c',
      after_batches m c = Returned cm /\
      ReadBatch cm = Returned (c', ([], 0%nat, Some io_EOF)).
Proof.
  induction m as [| m IH]; intros c Hm Har Hlen.
  - exists c. destruct (ReadBatch_header _ _ Hm Har) as (c' & items & Hb & Hl & _).
    rewrite Hlen in Hb, Hl. simpl in Hb, Hl. destruct items; [| discriminate].
    exists c'. split; [reflexivity | exact Hb].
  - destruct (ReadBatch_header _ _ Hm Har) as (c1 & items & Hb & _ & _ & Hm1 & Hp1).
    destruct (IH c1 Hm1) as (cm & c' & Ha & Hr).
    + rewrite Hp1. apply Forall_drop. exact Har.
    + rewrite Hp1, length_drop. lia.
    + exists cm, c'. split; [| exact Hr]. simpl. rewrite Hb. exact Ha.
Qed.

Lemma filter_empty_full (bs : list main.batch) :
  Forall full bs ->
  filter (fun b : main.batch => length b = 0%nat) (bs ++ [[]]) = [[]].
Proof.
  induction 1 as [| b bs Hb _ IH]; [reflexivity |].
  cbn [app]. rewrite filter_cons_False; [exact IH |].
  unfold full in Hb. lia.
Qed.

(** ** The worker pool: a complete run exists *)

Lemma run_app (sched1 sched2 : list main.action) :
  forall s,
    main.run (sched1 ++ sched2) s =
      match main.run sched1 s with
      | Some s' => main.run sched2 s'
      | None => None
      end.
Proof.
  induction sched1 as [| a sched1 IH]; intros s; simpl; [reflexivity |].
  destruct (main.step a s); [apply IH | reflexivity].
Qed.

#[local] Arguments ReadBatch : simpl never.
#[local] Arguments main.wrap64 : simpl never.
#[local] Arguments Z.rem : simpl never.
#[local] Arguments Z.add : simpl never.

Lemma round_runs (rd rd' : Converter) (b : main.batch) (n : nat) (eof : bool)
  (ws : list main.worker) (rc bc : Z) (snt : list main.batch)
  (wr : list (main.batch * bool)) (lg : list main.log_entry) :
  ReadBatch rd = Returned (rd', (b, n, if eof then Some io_EOF else None)) ->
  exists rc' bc' lg',
    main.run round
      (main.mkState (main.PReadBatch rd) [] false (main.WReceive :: ws)
         rc bc snt wr lg) =
    Some (main.mkState (if eof then main.PClose else main.PReadBatch rd') [] false
            (main.WReceive :: ws) rc' bc' (snt ++ [b]) (wr ++ [(b, true)]) lg').
Proof.
  intros Hb.
  cbv [round main.run main.step main.running main.main_step main.worker_step
       main.set_main main.set_worker main.add_log main.main_pc main.batches
       main.closed main.workers main.recordCount main.batchCount main.sent
       main.written main.log].
  rewrite Hb.
  destruct eof; cbn;
    repeat (match goal with
            | |- context [if ?c then _ else _] => destruct c
            end; cbn);
    try congruence; do 3 eexists; reflexivity.
Qed.

Lemma rounds_run (hdr : list string) :
  forall m rd (ws : list main.worker) rc bc snt wr lg,
    header_mode hdr rd -> arity (length hdr) (csv.pending (r rd)) ->
    length (csv.pending (r rd)) = (25 * m)%nat ->
    Forall accepted wr ->
    exists rc' bc' snt' wr' lg',
      main.run (concat (replicate (S m) round))
        (main.mkState (main.PReadBatch rd) [] false (main.WReceive :: ws)
           rc bc snt wr lg) =
      Some (main.mkState main.PClose [] false (main.WReceive :: ws)
              rc' bc' snt' wr' lg') /\
      Forall accepted wr'.
Proof.
  induction m as [| m IH]; intros rd ws rc bc snt wr lg Hm Har Hlen Hok;
    destruct (ReadBatch_header _ _ Hm Har) as (rd' & b & Hb & _ & _ & Hm' & Hp');
    rewrite Hlen in Hb.
  - destruct (round_runs rd rd' b (length b) true ws rc bc snt wr lg Hb)
      as (rc' & bc' & lg' & Hrun).
    exists rc', bc', (snt ++ [b]), (wr ++ [(b, true)]), lg'.
    split.
    + cbn [replicate concat]. rewrite app_nil_r. exact Hrun.
    + apply Forall_app. split; [exact Hok | repeat constructor].
  - replace (25 * S m <? 25)%nat with false in Hb
      by (symmetry; apply Nat.ltb_ge; lia).
    destruct (round_runs rd rd' b (length b) false ws rc bc snt wr lg Hb)
      as (rc1 & bc1 & lg1 & Hrun).
    destruct (IH rd' ws rc1 bc1 (snt ++ [b]) (wr ++ [(b, true)]) lg1 Hm')
      as (rc' & bc' & snt' & wr' & lg' & Hrest & Hok').
    + rewrite Hp'. apply Forall_drop. exact Har.
    + rewrite Hp', length_drop. lia.
    + apply Forall_app. split; [exact Hok | repeat constructor].
    + exists rc', bc', snt', wr', lg'. split; [| exact Hok'].
      change (concat (replicate (S (S m)) round))
        with (round ++ concat (replicate (S m) round)).
      rewrite run_app, Hrun. exact Hrest.
Qed.

Lemma replicate_snoc (j : nat) :
  replicate (S j) main.WDone = replicate j main.WDone ++ [main.WDone].
Proof. induction j as [| j IH]; [reflexivity |]. simpl in *. rewrite <- IH. reflexivity. Qed.

Lemma workers_return (q : main.producer) rc bc snt wr lg :
  main.running (main.mkState q [] true [] rc bc snt wr lg) = true ->
  forall k j,
    main.run (map (fun i => main.Worker i true) (seq j k))
      (main.mkState q [] true
         (replicate j main.WDone ++ replicate k main.WReceive) rc bc snt wr lg) =
    Some (main.mkState q [] true (replicate (j + k) main.WDone) rc bc snt wr lg).
Proof.
  intros Hq. induction k as [| k IH]; intros j.
  - simpl. rewrite app_nil_r, Nat.add_0_r. reflexivity.
  - cbn [seq map main.run].
    assert (Hstep :
      main.step (main.Worker j true)
        (main.mkState q [] true
           (replicate j main.WDone ++ replicate (S k) main.WReceive)
           rc bc snt wr lg) =
      Some (main.mkState q [] true
              (replicate (S j) main.WDone ++ replicate k main.WReceive)
              rc bc snt wr lg)).
    { unfold main.step. unfold main.running in *. cbn [main.main_pc] in *.
      rewrite Hq. unfold main.worker_step. cbn [main.workers main.batches main.closed].
      rewrite lookup_app_r by (rewrite length_replicate; lia).
      rewrite length_replicate, Nat.sub_diag. cbn [replicate lookup list_lookup].
      unfold main.set_worker. cbn [main.main_pc main.workers main.batches main.closed
        main.recordCount main.batchCount main.sent main.written main.log].
      f_equal. f_equal.
      rewrite insert_app_r_alt by (rewrite length_replicate; lia).
      rewrite length_replicate, Nat.sub_diag. cbn [insert list_insert].
      change (main.WDone :: replicate j main.WDone) with (replicate (S j) main.WDone).
      rewrite (replicate_snoc j). rewrite <- app_assoc. reflexivity. }
    rewrite Hstep, IH. replace (j + S k)%nat with (S j + k)%nat by lia. reflexivity.
Qed.

Lemma all_done_replicate (n : nat) : main.all_done (replicate n main.WDone) = true.
Proof. induction n as [| n IH]; [reflexivity | exact IH]. Qed.

Lemma closing_runs (n : nat) rc bc snt wr lg :
  main.run ([main.Main] ++ map (fun i => main.Worker i true) (seq 0 n) ++ [main.Main])
    (main.mkState main.PClose [] false (replicate n main.WReceive) rc bc snt wr lg) =
  Some (main.mkState main.PComplete [] true (replicate n main.WDone) rc bc snt wr
          (lg ++ [main.LogComplete rc])).
Proof.
  pose proof (workers_return main.PWait rc bc snt wr lg eq_refl n 0) as Hw.
  cbn [replicate app Nat.add] in Hw.
  cbn [app main.run].
  replace (main.step main.Main
             (main.mkState main.PClose [] false (replicate n main.WReceive)
                rc bc snt wr lg))
    with (Some (main.mkState main.PWait [] true (replicate n main.WReceive)
                  rc bc snt wr lg)) by reflexivity.
  rewrite run_app, Hw. cbn [main.run].
  unfold main.step, main.running, main.main_step, main.set_main, main.add_log.
  cbn [main.main_pc main.workers main.batches main.closed main.recordCount
       main.batchCount main.sent main.written main.log].
  rewrite all_done_replicate. reflexivity.
Qed.

(** With at least one worker and a sink that accepts every batch, the run
    completes. *)
Lemma sequential_run_completes (hdr : list string) (m n : nat) (rd : Converter) :
  header_mode hdr rd -> arity (length hdr) (csv.pending (r rd)) ->
  length (csv.pending (r rd)) = (25 * m)%nat ->
  exists s,
    main.run (sequential_schedule m (S n)) (initial rd (S n)) = Some s /\
    main.main_pc s = main.PComplete /\
    Forall accepted (main.written s).
Proof.
  intros Hm Har Hlen. unfold sequential_schedule, initial.
  destruct (rounds_run hdr m rd (replicate n main.WReceive) 0 1 [] [] [] Hm Har Hlen)
    as (rc' & bc' & snt' & wr' & lg' & Hrun & Hok); [constructor |].
  rewrite run_app. cbn [replicate] in *. rewrite Hrun.
  change (main.WReceive :: replicate n main.WReceive)
    with (replicate (S n) main.WReceive).
  rewrite closing_runs. eexists. split; [reflexivity |]. split; [reflexivity | exact Hok].
Qed.

(** ** [importLocal]: the start *)

Lemma importLocal_start_initial (records : list (list string))
  (numericFields booleanFields : list string) (concurrency : Z) (s0 : main.state) :
  main.importLocal_start records numericFields booleanFields concurrency
    = main.Started s0 ->
  exists reader, s0 = initial reader (Z.to_nat concurrency).
Proof.
  unfold main.importLocal_start.
  destruct (NewConverter _ _) as [reader [e |]]; [discriminate |].
  destruct (concurrency <? 0); [discriminate |].
  intros H. injection H as <-. exists reader. reflexivity.
Qed.

Lemma importLocal_start_header (header : list string) (rows : list (list string))
  (numericFields booleanFields : list string) (concurrency : Z) :
  header <> [] -> 0 <= concurrency ->
  exists reader,
    main.importLocal_start (header :: rows) numericFields booleanFields concurrency
      = main.Started (initial reader (Z.to_nat concurrency)) /\
    header_mode header reader /\ csv.pending (r reader) = rows.
Proof.
  intros Hh Hc. unfold main.importLocal_start.
  set (cf := AddBoolKeys (AddNumberKeys NewConfiguration numericFields) booleanFields).
  destruct (NewConverter_header_mode (Some cf) header rows eq_refl Hh)
    as (c0 & Hnew & Hm & Hp & _).
  rewrite Hnew.
  replace (concurrency <? 0) with false by (symmetry; apply Z.ltb_ge; exact Hc).
  exists c0. auto.
Qed.

(** ** The progress counters *)

Lemma quiescent_sums (s : main.state) :
  quiescent s ->
  sumZ (map uncounted_batches (main.workers s)) = 0 /\
  sumZ (map uncounted_records (main.workers s)) = 0.
Proof.
  unfold quiescent. induction 1 as [| w ws Hw _ [IHb IHr]]; [split; reflexivity |].
  simpl. rewrite IHb, IHr. destruct w; simpl in *; split; lia.
Qed.

Lemma batch_len_sum_nonneg (l : list main.batch) : 0 <= sumZ (map batch_len l).
Proof. induction l as [| b l IH]; simpl; unfold batch_len in *; lia. Qed.

Lemma one_row_run :
  main.importLocal_start [["a"]; ["1"]] [] [] 1 = main.Started one_row_start /\
  main.run (sequential_schedule 0 1) one_row_start = Some one_row_final /\
  quiescent one_row_final /\
  main.batchCount one_row_final = 2 /\
  length (ok_batches (main.written one_row_final)) = 1%nat.
Proof.
  split; [reflexivity |].
  split; [vm_compute; reflexivity |].
  split; [vm_compute; repeat constructor |].
  split; vm_compute; reflexivity.
Qed.

(** C7, as stated: the batch counter does not count from zero.  After one
    accepted batch it holds 2. *)
Lemma batchCount_starts_at_one : ~ counters_count_from_zero.
Proof.
  intros H.
  destruct one_row_run as (Hstart & Hrun & Hq & Hbc & Hk).
  destruct (H _ _ _ _ _ _ _ Hstart Hrun Hq) as (Hb & _).
  rewrite Hbc, Hk in Hb. discriminate.
Qed.

(** C7, amended: the counters are fresh at each start, the record counter
    at 0 and the batch counter at 1; each accepted batch adds its length to
    the first and 1 to the second, so that at any moment when no worker
    stands between a write and its updates, after [k] accepted batches of
    [r] records in all, the batch counter holds [k + 1] and the record
    counter [r] (as 64-bit values); progress was logged once for each of the
    [k] increments that took the batch counter to a multiple of 100. *)
Theorem counters_after_writes (records : list (list string))
  (numericFields booleanFields : list string) (concurrency : Z)
  (s0 : main.state) (sched : list main.action) (s : main.state) :
  main.importLocal_start records numericFields booleanFields concurrency
    = main.Started s0 ->
  main.run sched s0 = Some s ->
  quiescent s ->
  main.batchCount s0 = 1 /\ main.recordCount s0 = 0
  /\ main.batchCount s
     = main.wrap64 (1 + Z.of_nat (length (ok_batches (main.written s))))
  /\ main.recordCount s
     = main.wrap64 (sumZ (map batch_len (ok_batches (main.written s))))
  /\ progress_count (main.log s)
     = hundreds (Z.of_nat (length (ok_batches (main.written s))))
  /\ (1 + Z.of_nat (length (ok_batches (main.written s))) < 2 ^ 63 ->
      main.batchCount s = 1 + Z.of_nat (length (ok_batches (main.written s))))
  /\ (sumZ (map batch_len (ok_batches (main.written s))) < 2 ^ 63 ->
      main.recordCount s = sumZ (map batch_len (ok_batches (main.written s)))).
Proof.
  intros Hstart Hrun Hq.
  destruct (importLocal_start_initial _ _ _ _ _ Hstart) as [reader ->].
  pose proof (counters_inv_reaches _ _ (run_reaches _ _ _ Hrun)
                (counters_inv_initial reader _)) as (Hrc & Hbc & _ & Hpr).
  destruct (quiescent_sums _ Hq) as [Hub Hur].
  rewrite Hub, Hur, !Z.sub_0_r in *.
  pose proof (batch_len_sum_nonneg (ok_batches (main.written s))) as Hnn.
  split; [reflexivity |]. split; [reflexivity |].
  split; [exact Hbc |]. split; [exact Hrc |]. split; [exact Hpr |].
  split; intros Hlt.
  - rewrite Hbc. apply wrap64_small. lia.
  - rewrite Hrc. apply wrap64_small. lia.
Qed.

Lemma counters_after_writes_witness :
  main.batchCount one_row_start = 1 /\ main.recordCount one_row_start = 0
  /\ main.batchCount one_row_final
     = main.wrap64 (1 + Z.of_nat (length (ok_batches (main.written one_row_final))))
  /\ main.recordCount one_row_final
     = main.wrap64 (sumZ (map batch_len (ok_batches (main.written one_row_final))))
  /\ progress_count (main.log one_row_final)
     = hundreds (Z.of_nat (length (ok_batches (main.written one_row_final))))
  /\ (1 + Z.of_nat (length (ok_batches (main.written one_row_final))) < 2 ^ 63 ->
      main.batchCount one_row_final
      = 1 + Z.of_nat (length (ok_batches (main.written one_row_final))))
  /\ (sumZ (map batch_len (ok_batches (main.written one_row_final))) < 2 ^ 63 ->
      main.recordCount one_row_final
      = sumZ (map batch_len (ok_batches (main.written one_row_final)))).
Proof.
  apply (counters_after_writes [["a"]; ["1"]] [] [] 1 one_row_start
           (sequential_schedule 0 1) one_row_final).
  - reflexivity.
  - vm_compute. reflexivity.
  - vm_compute. repeat constructor.
Defined.

(** ** The final, empty batch *)

(** C10: on a header and [25 * m] rows of its arity ([m] may be 0), with at
    least one worker: after [m] full batches the next [ReadBatch] returns no
    item together with [io.EOF]; once the queue is closed, the batches sent
    are [m] full ones followed by one empty one; a run in which the sink
    accepts every batch exists, and every such run that completes has
    passed to the sink exactly the batches sent, the empty one once. *)
Theorem importLocal_final_empty_batch (header : list string)
  (rows : list (list string)) (numericFields booleanFields : list string)
  (concurrency : Z) (m : nat) :
  header <> [] -> arity (length header) rows -> length rows = (25 * m)%nat ->
  1 <= concurrency ->
  exists reader,
    main.importLocal_start (header :: rows) numericFields booleanFields concurrency
      = main.Started (initial reader (Z.to_nat concurrency))
    /\ (exists cm c',
          after_batches m reader = Returned cm /\
          ReadBatch cm = Returned (c', ([], 0%nat, Some io_EOF)))
    /\ (exists sched s,
          main.run sched (initial reader (Z.to_nat concurrency)) = Some s /\
          main.main_pc s = main.PComplete /\
          Forall accepted (main.written s))
    /\ (forall sched s,
          main.run sched (initial reader (Z.to_nat concurrency)) = Some s ->
          main.closed s = true ->
          exists bs, main.sent s = bs ++ [[]] /\ length bs = m /\ Forall full bs)
    /\ (forall sched s,
          main.run sched (initial reader (Z.to_nat concurrency)) = Some s ->
          main.main_pc s = main.PComplete ->
          Forall accepted (main.written s) ->
          map fst (main.written s) ≡ₚ main.sent s /\
          length (filter (fun b : main.batch => length b = 0%nat)
                    (map fst (main.written s))) = 1%nat).
Proof.
  intros Hh Har Hlen Hc.
  destruct (importLocal_start_header header rows numericFields booleanFields
              concurrency Hh ltac:(lia)) as (reader & Hstart & Hm & Hp).
  exists reader. split; [exact Hstart |].
  rewrite <- Hp in Har, Hlen.
  assert (Hinit : ingest_inv header (25 * m) (initial reader (Z.to_nat concurrency))).
  { unfold ingest_inv, initial. cbn [main.main_pc main.sent].
    split_and!; auto; simpl; lia. }
  assert (Hsent : forall sched s,
            main.run sched (initial reader (Z.to_nat concurrency)) = Some s ->
            main.closed s = true ->
            exists bs, main.sent s = bs ++ [[]] /\ length bs = m /\ Forall full bs).
  { intros sched s Hrun Hcl.
    pose proof (run_reaches _ _ _ Hrun) as Hreach.
    pose proof (pool_inv_reaches _ _ _ Hreach (pool_inv_initial reader _))
      as (_ & _ & Hclosed & _).
    pose proof (ingest_inv_reaches _ _ _ _ Hreach Hinit) as Hing.
    unfold ingest_inv in Hing.
    destruct (Hclosed Hcl) as [Hpc | Hpc]; rewrite Hpc in Hing;
      destruct Hing as (bs & Hs & Hf & Hn); exists bs; split_and!; auto; lia. }
  split; [apply (after_batches_header header m reader Hm Har Hlen) |].
  split.
  { destruct (Z.to_nat concurrency) as [| n] eqn:Hn; [lia |].
    destruct (sequential_run_completes header m n reader Hm Har Hlen) as (s & Hrun & Hfin).
    exists (sequential_schedule m (S n)), s. auto. }
  split; [exact Hsent |].
  intros sched s Hrun Hpc Hok.
  pose proof (run_reaches _ _ _ Hrun) as Hreach.
  pose proof (pool_inv_reaches _ _ _ Hreach (pool_inv_initial reader _))
    as (Hwl & Hperm & _ & Hdone & Hcomplete).
  specialize (Hcomplete Hpc).
  assert (Hall : Forall (fun w => w = main.WDone) (main.workers s)).
  { apply Forall_forall. intros w Hw.
    unfold main.all_done in Hcomplete. rewrite forallb_forall in Hcomplete.
    apply list_elem_of_In in Hw. specialize (Hcomplete w Hw).
    destruct w; try discriminate. reflexivity. }
  assert (Hin : main.WDone ∈ main.workers s).
  { destruct (main.workers s) as [| w ws]; [simpl in Hwl; lia |].
    apply Forall_cons in Hall as [-> _]. left. }
  destruct (Hdone Hok Hin) as [Hcl Hq].
  assert (Hfl : flat_map inflight (main.workers s) = []).
  { clear -Hall. induction Hall as [| w ws -> _ IH]; [reflexivity | exact IH]. }
  rewrite Hfl, Hq, !app_nil_r in Hperm.
  split; [symmetry; exact Hperm |].
  destruct (Hsent sched s Hrun Hcl) as (bs & Hs & _ & Hf).
  assert (Hfp : filter (fun b : main.batch => length b = 0%nat) (map fst (main.written s))
                ≡ₚ filter (fun b : main.batch => length b = 0%nat) (main.sent s))
    by (apply filter_Permutation; symmetry; exact Hperm).
  rewrite (Permutation_length Hfp), Hs.
  exact (f_equal (@length main.batch) (filter_empty_full bs Hf)).
Qed.

Lemma importLocal_final_empty_batch_witness :
  exists reader,
    main.importLocal_start (["a"] :: replicate 25 ["1"]) [] [] 1
      = main.Started (initial reader (Z.to_nat 1))
    /\ (exists cm c',
          after_batches 1 reader = Returned cm /\
          ReadBatch cm = Returned (c', ([], 0%nat, Some io_EOF)))
    /\ (exists sched s,
          main.run sched (initial reader (Z.to_nat 1)) = Some s /\
          main.main_pc s = main.PComplete /\
          Forall accepted (main.written s))
    /\ (forall sched s,
          main.run sched (initial reader (Z.to_nat 1)) = Some s ->
          main.closed s = true ->
          exists bs, main.sent s = bs ++ [[]] /\ length bs = 1%nat /\ Forall full bs)
    /\ (forall sched s,
          main.run sched (initial reader (Z.to_nat 1)) = Some s ->
          main.main_pc s = main.PComplete ->
          Forall accepted (main.written s) ->
          map fst (main.written s) ≡ₚ main.sent s /\
          length (filter (fun b : main.batch => length b = 0%nat)
                    (map fst (main.written s))) = 1%nat).
Proof.
  apply (importLocal_final_empty_batch ["a"] (replicate 25 ["1"]) [] [] 1 1).
  - discriminate.
  - apply Forall_replicate. reflexivity.
  - reflexivity.
  - lia.
Defined.

(** ** The cases of [TestConverter]

    The table of [convert_test.go], run on the model: the input is given as
    its records, and [ReadBatch] is called once on a new converter. *)

Example test_wrong_number_of_fields :
  test_ReadBatch [["a"; "b"; "c"]; ["1"; "2"; "3"; "4"]] None
  = Some ([], 0%nat, Some csv_ErrFieldCount).
Proof. vm_compute. reflexivity. Qed.

Example test_numbers_not_identified_by_default :
  test_ReadBatch [["a"; "b"; "c"]; ["1"; "2.12"; "-3"]] None
  = Some ([Some (<["a" := stringValue "1"]>
                   (<["b" := stringValue "2.12"]>
                      (<["c" := stringValue "-3"]> ∅)))],
          1%nat, Some io_EOF).
Proof. vm_compute. reflexivity. Qed.

Example test_numbers_can_be_configured :
  test_ReadBatch [["a"; "b"; "c"; "d"]; ["1"; "2.12"; "2.12"; "-3"]]
    (Some (AddNumberKeys NewConfiguration ["a"; "c"; "d"]))
  = Some ([Some (<["a" := numberValue "1"]>
                   (<["b" := stringValue "2.12"]>
                      (<["c" := numberValue "2.12"]>
                         (<["d" := numberValue "-3"]> ∅))))],
          1%nat, Some io_EOF).
Proof. vm_compute. reflexivity. Qed.

Example test_bools_can_be_identified :
  test_ReadBatch [["a"; "b"; "c"; "d"]; ["TRUE"; "FALSE"; "true"; "false"]]
    (Some (AddBoolKeys NewConfiguration ["a"; "b"; "c"; "d"]))
  = Some ([Some (<["a" := trueValue]>
                   (<["b" := falseValue]>
                      (<["c" := trueValue]>
                         (<["d" := falseValue]> ∅))))],
          1%nat, Some io_EOF).
Proof. vm_compute. reflexivity. Qed.

Example test_binary_can_be_identified :
  test_ReadBatch [["one"; "two"]; ["1"; "F9vBa7O+Ee6/7gJCrGMAFA=="]]
    (Some (AddBinKeys NewConfiguration ["two"]))
  = Some ([Some (<["one" := stringValue "1"]>
                   (<["two" := SetB AttributeValue_zero
                                 [23; 219; 193; 107; 179; 190; 17; 238;
                                  191; 238; 2; 66; 172; 99; 0; 20]]> ∅))],
          1%nat, Some io_EOF).
Proof. vm_compute. reflexivity. Qed.

Example test_various_types :
  test_ReadBatch [["a"; "b"; "c"]; ["1.1.1"; "false"; "123"]]
    (Some (AddNumberKeys (AddBoolKeys NewConfiguration ["b"]) ["c"]))
  = Some ([Some (<["a" := stringValue "1.1.1"]>
                   (<["b" := falseValue]>
                      (<["c" := numberValue "123"]> ∅)))],
          1%nat, Some io_EOF).
Proof. vm_compute. reflexivity. Qed.

Example test_empty_values_are_not_included :
  test_ReadBatch [["a"; "b"; "c"]; ["the"; EmptyString; "cork"]] None
  = Some ([Some (<["a" := stringValue "the"]> (<["c" := stringValue "cork"]> ∅))],
          1%nat, Some io_EOF).
Proof. vm_compute. reflexivity. Qed.

Example test_key_columns :
  test_ReadBatch [["a"; "b"; "c"]; ["the"; "red, wine"; "cork"]]
    (Some (AddKeyColumns NewConfiguration ["b"; "c"]))
  = Some ([Some (<["b" := stringValue "red, wine"]>
                   (<["c" := stringValue "cork"]> ∅))],
          1%nat, Some io_EOF).
Proof. vm_compute. reflexivity. Qed.

(** The rows of the specification's boolean example. *)
Example spec_bool_rows :
  test_ReadBatch [["a"; "b"]; ["TRUE"; "FALSE"]; ["yes"; "FALSE"]]
    (Some (AddBoolKeys NewConfiguration ["a"; "b"]))
  = Some ([Some (<["a" := trueValue]> (<["b" := falseValue]> ∅));
           Some (<["a" := falseValue]> (<["b" := falseValue]> ∅))],
          2%nat, Some io_EOF).
Proof. vm_compute. reflexivity. Qed.

(** * Further properties *)

(** ** The configuration builders *)

Lemma add_keys_lookup (f : string -> AttributeValue) (s : list string) (k : string) :
  forall cf : Configuration,
    KeyToConverter (add_keys f cf s) !! k =
      if decide (k ∈ s) then Some f else KeyToConverter cf !! k.
Proof.
  unfold add_keys. cbn [KeyToConverter]. intros cf.
  generalize (KeyToConverter cf). clear cf.
  induction s as [| x s IH]; intros m; cbn [foldl].
  - destruct (decide (k ∈ [])) as [H | H]; [inversion H | reflexivity].
  - rewrite IH.
    destruct (decide (k ∈ s)) as [Hin | Hin];
      destruct (decide (k ∈ x :: s)) as [Hin' | Hin']; try reflexivity.
    + exfalso. apply Hin'. right. assumption.
    + apply elem_of_cons in Hin' as [-> | Hin']; [| contradiction].
      apply lookup_insert_eq.
    + rewrite lookup_insert_ne; [reflexivity |].
      intros ->. apply Hin'. left.
Qed.

(** X1: the builders compose by overriding: after two calls the converter
    of a key is that of the later call that names it, else that of the
    earlier call that names it, else what the configuration held; a
    key that no call names and the configuration does not hold converts as
    a string. *)
Theorem add_keys_last_wins (f g : string -> AttributeValue) (cf : Configuration)
  (s1 s2 : list string) (c : Converter) (k v : string) :
  conf c = add_keys g (add_keys f cf s1) s2 ->
  dynamoValue c k v =
    if decide (k ∈ s2) then g v
    else if decide (k ∈ s1) then f v
    else match KeyToConverter cf !! k with
         | Some h => h v
         | None => stringValue v
         end.
Proof.
  intros Hc. unfold dynamoValue. rewrite Hc, !add_keys_lookup.
  destruct (decide (k ∈ s2)); [reflexivity |].
  destruct (decide (k ∈ s1)); reflexivity.
Qed.

Lemma add_keys_last_wins_witness :
  dynamoValue converter_num_bool "b" "1" = falseValue.
Proof.
  exact (add_keys_last_wins numberValue boolValue NewConfiguration
           ["a"; "b"] ["b"] converter_num_bool "b" "1" eq_refl).
Defined.

(** ** What [Read] stores *)

Lemma read_columns_set_r (c : Converter) (rd : csv.Reader) (record : list string) :
  forall columns i items,
    read_columns (set_r c rd) record i columns items =
    read_columns c record i columns items.
Proof.
  induction columns as [| col columns IH]; intros i items; [reflexivity |].
  cbn [read_columns set_r columnNamesToInclude].
  destruct ((0 <? map_len (columnNamesToInclude c))%nat
            && negb (map_index (columnNamesToInclude c) col)); [apply IH |].
  destruct (record !! i) as [v |]; [| reflexivity].
  destruct (negb (String.length v =? 0)%nat); apply IH.
Qed.

Lemma Read_preserves (c c' : Converter) res :
  Read c = Returned (c', res) -> c' = set_r c (r c').
Proof.
  unfold Read. destruct (csv.Read (r c)) as [r' [rec err]].
  destruct err.
  - intros H. injection H as <- _. reflexivity.
  - destruct (read_columns _ _ _ _ _); [| discriminate].
    intros H. injection H as <- _. reflexivity.
Qed.

Lemma NewConverter_config (rd : csv.Reader) (cf : option Configuration) :
  conf (fst (NewConverter rd cf)) = config_of cf /\
  columnNamesToInclude (fst (NewConverter rd cf)) = include_map (config_of cf).
Proof.
  unfold NewConverter, init, include_map. fold (config_of cf).
  cbn [conf r columnNames columnNamesToInclude].
  destruct (0 <? length (KeyColumns (config_of cf)))%nat;
    cbn [conf r columnNames columnNamesToInclude];
    destruct (0 <? length (Columns (config_of cf)))%nat; cbn; auto;
    destruct (csv.Read rd) as [r' [rec [e |]]]; cbn; auto.
Qed.

Lemma advance_preserves :
  forall n c c',
    advance n c = Returned c' ->
    conf c' = conf c /\ columnNames c' = columnNames c /\
    columnNamesToInclude c' = columnNamesToInclude c.
Proof.
  induction n as [| n IH]; intros c c' H; simpl in H.
  - injection H as <-. auto.
  - destruct (Read c) as [[c1 res] | e] eqn:Hr; [| discriminate].
    apply Read_preserves in Hr. destruct (IH _ _ H) as (H1 & H2 & H3).
    rewrite H1, H2, H3, Hr. auto.
Qed.

Lemma read_columns_present_included (c : Converter) (record : list string)
  (column : string) (v : AttributeValue) :
  forall columns i items items',
    read_columns c record i columns items = Returned items' ->
    items' !! column = Some v ->
    items !! column = Some v \/
    (column ∈ columns /\ included c column = true).
Proof.
  induction columns as [| col columns IH]; intros i items items' Hr Hv; simpl in Hr.
  - left. congruence.
  - assert (Hshift : forall items0 : gmap string AttributeValue,
              items0 !! column = Some v \/
              (column ∈ columns /\ included c column = true) ->
              items0 !! column = Some v \/
              (column ∈ col :: columns /\ included c column = true)).
    { intros items0 [H | [H1 H2]]; [left; exact H | right; split; [right |]; assumption]. }
    destruct ((0 <? map_len (columnNamesToInclude c))%nat
              && negb (map_index (columnNamesToInclude c) col)) eqn:Hskip.
    { apply Hshift. eapply IH; eauto. }
    destruct (record !! i) as [raw |] eqn:Hraw; [| discriminate].
    destruct (negb (String.length raw =? 0)%nat) eqn:Hlen.
    + destruct (IH _ _ _ Hr Hv) as [Hin | Hex]; [| apply (Hshift items); right; exact Hex].
      destruct (decide (col = column)) as [-> | Hne].
      * right. split; [left |]. unfold included. rewrite Hskip. reflexivity.
      * rewrite lookup_insert_ne in Hin by exact Hne. left. exact Hin.
    + apply Hshift. eapply IH; eauto.
Qed.

(** X2: [Read] never stores a key that is not a column name, nor, when an
    allow-list is configured, a column that the allow-list leaves out:
    on a converter made by [NewConverter], after any number of reads, every
    key of a returned item is a column name that passes the allow-list. *)
Theorem Read_keys_allowed (rd : csv.Reader) (cf : option Configuration) (n : nat)
  (c c' : Converter) (items : gmap string AttributeValue) (column : string)
  (v : AttributeValue) :
  advance n (fst (NewConverter rd cf)) = Returned c ->
  Read c = Returned (c', (Some items, None)) ->
  items !! column = Some v ->
  column ∈ columnNames c /\ allowed (config_of cf) column.
Proof.
  intros Hadv Hr Hv.
  destruct (advance_preserves _ _ _ Hadv) as (Hconf & _ & Hincl).
  destruct (NewConverter_config rd cf) as [Hc0 Hi0].
  rewrite Hc0 in Hconf. rewrite Hi0 in Hincl.
  unfold Read in Hr. destruct (csv.Read (r c)) as [r' [rec err]].
  destruct err; [discriminate |].
  rewrite read_columns_set_r in Hr. cbn [set_r columnNames] in Hr.
  destruct (read_columns c rec 0 (columnNames c) ∅) as [items0 |] eqn:Hrc; [| discriminate].
  injection Hr as _ <-.
  destruct (read_columns_present_included _ _ _ _ _ _ _ _ Hrc Hv) as [He | [Hin Hinc]].
  - rewrite lookup_empty in He. discriminate.
  - split; [exact Hin |].
    apply (included_allowed (r c) (config_of cf) (columnNames c)).
    destruct c as [rc cc nc ic]. cbn in *. subst. exact Hinc.
Qed.

Lemma converter_keep_bc_Read :
  Read converter_keep_bc =
    Returned (set_r converter_keep_bc (csv.mkReader [] 3),
              (Some (<["b" := stringValue "red, wine"]>
                       (<["c" := stringValue "cork"]> ∅)), None)).
Proof. vm_compute. reflexivity. Qed.

Lemma Read_keys_allowed_witness :
  "b" ∈ columnNames converter_keep_bc /\
  allowed (config_of (Some (AddKeyColumns NewConfiguration ["b"; "c"]))) "b".
Proof.
  apply (Read_keys_allowed
           (csv.NewReader [["a"; "b"; "c"]; ["the"; "red, wine"; "cork"]])
           (Some (AddKeyColumns NewConfiguration ["b"; "c"])) 0
           converter_keep_bc
           (set_r converter_keep_bc (csv.mkReader [] 3))
           (<["b" := stringValue "red, wine"]> (<["c" := stringValue "cork"]> ∅))
           "b" (stringValue "red, wine")).
  - reflexivity.
  - exact converter_keep_bc_Read.
  - reflexivity.
Defined.

Lemma read_columns_untouched (c : Converter) (record : list string) (column : string) :
  forall columns i items items',
    read_columns c record i columns items = Returned items' ->
    column ∉ columns ->
    items' !! column = items !! column.
Proof.
  induction columns as [| col columns IH]; intros i items items' Hr Hnin; simpl in Hr.
  - congruence.
  - apply not_elem_of_cons in Hnin as [Hne Hnin].
    destruct ((0 <? map_len (columnNamesToInclude c))%nat
              && negb (map_index (columnNamesToInclude c) col)).
    { eapply IH; eauto. }
    destruct (record !! i) as [raw |]; [| discriminate].
    destruct (negb (String.length raw =? 0)%nat).
    + rewrite (IH _ _ _ Hr Hnin). apply lookup_insert_ne. congruence.
    + eapply IH; eauto.
Qed.

Lemma read_columns_exact (c : Converter) (record : list string) (column : string) :
  forall columns i items items' k,
    NoDup columns ->
    read_columns c record i columns items = Returned items' ->
    columns !! k = Some column ->
    items' !! column =
      match record !! (i + k)%nat with
      | Some raw =>
          if included c column && bool_decide (raw <> EmptyString)
          then Some (dynamoValue c column raw)
          else items !! column
      | None => items !! column
      end.
Proof.
  induction columns as [| col columns IH]; intros i items items' k Hnd Hr Hk;
    [discriminate |].
  apply NoDup_cons in Hnd as [Hnin Hnd]. simpl in Hr.
  destruct k as [| k].
  - injection Hk as ->. rewrite Nat.add_0_r. unfold included.
    destruct ((0 <? map_len (columnNamesToInclude c))%nat
              && negb (map_index (columnNamesToInclude c) column)).
    { rewrite (read_columns_untouched _ _ _ _ _ _ _ Hr Hnin).
      destruct (record !! i); reflexivity. }
    destruct (record !! i) as [raw |]; [| discriminate]. cbn [negb andb].
    destruct (negb (String.length raw =? 0)%nat) eqn:Hlen.
    + rewrite (read_columns_untouched _ _ _ _ _ _ _ Hr Hnin), lookup_insert_eq.
      rewrite bool_decide_eq_true_2; [reflexivity |].
      intros ->. discriminate.
    + rewrite (read_columns_untouched _ _ _ _ _ _ _ Hr Hnin).
      rewrite bool_decide_eq_false_2; [reflexivity |].
      intros Hne. apply Hne. apply string_length_zero.
      destruct (String.length raw =? 0)%nat; [reflexivity | discriminate].
  - cbn [lookup list_lookup] in Hk.
    assert (Hne : col <> column).
    { intros ->. apply Hnin. apply list_elem_of_lookup. eauto. }
    replace (i + S k)%nat with (S i + k)%nat by lia.
    destruct ((0 <? map_len (columnNamesToInclude c))%nat
              && negb (map_index (columnNamesToInclude c) col)).
    { eapply IH; eauto. }
    destruct (record !! i) as [raw0 |]; [| discriminate].
    destruct (negb (String.length raw0 =? 0)%nat).
    + rewrite (IH _ _ _ _ Hnd Hr Hk), lookup_insert_ne by exact Hne. reflexivity.
    + eapply IH; eauto.
Qed.

(** X3: when the column names are distinct, the item that [Read] returns
    is determined field by field: the name of a column is a key exactly when
    the column passes the allow-list and its text is not empty, and its
    value is then the conversion of that text by the column's converter;
    a name that is no column is no key. *)
Theorem Read_item_exact (c c' : Converter) (record : list string)
  (rest : list (list string)) (items : gmap string AttributeValue) :
  NoDup (columnNames c) ->
  csv.pending (r c) = record :: rest ->
  Read c = Returned (c', (Some items, None)) ->
  (forall i column raw,
     columnNames c !! i = Some column -> record !! i = Some raw ->
     items !! column =
       if included c column && bool_decide (raw <> EmptyString)
       then Some (dynamoValue c column raw) else None)
  /\ (forall column, column ∉ columnNames c -> items !! column = None).
Proof.
  intros Hnd Hp Hr.
  destruct (Read_returned_items _ _ _ _ _ Hp Hr) as (c1 & Hconf & Hincl & Hrc).
  split.
  - intros i column raw Hi Hraw.
    rewrite (read_columns_exact _ _ _ _ _ _ _ _ Hnd Hrc Hi). simpl.
    rewrite Hraw, lookup_empty. unfold included, dynamoValue. rewrite Hincl, Hconf.
    reflexivity.
  - intros column Hnin.
    rewrite (read_columns_untouched _ _ _ _ _ _ _ Hrc Hnin). apply lookup_empty.
Qed.

Lemma Read_item_exact_witness :
  (<["a" := stringValue "the"]> (<["c" := stringValue "cork"]> ∅)
     : gmap string AttributeValue) !! "c" = Some (stringValue "cork").
Proof.
  assert (Hnd : NoDup (columnNames converter_the_cork)).
  { apply NoDup_ListNoDup. repeat constructor; simpl; intuition discriminate. }
  exact (proj1 (Read_item_exact converter_the_cork
                  (set_r converter_the_cork (csv.mkReader [] 3))
                  ["the"; EmptyString; "cork"] []
                  (<["a" := stringValue "the"]> (<["c" := stringValue "cork"]> ∅))
                  Hnd eq_refl converter_the_cork_Read)
           2%nat "c" "cork" eq_refl eq_refl).
Defined.

(** ** Creating a converter *)

(** X4: with explicit columns [NewConverter] succeeds on any input, even
    an empty one, and reads nothing: the first record of the input, a header
    row if the file has one, is left to be read as data.  Without explicit
    columns it consumes exactly the first record as the column names, and on
    an empty input it fails with [io.EOF]. *)
Theorem NewConverter_cases (records : list (list string)) (cf : option Configuration) :
  if decide (Columns (config_of cf) = []) then
    match records with
    | [] => snd (NewConverter (csv.NewReader records) cf) = Some io_EOF
    | header :: rows =>
        snd (NewConverter (csv.NewReader records) cf) = None /\
        columnNames (fst (NewConverter (csv.NewReader records) cf)) = header /\
        csv.pending (r (fst (NewConverter (csv.NewReader records) cf))) = rows
    end
  else
    snd (NewConverter (csv.NewReader records) cf) = None /\
    columnNames (fst (NewConverter (csv.NewReader records) cf))
      = Columns (config_of cf) /\
    r (fst (NewConverter (csv.NewReader records) cf)) = csv.NewReader records.
Proof.
  destruct (decide (Columns (config_of cf) = [])) as [Hc | Hc].
  - destruct records as [| header rows].
    + unfold NewConverter, init. fold (config_of cf).
      cbn [conf r columnNames columnNamesToInclude].
      destruct (0 <? length (KeyColumns (config_of cf)))%nat;
        cbn [conf r columnNames columnNamesToInclude]; rewrite Hc; reflexivity.
    + rewrite (NewConverter_header cf header rows Hc). auto.
  - destruct cf as [cf |]; [| contradiction Hc; reflexivity].
    cbn [config_of] in *. rewrite (NewConverter_explicit _ _ Hc). auto.
Qed.

(** ** [ReadBatch]: errors and order *)

Lemma row_item_set_r (c : Converter) (rd : csv.Reader) (record : list string) :
  row_item (set_r c rd) record = row_item c record.
Proof. unfold row_item. cbn [set_r columnNames]. rewrite read_columns_set_r. reflexivity. Qed.

Lemma Read_header_item (hdr : list string) (c : Converter) (row : list string)
  (rest : list (list string)) :
  header_mode hdr c -> csv.pending (r c) = row :: rest ->
  length row = length hdr ->
  Read c = Returned (set_r c (csv.mkReader rest (csv.FieldsPerRecord (r c))),
                     (row_item c row, None))
  /\ is_Some (row_item c row).
Proof.
  intros Hm Hp Hlen.
  destruct (Read_header_ok _ _ _ _ Hm Hp Hlen) as [items Hr].
  pose proof Hr as Hr'. unfold Read in Hr'.
  rewrite (csv_Read_checked _ _ _ Hp (header_mode_positive _ _ Hm)) in Hr'.
  destruct (decide _) in Hr'; [| discriminate].
  rewrite read_columns_set_r in Hr'. cbn [set_r columnNames] in Hr'.
  unfold row_item.
  destruct (read_columns c row 0 (columnNames c) ∅) as [items0 |]; [| discriminate].
  injection Hr' as <-. split; [exact Hr | eexists; reflexivity].
Qed.

Lemma ReadBatch_loop_items (hdr : list string) :
  forall n c items,
    header_mode hdr c -> arity (length hdr) (csv.pending (r c)) ->
    exists c',
      ReadBatch_loop n c items =
        Returned (c', (items ++ map (row_item c) (take n (csv.pending (r c))),
                       length (items ++ map (row_item c) (take n (csv.pending (r c)))),
                       if (length (csv.pending (r c)) <? n)%nat
                       then Some io_EOF else None)) /\
      c' = set_r c (csv.mkReader (drop n (csv.pending (r c)))
                      (csv.FieldsPerRecord (r c))).
Proof.
  induction n as [| n IH]; intros c items Hm Har.
  - exists c. simpl. rewrite app_nil_r, drop_0. split; [reflexivity |].
    destruct c as [[p f] cc nc ic]. reflexivity.
  - cbn [ReadBatch_loop].
    destruct (csv.pending (r c)) as [| row rest] eqn:Hp.
    + rewrite (Read_eof _ Hp), set_r_same.
      exists c. simpl. rewrite app_nil_r. split; [reflexivity |].
      destruct c as [[p f] cc nc ic]. simpl in *. subst. reflexivity.
    + apply Forall_cons in Har as [Hrow Hrest].
      destruct (Read_header_item _ _ _ _ Hm Hp Hrow) as [-> [item Hitem]].
      set (c1 := set_r c _).
      assert (Hm1 : header_mode hdr c1) by (apply header_mode_set_r; exact Hm).
      destruct (IH c1 (items ++ [row_item c row]) Hm1 Hrest) as (c' & Hloop & Hc').
      rewrite Hitem in *.
      exists c'. split.
      * rewrite Hloop. subst c1. cbn [set_r r csv.pending firstn take map].
        rewrite <- !app_assoc. cbn [app].
        rewrite (map_ext _ _ (row_item_set_r c _)), Hitem. reflexivity.
      * rewrite Hc'. subst c1. reflexivity.
Qed.

(** X5: in input order.  On a converter that took its columns from the
    header, while the rows have the header's arity, [ReadBatch] returns the
    conversions of the next 25 rows (of all the rows left when fewer are
    left), one item per row and in the order of the rows, and leaves the
    reader at the row after them. *)
Theorem ReadBatch_items_in_order (cf : option Configuration) (header : list string)
  (rows : list (list string)) :
  Columns (config_of cf) = [] -> header <> [] -> arity (length header) rows ->
  exists c0 c1,
    NewConverter (csv.NewReader (header :: rows)) cf = (c0, None) /\
    ReadBatch c0 =
      Returned (c1, (map (row_item c0) (take 25 rows),
                     Nat.min 25 (length rows),
                     if (length rows <? 25)%nat then Some io_EOF else None)) /\
    csv.pending (r c1) = drop 25 rows /\
    Forall is_Some (map (row_item c0) rows) /\
    (forall row, row_item c1 row = row_item c0 row).
Proof.
  intros Hc Hh Har.
  destruct (NewConverter_header_mode cf header rows Hc Hh) as (c0 & Hnew & Hm0 & Hp0 & _).
  rewrite <- Hp0 in Har.
  destruct (ReadBatch_loop_items header batchSize c0 [] Hm0 Har) as (c1 & Hb & Hc1).
  rewrite Hp0 in *. cbn [app] in Hb.
  rewrite length_map, length_take in Hb.
  exists c0, c1. split; [exact Hnew |]. split; [exact Hb |].
  split; [rewrite Hc1; reflexivity |].
  split.
  - apply Forall_map. apply Forall_forall. intros row Hrow.
    unfold arity in Har. rewrite Forall_forall in Har. specialize (Har row Hrow).
    assert (Hx : exists items, read_columns c0 row 0 (columnNames c0) ∅ = Returned items).
    { apply read_columns_total. intros k column Hk _. apply lookup_lt_Some in Hk.
      destruct Hm0 as (Hn & _). rewrite Hn in Hk. simpl in *. lia. }
    destruct Hx as [items Hx]. unfold row_item. simpl. rewrite Hx. eexists. reflexivity.
  - intros row. rewrite Hc1. apply row_item_set_r.
Qed.

Lemma ReadBatch_items_in_order_witness :
  exists c0 c1,
    NewConverter (csv.NewReader (["a"] :: [["1"]; ["2"]])) None = (c0, None) /\
    ReadBatch c0 =
      Returned (c1, (map (row_item c0) (take 25 [["1"]; ["2"]]),
                     Nat.min 25 (length [["1"]; ["2"]]),
                     if (length [["1"]; ["2"]] <? 25)%nat then Some io_EOF else None)) /\
    csv.pending (r c1) = drop 25 [["1"]; ["2"]] /\
    Forall is_Some (map (row_item c0) [["1"]; ["2"]]) /\
    (forall row, row_item c1 row = row_item c0 row).
Proof.
  apply (ReadBatch_items_in_order None ["a"] [["1"]; ["2"]]).
  - reflexivity.
  - discriminate.
  - repeat constructor.
Defined.

Lemma ReadBatch_loop_bad_row (hdr : list string) (bad : list string)
  (rest : list (list string)) :
  length bad <> length hdr ->
  forall good n c items,
    header_mode hdr c -> csv.pending (r c) = good ++ bad :: rest ->
    arity (length hdr) good -> (length good < n)%nat ->
    ReadBatch_loop n c items =
      Returned (set_r c (csv.mkReader rest (csv.FieldsPerRecord (r c))),
                (items ++ map (row_item c) good,
                 length (items ++ map (row_item c) good),
                 Some csv_ErrFieldCount)).
Proof.
  intros Hbad. induction good as [| row good IH]; intros n c items Hm Hp Har Hlt;
    (destruct n as [| n]; [simpl in Hlt; lia |]); cbn [ReadBatch_loop].
  - rewrite (Read_header_mismatch _ _ _ _ Hm Hp Hbad). cbn [map]. rewrite app_nil_r.
    reflexivity.
  - apply Forall_cons in Har as [Hrow Hgood].
    destruct (Read_header_item _ _ _ _ Hm Hp Hrow) as [-> [item Hitem]].
    rewrite Hitem.
    set (c1 := set_r c _).
    assert (Hm1 : header_mode hdr c1) by (apply header_mode_set_r; exact Hm).
    rewrite (IH n c1 (items ++ [Some item]) Hm1 eq_refl Hgood) by (simpl in Hlt; lia).
    subst c1. cbn [set_r r csv.FieldsPerRecord conf columnNames columnNamesToInclude map].
    rewrite <- !app_assoc. cbn [app].
    rewrite (map_ext _ _ (row_item_set_r c _)), Hitem. reflexivity.
Qed.

(** X6: [ReadBatch] stops at the first row of another arity than the
    header: it returns the conversions of the rows read before it in this
    call, with their count and [csv.ErrFieldCount]; the bad row is consumed,
    so a later call goes on with the row after it. *)
Theorem ReadBatch_stops_at_bad_row (cf : option Configuration) (header : list string)
  (good : list (list string)) (bad : list string) (rest : list (list string)) :
  Columns (config_of cf) = [] -> header <> [] ->
  arity (length header) good -> (length good < 25)%nat ->
  length bad <> length header ->
  exists c0 c1,
    NewConverter (csv.NewReader (header :: good ++ bad :: rest)) cf = (c0, None) /\
    ReadBatch c0 =
      Returned (c1, (map (row_item c0) good, length good, Some csv_ErrFieldCount)) /\
    csv.pending (r c1) = rest /\
    Forall is_Some (map (row_item c0) good).
Proof.
  intros Hc Hh Har Hlt Hbad.
  destruct (NewConverter_header_mode cf header (good ++ bad :: rest) Hc Hh)
    as (c0 & Hnew & Hm0 & Hp0 & _).
  exists c0, (set_r c0 (csv.mkReader rest (csv.FieldsPerRecord (r c0)))).
  split; [exact Hnew |]. split; [| split; [reflexivity |]].
  - unfold ReadBatch.
    rewrite (ReadBatch_loop_bad_row header bad rest Hbad good batchSize c0 []
               Hm0 Hp0 Har Hlt).
    cbn [app]. rewrite length_map. reflexivity.
  - apply Forall_map. apply Forall_forall. intros row Hrow.
    unfold arity in Har. rewrite Forall_forall in Har. specialize (Har row Hrow).
    assert (Hx : exists items, read_columns c0 row 0 (columnNames c0) ∅ = Returned items).
    { apply read_columns_total. intros k column Hk _. apply lookup_lt_Some in Hk.
      destruct Hm0 as (Hn & _). rewrite Hn in Hk. simpl in *. lia. }
    destruct Hx as [items Hx]. unfold row_item. simpl. rewrite Hx. eexists. reflexivity.
Qed.

Lemma ReadBatch_stops_at_bad_row_witness :
  exists c0 c1,
    NewConverter
      (csv.NewReader (["a"; "b"] :: [["1"; "2"]; ["3"; "4"]] ++ ["5"; "6"; "7"] :: [["8"; "9"]]))
      None = (c0, None) /\
    ReadBatch c0 =
      Returned (c1, (map (row_item c0) [["1"; "2"]; ["3"; "4"]],
                     length [["1"; "2"]; ["3"; "4"]], Some csv_ErrFieldCount)) /\
    csv.pending (r c1) = [["8"; "9"]] /\
    Forall is_Some (map (row_item c0) [["1"; "2"]; ["3"; "4"]]).
Proof.
  apply (ReadBatch_stops_at_bad_row None ["a"; "b"] [["1"; "2"]; ["3"; "4"]]
           ["5"; "6"; "7"] [["8"; "9"]]).
  - reflexivity.
  - discriminate.
  - repeat constructor.
  - simpl. lia.
  - simpl. lia.
Defined.

(** ** Binary columns: size and line breaks *)

From Stdlib Require Import ZifyNat.

Ltac div_lia := zify; Z.to_euclidean_division_equations; lia.

Lemma quantum_bytes_length (dbuf : list Z) (dlen : nat) :
  length (base64.quantum_bytes dbuf dlen) = Nat.min (dlen - 1) 3.
Proof. unfold base64.quantum_bytes. rewrite length_firstn. reflexivity. Qed.

Lemma skip_newlines_shorter (src : list Z) :
  forall si, (length (fst (base64.skip_newlines src si)) <= length src)%nat.
Proof.
  induction src as [| c rest IH]; intros si; simpl; [lia |].
  destruct (base64.is_newline c); simpl; [specialize (IH (si + 1)); lia | lia].
Qed.

Lemma decode_loop_length (src : list Z) :
  forall srclen si j dbuf,
    (j <= 3)%nat ->
    (length (fst (base64.decode_loop srclen src si j dbuf))
     <= 3 * ((j + length src) / 4))%nat.
Proof.
  induction src as [| c rest IH]; intros srclen si j dbuf Hj.
  - simpl. destruct j; cbn [fst length]; div_lia.
  - cbn [base64.decode_loop length].
    destruct (negb (base64.decodeMap c =? 255)).
    + destruct j as [| [| [| [| j]]]]; try div_lia.
      * specialize (IH srclen (si + 1) 1%nat (dbuf ++ [base64.decodeMap c]) ltac:(lia)). div_lia.
      * specialize (IH srclen (si + 1) 2%nat (dbuf ++ [base64.decodeMap c]) ltac:(lia)). div_lia.
      * specialize (IH srclen (si + 1) 3%nat (dbuf ++ [base64.decodeMap c]) ltac:(lia)). div_lia.
      * specialize (IH srclen (si + 1) 0%nat [] ltac:(lia)).
        destruct (base64.decode_loop srclen rest (si + 1) 0 []) as [bs e].
        cbn [fst] in *. rewrite length_app, quantum_bytes_length. cbn [Nat.min Nat.sub length fst] in *; div_lia.
    + destruct (base64.is_newline c).
      { specialize (IH srclen (si + 1) j dbuf Hj). div_lia. }
      destruct (negb (c =? base64.padChar)); [cbn [fst length]; div_lia |].
      destruct j as [| [| [| j]]]; try (cbn [fst length]; div_lia).
      * pose proof (skip_newlines_shorter rest (si + 1)) as Hs.
        destruct (base64.skip_newlines rest (si + 1)) as [rest2 si2].
        cbn [fst] in Hs.
        destruct rest2 as [| c2 rest3]; [cbn [fst length]; div_lia |].
        destruct (negb (c2 =? base64.padChar)); [cbn [fst length]; div_lia |].
        destruct (base64.skip_newlines rest3 (si2 + 1)) as [rest4 si4].
        cbn [fst]. rewrite quantum_bytes_length. cbn [Nat.min Nat.sub length fst] in *; div_lia.
      * destruct (base64.skip_newlines rest (si + 1)) as [rest4 si4].
        cbn [fst]. rewrite quantum_bytes_length. cbn [Nat.min Nat.sub length fst] in *; div_lia.
Qed.

Lemma bytes_of_string_length (s : string) :
  length (bytes_of_string s) = String.length s.
Proof. induction s as [| c s IH]; simpl; congruence. Qed.

(** X7: whatever the text, valid or not, the value of a binary column has
    at most 3 bytes for every 4 characters of the text, rounded down: the
    decoded bytes always fit the [DecodedLen(len(s))] bytes that
    [DecodeString] allocates. *)
Theorem binValue_length_bound (s : string) :
  exists b,
    av_B (binValue s) = Some b /\
    (length b <= String.length s / 4 * 3)%nat.
Proof.
  exists (fst (base64.DecodeString s)). split.
  - rewrite binValue_bytes. reflexivity.
  - unfold base64.DecodeString.
    pose proof (decode_loop_length (bytes_of_string s)
                  (Z.of_nat (length (bytes_of_string s))) 0 0 [] ltac:(lia)) as H.
    rewrite <- (bytes_of_string_length s). cbn [Nat.add] in H. div_lia.
Qed.

Lemma newline_not_in_alphabet (c : Z) :
  base64.is_newline c = true ->
  base64.decodeMap c = 255 /\ (c =? base64.padChar) = false.
Proof.
  unfold base64.is_newline. intros H.
  apply orb_true_iff in H as [H | H]; apply Z.eqb_eq in H; subst c;
    split; vm_compute; reflexivity.
Qed.

Lemma skip_newlines_strip (src : list Z) :
  forall si si',
    fst (base64.skip_newlines (strip_newlines src) si') = strip_newlines src /\
    strip_newlines src = strip_newlines (fst (base64.skip_newlines src si)) /\
    (fst (base64.skip_newlines src si) = [] \/
     exists c l, fst (base64.skip_newlines src si) = c :: l /\
                 base64.is_newline c = false).
Proof.
  induction src as [| c rest IH]; intros si si';
    cbn [strip_newlines base64.skip_newlines].
  - cbn [base64.skip_newlines fst]. auto.
  - destruct (base64.is_newline c) eqn:Hc.
    + apply IH.
    + cbn [base64.skip_newlines fst strip_newlines]. rewrite ?Hc.
      cbn [fst strip_newlines]. rewrite ?Hc.
      split; [reflexivity |]. split; [reflexivity |]. right. eauto.
Qed.

Lemma decode_loop_strip (src : list Z) :
  forall srclen srclen' si si' j dbuf,
    same_decoding (base64.decode_loop srclen src si j dbuf)
                  (base64.decode_loop srclen' (strip_newlines src) si' j dbuf).
Proof.
  unfold same_decoding.
  induction src as [| c rest IH]; intros srclen srclen' si si' j dbuf.
  - cbn [strip_newlines base64.decode_loop].
    destruct j; cbn [fst snd]; split; try reflexivity; try tauto; split; discriminate.
  - cbn [strip_newlines].
    destruct (base64.is_newline c) eqn:Hnl.
    + destruct (newline_not_in_alphabet c Hnl) as [Hd Hp].
      cbn [base64.decode_loop]. rewrite Hd, Hnl. cbn [Z.eqb negb].
      apply IH.
    + cbn [base64.decode_loop]. rewrite Hnl.
      destruct (negb (base64.decodeMap c =? 255)).
      * destruct j as [| [| [| [| j]]]]; try apply IH.
        specialize (IH srclen srclen' (si + 1) (si' + 1) 0%nat []).
        destruct (base64.decode_loop srclen rest (si + 1) 0 []) as [bs e].
        destruct (base64.decode_loop srclen' (strip_newlines rest) (si' + 1) 0 [])
          as [bs' e'].
        cbn [fst snd] in *. destruct IH as [-> He]. split; [reflexivity | exact He].
      * destruct (negb (c =? base64.padChar));
          [cbn [fst snd]; split; [reflexivity | split; discriminate] |].
        destruct j as [| [| [| j]]];
          try (cbn [fst snd]; split; [reflexivity | split; discriminate]).
        -- destruct (skip_newlines_strip rest (si + 1) (si' + 1)) as (H1 & H2 & H3).
           destruct (base64.skip_newlines rest (si + 1)) as [rest2 si2].
           destruct (base64.skip_newlines (strip_newlines rest) (si' + 1))
             as [rest2' si2'].
           cbn [fst] in *. subst rest2'. rewrite H2.
           destruct H3 as [-> | (c2 & rest3 & -> & Hc2)];
             [cbn [strip_newlines fst snd]; split; [reflexivity | split; discriminate] |].
           cbn [strip_newlines]. rewrite Hc2.
           destruct (negb (c2 =? base64.padChar));
             [cbn [fst snd]; split; [reflexivity | split; discriminate] |].
           destruct (skip_newlines_strip rest3 (si2 + 1) (si2' + 1)) as (H4 & H5 & H6).
           destruct (base64.skip_newlines rest3 (si2 + 1)) as [rest4 si4].
           destruct (base64.skip_newlines (strip_newlines rest3) (si2' + 1))
             as [rest4' si4'].
           cbn [fst snd] in *. subst rest4'. rewrite H5.
           split; [reflexivity |].
           destruct H6 as [-> | (c4 & l4 & -> & Hc4)];
             [cbn [strip_newlines]; tauto | cbn [strip_newlines]; rewrite Hc4; split; discriminate].
        -- destruct (skip_newlines_strip rest (si + 1) (si' + 1)) as (H4 & H5 & H6).
           destruct (base64.skip_newlines rest (si + 1)) as [rest4 si4].
           destruct (base64.skip_newlines (strip_newlines rest) (si' + 1))
             as [rest4' si4'].
           cbn [fst snd] in *. subst rest4'. rewrite H5.
           split; [reflexivity |].
           destruct H6 as [-> | (c4 & l4 & -> & Hc4)];
             [cbn [strip_newlines]; tauto | cbn [strip_newlines]; rewrite Hc4; split; discriminate].
Qed.

Lemma bytes_of_strip (s : string) :
  bytes_of_string (strip_line_breaks s) = strip_newlines (bytes_of_string s).
Proof.
  induction s as [| c s IH]; [reflexivity |]. simpl.
  destruct (base64.is_newline (byte_of_ascii c)); simpl; congruence.
Qed.

(** X8: line breaks in the text of a binary column are ignored: the text
    and the text without its LF and CR characters convert to the same
    bytes, and the decoder accepts both or rejects both. *)
Theorem binValue_ignores_line_breaks (s : string) :
  binValue s = binValue (strip_line_breaks s) /\
  (snd (base64.DecodeString s) = None <->
   snd (base64.DecodeString (strip_line_breaks s)) = None).
Proof.
  rewrite !binValue_bytes. unfold base64.DecodeString. rewrite bytes_of_strip.
  destruct (decode_loop_strip (bytes_of_string s)
              (Z.of_nat (length (bytes_of_string s)))
              (Z.of_nat (length (strip_newlines (bytes_of_string s)))) 0 0 0%nat [])
    as [Hb He].
  rewrite Hb. split; [reflexivity | exact He].
Qed.

(** ** Empty fields, and conversions that are empty *)

Lemma DecodeString_short (s : string) :
  (String.length s < 4)%nat -> fst (base64.DecodeString s) = [].
Proof.
  intros Hlen. unfold base64.DecodeString.
  pose proof (decode_loop_length (bytes_of_string s)
                (Z.of_nat (length (bytes_of_string s))) 0 0 [] ltac:(lia)) as H.
  rewrite <- (bytes_of_string_length s) in Hlen. cbn [Nat.add] in H.
  destruct (fst (base64.decode_loop (Z.of_nat (length (bytes_of_string s)))
                   (bytes_of_string s) 0 0 [])) as [| b bs]; [reflexivity |].
  cbn [length] in H. exfalso. div_lia.
Qed.

(** A binary column with a text that is not base64 is stored, with no
    bytes. *)
Example Read_binary_column_empty_bytes :
  exists c' items v,
    Read converter_bin_short = Returned (c', (Some items, None)) /\
    items !! "b" = Some v /\ av_B v = Some [].
Proof. eexists _, _, _. split; [vm_compute; reflexivity |]. split; reflexivity. Qed.

(** C5, amended: for a row that [Read] converts and a column name, if every
    column bearing that name has empty text in the row (so, when names are
    distinct, if the column's text is empty) the name is absent from the
    item; and a name present in the item holds the conversion, by the name's
    converter, of a non-empty text of a column of that name: an empty text
    is never converted.  The conversion is the text itself, as a string, for
    a name with no configured converter; it can be empty for other kinds: a
    binary column whose text has fewer than four characters is stored with
    no bytes, and a map column whose text leaves the decoded map nil is
    stored as the zero value. *)
Theorem Read_omits_empty_columns (c c' : Converter) (record : list string)
  (rest : list (list string)) (items : gmap string AttributeValue)
  (column : string) :
  csv.pending (r c) = record :: rest ->
  Read c = Returned (c', (Some items, None)) ->
  ((forall i, columnNames c !! i = Some column -> record !! i = Some EmptyString) ->
   items !! column = None)
  /\ (forall v, items !! column = Some v ->
        exists i raw, columnNames c !! i = Some column /\ record !! i = Some raw /\
                      raw <> EmptyString /\ v = dynamoValue c column raw /\
                      (KeyToConverter (conf c) !! column = None -> av_S v = Some raw) /\
                      (KeyToConverter (conf c) !! column = Some binValue ->
                       (String.length raw < 4)%nat -> av_B v = Some []) /\
                      (forall json_Unmarshal,
                          KeyToConverter (conf c) !! column
                            = Some (mapValue json_Unmarshal) ->
                          json_Unmarshal raw = None -> v = AttributeValue_zero)).
Proof.
  intros Hp Hr.
  destruct (Read_returned_items _ _ _ _ _ Hp Hr) as (c1 & Hconf & _ & Hrc).
  split.
  - intros He. eapply read_columns_absent; [exact Hrc | apply lookup_empty |].
    intros k Hk. simpl. apply He. exact Hk.
  - intros v Hv.
    destruct (read_columns_present _ _ _ _ _ _ _ _ Hrc Hv)
      as [He | (k & raw & Hk & Hraw & Hne & Heq)].
    + rewrite lookup_empty in He. discriminate.
    + assert (Hval : v = dynamoValue c column raw).
      { rewrite Heq. unfold dynamoValue. rewrite Hconf. reflexivity. }
      exists k, raw. split; [exact Hk |]. split; [exact Hraw |].
      split; [exact Hne |]. split; [exact Hval |].
      rewrite Hval. unfold dynamoValue. split; [| split].
      * intros ->. reflexivity.
      * intros -> Hlen. rewrite binValue_bytes, (DecodeString_short _ Hlen). reflexivity.
      * intros json_Unmarshal -> Hnil. unfold mapValue. rewrite Hnil. reflexivity.
Qed.

Lemma Read_omits_empty_columns_witness :
  (<["a" := stringValue "the"]> (<["c" := stringValue "cork"]> ∅)
     : gmap string AttributeValue) !! "b" = None.
Proof.
  refine (proj1 (Read_omits_empty_columns converter_the_cork
                   (set_r converter_the_cork (csv.mkReader [] 3))
                   ["the"; EmptyString; "cork"] []
                   (<["a" := stringValue "the"]> (<["c" := stringValue "cork"]> ∅))
                   "b" eq_refl converter_the_cork_Read) _).
  intros [| [| [| i]]] Hi; try discriminate Hi. reflexivity.
Defined.

(** ** The command: delimiter, flags, field lists *)

Lemma delimiter_cases (s : string) :
  (main.delimiter s = byte_of_ascii char_tab /\
   (s = "tab" \/ s = tab_string)) \/
  (main.delimiter s = byte_of_ascii ","%char /\ s <> "tab" /\ s <> tab_string).
Proof.
  unfold main.delimiter, tab_string.
  destruct (String.eqb_spec s ",") as [-> | Hc].
  { right. split; [reflexivity |]. split; discriminate. }
  destruct (String.eqb_spec s (String char_tab EmptyString)) as [-> | Ht].
  { left. split; [reflexivity | right; reflexivity]. }
  destruct (String.eqb_spec s "tab") as [-> | Hn].
  { left. split; [reflexivity | left; reflexivity]. }
  right. simpl. auto.
Qed.

(** X9: [delimiter] returns the tab or the comma and nothing else; the
    string that [main] puts in the job description, [string(delimiter(s))],
    is the one-character string of that delimiter, and [delimiter] maps it
    back to the same delimiter. *)
Theorem delimiter_round_trip (s : string) :
  (main.delimiter s = byte_of_ascii char_tab \/
   main.delimiter s = byte_of_ascii ","%char)
  /\ (string_of_rune (main.delimiter s) = tab_string \/
      string_of_rune (main.delimiter s) = ",")
  /\ main.delimiter (string_of_rune (main.delimiter s)) = main.delimiter s.
Proof.
  destruct (delimiter_cases s) as [[-> _] | [-> _]];
    (split; [auto |]); (split; [vm_compute; auto | vm_compute; reflexivity]).
Qed.

Lemma nonempty_true (s : string) : main.nonempty s = true <-> s <> EmptyString.
Proof.
  unfold main.nonempty. destruct (String.eqb_spec s EmptyString); simpl; split;
    congruence.
Qed.

Lemma nonempty_false (s : string) : main.nonempty s = false <-> s = EmptyString.
Proof.
  unfold main.nonempty. destruct (String.eqb_spec s EmptyString); simpl; split;
    congruence.
Qed.

Ltac flags_cases H :=
  unfold main.main in H;
  repeat match type of H with
         | context [main.nonempty ?s] =>
             let E := fresh "E" in
             destruct (main.nonempty s) eqn:E;
             cbn [negb orb andb] in H
         | context [if main.remoteFlag ?f then _ else _] =>
             let E := fresh "E" in
             destruct (main.remoteFlag f) eqn:E
         | context [if match ?a with _ => _ end then _ else _] =>
             destruct (match a with _ :: x :: _ => String.eqb x "install" | _ => false end)
         end;
  try discriminate H;
  repeat match goal with
         | E : main.nonempty _ = true |- _ => apply nonempty_true in E
         | E : main.nonempty _ = false |- _ => apply nonempty_false in E
         end.

Section MainProperties.

Variable PathEscape : string -> string.

(** X10: a remote import is started only with the table region and name,
    the three bucket flags all given and no input file; the job
    description carries the flags as given, the field lists split at
    commas, the delimiter as a one-character string and a time budget of
    900 seconds; the region of the job service is the step-function region
    flag, or the table region when that flag is empty.  The concurrency is
    passed on as given, whatever its value. *)
Theorem main_remote_start (args : list string) (f : main.Flags)
  (stepFnRegion : string) (input : state.Input) :
  main.main PathEscape args f = main.ImportRemote stepFnRegion input ->
  main.remoteFlag f = true
  /\ main.tableRegionFlag f <> EmptyString /\ main.tableNameFlag f <> EmptyString
  /\ main.bucketRegionFlag f <> EmptyString
  /\ main.bucketNameFlag f <> EmptyString
  /\ main.bucketKeyFlag f <> EmptyString
  /\ main.inputFileFlag f = EmptyString
  /\ stepFnRegion = (if decide (main.stepFnRegionFlag f = EmptyString)
                     then main.tableRegionFlag f else main.stepFnRegionFlag f)
  /\ input =
       state.mkInput
         (state.mkSource (main.bucketRegionFlag f) (main.bucketNameFlag f)
            (main.bucketKeyFlag f)
            (strings.Split (main.numericFieldsFlag f) ","%char)
            (strings.Split (main.booleanFieldsFlag f) ","%char)
            (string_of_rune (main.delimiter (main.delimiterFlag f))))
         (state.mkConfiguration (main.concurrencyFlag f) 900)
         (state.mkTarget (main.tableRegionFlag f) (main.tableNameFlag f)).
Proof.
  intros H. flags_cases H; injection H as <- <-;
    split_and!; auto; try congruence;
    destruct (decide (main.stepFnRegionFlag f = EmptyString)); congruence.
Qed.

(** X11: a local import reads from exactly one place: from the bucket when
    the three bucket flags are all given (and no input file is), else from
    the input file, and then no bucket flag is given.  The path is not
    checked: when no source is named at all, no usage error is raised and
    the import is started on the empty path. *)
Theorem main_local_start (args : list string) (f : main.Flags)
  (src : main.input_source) (inputName : string)
  (numericFields booleanFields : list string) (d : main.rune)
  (tableRegion tableName : string) (concurrency : Z) :
  main.main PathEscape args f =
    main.ImportLocal src inputName numericFields booleanFields d
      tableRegion tableName concurrency ->
  main.remoteFlag f = false
  /\ tableRegion = main.tableRegionFlag f /\ tableRegion <> EmptyString
  /\ tableName = main.tableNameFlag f /\ tableName <> EmptyString
  /\ numericFields = strings.Split (main.numericFieldsFlag f) ","%char
  /\ booleanFields = strings.Split (main.booleanFieldsFlag f) ","%char
  /\ d = main.delimiter (main.delimiterFlag f)
  /\ concurrency = main.concurrencyFlag f
  /\ match src with
     | main.FromS3 region bucket key =>
         region = main.bucketRegionFlag f /\ bucket = main.bucketNameFlag f /\
         key = main.bucketKeyFlag f /\
         region <> EmptyString /\ bucket <> EmptyString /\ key <> EmptyString /\
         main.inputFileFlag f = EmptyString
     | main.FromFile path =>
         path = main.inputFileFlag f /\ inputName = path /\
         main.bucketRegionFlag f = EmptyString /\
         main.bucketNameFlag f = EmptyString /\
         main.bucketKeyFlag f = EmptyString
     end.
Proof.
  intros H. flags_cases H; injection H as <- <- <- <- <- <- <- <-;
    split_and!; auto; congruence.
Qed.

(** X12: [main] does not reject a command line that names no input at
    all: with the table flags set, no input file, no bucket flag and no
    remote flag, no usage message is printed and a local import is started
    on the file with the empty name. *)
Theorem main_missing_source_not_rejected (args : list string) (f : main.Flags) :
  match args with
  | _ :: a :: _ => a <> "install"
  | _ => True
  end ->
  main.tableRegionFlag f <> EmptyString -> main.tableNameFlag f <> EmptyString ->
  main.inputFileFlag f = EmptyString ->
  main.bucketRegionFlag f = EmptyString -> main.bucketNameFlag f = EmptyString ->
  main.bucketKeyFlag f = EmptyString ->
  main.remoteFlag f = false ->
  main.main PathEscape args f =
    main.ImportLocal (main.FromFile EmptyString) EmptyString
      (strings.Split (main.numericFieldsFlag f) ","%char)
      (strings.Split (main.booleanFieldsFlag f) ","%char)
      (main.delimiter (main.delimiterFlag f))
      (main.tableRegionFlag f) (main.tableNameFlag f) (main.concurrencyFlag f).
Proof.
  intros Ha Htr Htn Hi Hbr Hbn Hbk Hr. unfold main.main.
  replace (match args with
           | _ :: a :: _ => String.eqb a "install"
           | _ => false
           end) with false.
  2:{ destruct args as [| a0 [| a args]]; try reflexivity.
      symmetry. apply String.eqb_neq. exact Ha. }
  apply nonempty_true in Htr, Htn. rewrite Htr, Htn.
  rewrite Hi, Hbr, Hbn, Hbk, Hr. reflexivity.
Qed.

End MainProperties.

Lemma main_remote_start_witness :
  main.remoteFlag flags_remote = true
  /\ main.tableRegionFlag flags_remote <> EmptyString
  /\ main.tableNameFlag flags_remote <> EmptyString
  /\ main.bucketRegionFlag flags_remote <> EmptyString
  /\ main.bucketNameFlag flags_remote <> EmptyString
  /\ main.bucketKeyFlag flags_remote <> EmptyString
  /\ main.inputFileFlag flags_remote = EmptyString
  /\ "eu-west-1" = (if decide (main.stepFnRegionFlag flags_remote = EmptyString)
                    then main.tableRegionFlag flags_remote
                    else main.stepFnRegionFlag flags_remote)
  /\ state.mkInput
       (state.mkSource "eu-west-2" "bucket" "data.csv" ["a"; "b"] [EmptyString] ",")
       (state.mkConfiguration 8 900) (state.mkTarget "eu-west-1" "table") =
     state.mkInput
       (state.mkSource (main.bucketRegionFlag flags_remote)
          (main.bucketNameFlag flags_remote) (main.bucketKeyFlag flags_remote)
          (strings.Split (main.numericFieldsFlag flags_remote) ","%char)
          (strings.Split (main.booleanFieldsFlag flags_remote) ","%char)
          (string_of_rune (main.delimiter (main.delimiterFlag flags_remote))))
       (state.mkConfiguration (main.concurrencyFlag flags_remote) 900)
       (state.mkTarget (main.tableRegionFlag flags_remote)
          (main.tableNameFlag flags_remote)).
Proof.
  apply (main_remote_start no_escape ["ddbimport"] flags_remote "eu-west-1"
           (state.mkInput
              (state.mkSource "eu-west-2" "bucket" "data.csv" ["a"; "b"]
                 [EmptyString] ",")
              (state.mkConfiguration 8 900) (state.mkTarget "eu-west-1" "table"))).
  vm_compute. reflexivity.
Defined.

Lemma main_local_start_witness :
  main.remoteFlag flags_local = false.
Proof.
  exact (proj1 (main_local_start no_escape ["ddbimport"] flags_local
                  (main.FromFile "data.csv") "data.csv" [EmptyString] [EmptyString]
                  44 "eu-west-1" "table" 8 eq_refl)).
Defined.

Lemma main_missing_source_not_rejected_witness :
  main.main no_escape ["ddbimport"] flags_no_source =
    main.ImportLocal (main.FromFile EmptyString) EmptyString
      (strings.Split (main.numericFieldsFlag flags_no_source) ","%char)
      (strings.Split (main.booleanFieldsFlag flags_no_source) ","%char)
      (main.delimiter (main.delimiterFlag flags_no_source))
      (main.tableRegionFlag flags_no_source) (main.tableNameFlag flags_no_source)
      (main.concurrencyFlag flags_no_source).
Proof.
  apply (main_missing_source_not_rejected no_escape ["ddbimport"] flags_no_source);
    try reflexivity; try discriminate.
Defined.

(** ** The field lists *)

Lemma Split_empty (sep : ascii) : strings.Split EmptyString sep = [EmptyString].
Proof. reflexivity. Qed.

Lemma Split_nonempty (s : string) (sep : ascii) : strings.Split s sep <> [].
Proof.
  destruct s as [| c s]; [discriminate |]. simpl.
  destruct (Ascii.eqb c sep); [discriminate |].
  destruct (strings.Split s sep); discriminate.
Qed.

(** X13: in a local import a column converts as a boolean when its name
    is in the boolean field list, even if it is in the numeric list too;
    else as a number when its name is in the numeric list; else as a string.
    The lists come from splitting the flags at commas, and an empty flag
    splits into one empty name: with the default flags the column whose
    header is empty converts as a boolean, every other column as a string. *)
Theorem importLocal_field_kinds (records : list (list string))
  (numericFields booleanFields : list string) (concurrency : Z)
  (s0 : main.state) (reader : Converter) (column v : string) :
  main.importLocal_start records numericFields booleanFields concurrency
    = main.Started s0 ->
  main.main_pc s0 = main.PReadBatch reader ->
  dynamoValue reader column v =
    (if decide (column ∈ booleanFields) then boolValue v
     else if decide (column ∈ numericFields) then numberValue v
     else stringValue v)
  /\ (numericFields = strings.Split EmptyString ","%char ->
      booleanFields = strings.Split EmptyString ","%char ->
      dynamoValue reader column v =
        if decide (column = EmptyString) then boolValue v else stringValue v).
Proof.
  intros Hstart Hpc.
  assert (Hconf : conf reader =
            add_keys boolValue (add_keys numberValue NewConfiguration numericFields)
              booleanFields).
  { unfold main.importLocal_start in Hstart.
    pose proof (NewConverter_config (csv.NewReader records)
                  (Some (AddBoolKeys (AddNumberKeys NewConfiguration numericFields)
                           booleanFields))) as [Hc _].
    destruct (NewConverter _ _) as [rd [e |]]; [discriminate |].
    destruct (concurrency <? 0); [discriminate |].
    injection Hstart as <-. cbn [main.main_pc] in Hpc. injection Hpc as <-.
    exact Hc. }
  assert (Hkind : dynamoValue reader column v =
            if decide (column ∈ booleanFields) then boolValue v
            else if decide (column ∈ numericFields) then numberValue v
            else stringValue v).
  { unfold dynamoValue. rewrite Hconf, !add_keys_lookup.
    destruct (decide (column ∈ booleanFields)); [reflexivity |].
    destruct (decide (column ∈ numericFields)); [reflexivity |].
    cbn [NewConfiguration KeyToConverter]. rewrite lookup_empty. reflexivity. }
  split; [exact Hkind |].
  intros -> ->. rewrite Hkind, Split_empty.
  destruct (decide (column = EmptyString)) as [-> | Hne].
  - rewrite decide_True by (left). reflexivity.
  - rewrite !decide_False; [reflexivity | |];
      intros Hin; apply list_elem_of_singleton in Hin; contradiction.
Qed.

Lemma importLocal_field_kinds_witness :
  dynamoValue (fst (NewConverter (csv.NewReader [["a"; EmptyString]; ["x"; "hello"]])
                      (Some (AddBoolKeys (AddNumberKeys NewConfiguration [EmptyString])
                               [EmptyString]))))
    EmptyString "hello"
  = boolValue "hello".
Proof.
  refine (proj2 (importLocal_field_kinds [["a"; EmptyString]; ["x"; "hello"]]
                   [EmptyString] [EmptyString] 8 _ _ EmptyString "hello"
                   eq_refl eq_refl) eq_refl eq_refl).
Defined.

(** ** Remote mode: discovery, errors of the poll, the total *)

Lemma find_on_page_find (page : list main.StateMachineListItem) (arn : option string) :
  main.find_on_page page arn =
    match find is_ddbimport page with
    | Some sm => (Some (main.StateMachineArn sm), false)
    | None => (arn, true)
    end.
Proof.
  induction page as [| sm page IH]; [reflexivity |].
  cbn [main.find_on_page find]. unfold is_ddbimport at 1.
  destruct (String.eqb (main.Name sm) "ddbimport"); [reflexivity | exact IH].
Qed.

Lemma find_app {A} (p : A -> bool) (l1 l2 : list A) :
  find p (l1 ++ l2) = match find p l1 with Some x => Some x | None => find p l2 end.
Proof.
  induction l1 as [| x l1 IH]; [reflexivity |]. simpl.
  destruct (p x); [reflexivity | exact IH].
Qed.

Lemma ListStateMachinesPages_find (pages : list (list main.StateMachineListItem)) :
  forall arn n,
    fst (main.ListStateMachinesPages pages arn n) =
      match find is_ddbimport (concat pages) with
      | Some sm => Some (main.StateMachineArn sm)
      | None => arn
      end.
Proof.
  induction pages as [| page pages IH]; intros arn n; [reflexivity |].
  cbn [main.ListStateMachinesPages concat]. rewrite find_on_page_find, find_app.
  destruct (find is_ddbimport page); [reflexivity | apply IH].
Qed.

Lemma ListStateMachinesPages_fetched (pre : list (list main.StateMachineListItem)) :
  forall page post arn n,
    Forall (fun p => find is_ddbimport p = None) pre ->
    find is_ddbimport page <> None ->
    snd (main.ListStateMachinesPages (pre ++ page :: post) arn n)
    = (n + length pre + 1)%nat.
Proof.
  induction pre as [| p pre IH]; intros page post arn n Hpre Hpage.
  - cbn [app main.ListStateMachinesPages]. rewrite find_on_page_find.
    destruct (find is_ddbimport page); [simpl; lia | contradiction].
  - apply Forall_cons in Hpre as [Hp Hpre].
    cbn [app main.ListStateMachinesPages]. rewrite find_on_page_find, Hp.
    rewrite (IH page post arn (S n) Hpre Hpage). simpl. lia.
Qed.

(** X14: the state machine used is the first one named "ddbimport" in
    the order of the pages and of the entries on each page, whatever follows
    it, other entries of that name included; the pages after the one that
    holds it are not fetched; and when no entry has the name the import
    exits through the fatal log before anything is started. *)
Theorem find_state_machine_first (pre : list (list main.StateMachineListItem))
  (page : list main.StateMachineListItem) (sm : main.StateMachineListItem)
  (post : list (list main.StateMachineListItem)) :
  Forall (fun p => find is_ddbimport p = None) pre ->
  find is_ddbimport page = Some sm ->
  main.find_state_machine (pre ++ page :: post) = inl (main.StateMachineArn sm)
  /\ snd (main.ListStateMachinesPages (pre ++ page :: post) None 0)
     = (length pre + 1)%nat
  /\ main.find_state_machine pre =
       inr (main.Fatal "ddbimport state machine not found. Have you deployed the ddbimport Step Function?").
Proof.
  intros Hpre Hpage.
  assert (Hnone : find is_ddbimport (concat pre) = None).
  { clear -Hpre. induction Hpre as [| p pre Hp _ IH]; [reflexivity |].
    cbn [concat]. rewrite find_app, Hp. exact IH. }
  split; [| split].
  - unfold main.find_state_machine.
    pose proof (ListStateMachinesPages_find (pre ++ page :: post) None 0) as Hf.
    destruct (main.ListStateMachinesPages (pre ++ page :: post) None 0) as [arn n].
    cbn [fst] in Hf. rewrite Hf, concat_app, find_app, Hnone. cbn [concat].
    rewrite find_app, Hpage. reflexivity.
  - rewrite (ListStateMachinesPages_fetched pre page post None 0 Hpre); [lia |].
    rewrite Hpage. discriminate.
  - unfold main.find_state_machine.
    pose proof (ListStateMachinesPages_find pre None 0) as Hf.
    destruct (main.ListStateMachinesPages pre None 0) as [arn n].
    cbn [fst] in Hf. rewrite Hf, Hnone. reflexivity.
Qed.

Lemma find_state_machine_first_witness :
  main.find_state_machine
    ([[main.mkStateMachineListItem "other" "arn:1"]] ++
     [main.mkStateMachineListItem "ddbimport" "arn:2";
      main.mkStateMachineListItem "ddbimport" "arn:3"] ::
     [[main.mkStateMachineListItem "ddbimport" "arn:4"]])
  = inl "arn:2".
Proof.
  refine (proj1 (find_state_machine_first
                   [[main.mkStateMachineListItem "other" "arn:1"]]
                   [main.mkStateMachineListItem "ddbimport" "arn:2";
                    main.mkStateMachineListItem "ddbimport" "arn:3"]
                   (main.mkStateMachineListItem "ddbimport" "arn:2")
                   [[main.mkStateMachineListItem "ddbimport" "arn:4"]] _ _)).
  - repeat constructor.
  - reflexivity.
Defined.

Section RemoteTotals.

Variable json_Unmarshal : string -> option (list main.sfnResponse).

Lemma wrap64_zero : main.wrap64 0 = 0.
Proof. reflexivity. Qed.

Lemma fold_processed (output : list main.sfnResponse) :
  forall a,
    fold_left (fun lines op => main.wrap64 (lines + main.ProcessedCount op))
      output (main.wrap64 a) =
    main.wrap64 (a + sumZ (map main.ProcessedCount output)).
Proof.
  induction output as [| op output IH]; intros a; cbn [fold_left map sumZ foldr].
  - f_equal. lia.
  - rewrite wrap64_add_l, IH. f_equal. unfold sumZ. lia.
Qed.

Lemma sumZ_Permutation (l1 l2 : list Z) : l1 ≡ₚ l2 -> sumZ l1 = sumZ l2.
Proof.
  induction 1 as [| x l1 l2 _ IH | x y l | l1 l2 l3 _ IH1 _ IH2]; simpl in *; lia.
Qed.

(** X15: when the output of a succeeded execution parses, the total
    logged is the sum of the processed counts of its records, as a 64-bit
    value; it does not depend on the order of the records, and it is the
    exact sum when that fits. *)
Theorem importRemote_total (payload : string)
  (output output' : list main.sfnResponse) :
  json_Unmarshal payload = Some output ->
  main.importRemote_output json_Unmarshal payload =
    [main.Unmarshal payload;
     main.Complete (main.wrap64 (sumZ (map main.ProcessedCount output)))]
  /\ (output ≡ₚ output' ->
      sumZ (map main.ProcessedCount output) = sumZ (map main.ProcessedCount output'))
  /\ (- 2 ^ 63 <= sumZ (map main.ProcessedCount output) < 2 ^ 63 ->
      main.importRemote_output json_Unmarshal payload =
        [main.Unmarshal payload;
         main.Complete (sumZ (map main.ProcessedCount output))]).
Proof.
  intros Hj.
  assert (Hout : main.importRemote_output json_Unmarshal payload =
            [main.Unmarshal payload;
             main.Complete (main.wrap64 (sumZ (map main.ProcessedCount output)))]).
  { unfold main.importRemote_output. rewrite Hj.
    rewrite <- wrap64_zero at 1. rewrite fold_processed. reflexivity. }
  split; [exact Hout |]. split.
  - intros Hp. apply sumZ_Permutation. apply Permutation_map. exact Hp.
  - intros Hr. rewrite Hout, (wrap64_small _ Hr). reflexivity.
Qed.

(** X16: an error of [DescribeExecution] ends the import at once: after
    the polls that found the execution running, each followed by its
    5 second sleep, the failure is logged as fatal, no later answer is
    asked for and the output is never parsed. *)
Theorem importRemote_poll_error (pre : list main.DescribeExecutionOutput)
  (err : string) (rest : list (main.DescribeExecutionOutput + string)) :
  Forall (fun d => main.Status d = main.ExecutionStatusRunning) pre ->
  main.importRemote_wait json_Unmarshal (map inl pre ++ inr err :: rest) =
    running_events (length pre) ++ [main.Fatal "failed to get execution status"]
  /\ existsb is_Unmarshal
       (main.importRemote_wait json_Unmarshal (map inl pre ++ inr err :: rest))
     = false.
Proof.
  intros Hpre. rewrite (importRemote_wait_prefix _ _ _ Hpre).
  split; [reflexivity |].
  rewrite existsb_app, running_events_no_Unmarshal. reflexivity.
Qed.

End RemoteTotals.

Lemma importRemote_total_witness :
  main.importRemote_output (fun _ => Some [main.mkSfnResponse 10 5; main.mkSfnResponse 32 7])
    "[]"
  = [main.Unmarshal "[]"; main.Complete 42].
Proof.
  refine (proj2 (proj2 (importRemote_total
            (fun _ => Some [main.mkSfnResponse 10 5; main.mkSfnResponse 32 7])
            "[]" [main.mkSfnResponse 10 5; main.mkSfnResponse 32 7] [] eq_refl)) _).
  vm_compute. split; [discriminate | reflexivity].
Defined.

Lemma importRemote_poll_error_witness :
  main.importRemote_wait no_json
    (map inl [main.mkDescribeExecutionOutput "RUNNING" EmptyString]
     ++ inr "timeout" :: [])
  = [main.Info "execution running"; main.Sleep 5;
     main.Fatal "failed to get execution status"].
Proof.
  refine (proj1 (importRemote_poll_error no_json
                   [main.mkDescribeExecutionOutput "RUNNING" EmptyString]
                   "timeout" [] _)).
  repeat constructor.
Defined.

(** ** The worker pool: bounds, conservation, failures *)

Lemma queue_inv_transition (s s' : main.state) :
  transition s s' -> queue_inv s -> queue_inv s'.
Proof.
  unfold queue_inv. intros T (Hlen & Hall & Hpc).
  destruct T as [s rd e Hp Hr | s rd rd' b n err eof Hp Hr He
                | s rd rd' b n e Hp Hr He | s b eof rd Hp Hq | s Hp | s Hp Hd
                | s l1 l2 b rest Hrun Hws Hb | s l1 l2 Hrun Hws Hb Hc
                | s l1 l2 b Hrun Hws | s l1 l2 b Hrun Hws
                | s l1 l2 b Hrun Hws | s l1 l2 rc Hrun Hws];
    state_simpl.
  - split_and!; auto.
  - split_and!; auto.
    unfold ReadBatch in Hr.
    destruct (ReadBatch_loop_bound _ _ _ _ _ _ _ Hr) as (_ & Hi & _).
    simpl in Hi. exact Hi.
  - split_and!; auto.
  - rewrite Hp in Hpc. split_and!.
    + rewrite length_app. simpl. lia.
    + apply Forall_app. split; [exact Hall | apply Forall_singleton; exact Hpc].
    + destruct eof; exact I.
  - split_and!; auto.
  - split_and!; auto.
  - rewrite Hb in Hlen, Hall. apply Forall_cons in Hall as [_ Hall].
    simpl in Hlen. split_and!; auto. lia.
  - split_and!; auto.
  - split_and!; auto.
  - split_and!; auto.
  - split_and!; auto.
  - split_and!; auto.
Qed.

Lemma queue_inv_reaches (s s' : main.state) :
  reaches s s' -> queue_inv s -> queue_inv s'.
Proof.
  induction 1 as [| s1 s2 s3 _ IH T]; [auto |].
  intros H. eapply queue_inv_transition; eauto.
Qed.

Lemma queue_inv_initial (reader : Converter) (n : nat) : queue_inv (initial reader n).
Proof. unfold queue_inv, initial. simpl. split_and!; auto. lia. Qed.

(** X17: the queue bounds what is held in memory: whatever the schedule
    and the answers of the sink, the queue never holds more than 128
    batches, and no batch, queued or about to be sent, has more than 25
    items. *)
Theorem queue_bounded (reader : Converter) (n : nat) (sched : list main.action)
  (s : main.state) :
  main.run sched (initial reader n) = Some s ->
  (length (main.batches s) <= 128)%nat /\
  Forall (fun b : main.batch => (length b <= 25)%nat) (main.batches s) /\
  (length (concat (main.batches s)) <= 128 * 25)%nat.
Proof.
  intros Hrun.
  destruct (queue_inv_reaches _ _ (run_reaches _ _ _ Hrun) (queue_inv_initial reader n))
    as (Hlen & Hall & _).
  split; [exact Hlen |]. split; [exact Hall |].
  unfold main.queue_capacity in Hlen.
  revert Hlen. generalize 128%nat. induction Hall as [| b bs Hb _ IH]; intros k Hk.
  - simpl. lia.
  - cbn [concat]. rewrite length_app. simpl in Hk.
    destruct k as [| k]; [lia |]. specialize (IH k ltac:(lia)). lia.
Qed.

Lemma queue_bounded_witness :
  (length (main.batches one_row_final) <= 128)%nat /\
  Forall (fun b : main.batch => (length b <= 25)%nat) (main.batches one_row_final) /\
  (length (concat (main.batches one_row_final)) <= 128 * 25)%nat.
Proof.
  apply (queue_bounded (fst (NewConverter (csv.NewReader [["a"]; ["1"]])
                               (Some (AddBoolKeys (AddNumberKeys NewConfiguration []) []))))
           1 (sequential_schedule 0 1) one_row_final).
  vm_compute. reflexivity.
Defined.

(** X18: no batch is lost, made up or written twice by the pool itself:
    at every moment of every run the batches sent so far are, counted with
    multiplicity, those passed to the sink, those a worker has received and
    not yet written, and those in the queue. *)
Theorem batches_conserved (reader : Converter) (n : nat) (sched : list main.action)
  (s : main.state) :
  main.run sched (initial reader n) = Some s ->
  main.sent s ≡ₚ
    map fst (main.written s) ++ flat_map inflight (main.workers s) ++ main.batches s
  /\ map fst (main.written s) ⊆+ main.sent s
  /\ (length (main.written s) <= length (main.sent s))%nat.
Proof.
  intros Hrun.
  destruct (pool_inv_reaches _ _ _ (run_reaches _ _ _ Hrun) (pool_inv_initial reader n))
    as (_ & Hperm & _).
  split; [exact Hperm |].
  assert (Hsub : map fst (main.written s) ⊆+ main.sent s).
  { rewrite Hperm. apply submseteq_inserts_r. reflexivity. }
  split; [exact Hsub |].
  apply submseteq_length in Hsub. rewrite length_map in Hsub. exact Hsub.
Qed.

Lemma batches_conserved_witness :
  main.sent one_row_final ≡ₚ
    map fst (main.written one_row_final)
    ++ flat_map inflight (main.workers one_row_final) ++ main.batches one_row_final
  /\ map fst (main.written one_row_final) ⊆+ main.sent one_row_final
  /\ (length (main.written one_row_final) <= length (main.sent one_row_final))%nat.
Proof.
  apply (batches_conserved
           (fst (NewConverter (csv.NewReader [["a"]; ["1"]])
                   (Some (AddBoolKeys (AddNumberKeys NewConfiguration []) []))))
           1 (sequential_schedule 0 1) one_row_final).
  vm_compute. reflexivity.
Defined.

Lemma returned_middle (l1 l2 : list main.worker) (w : main.worker) :
  returned (l1 ++ w :: l2) =
    (returned l1 + (if is_done w then 1 else 0) + returned l2)%nat.
Proof.
  unfold returned. rewrite filter_app, length_app, filter_cons.
  destruct w; simpl; lia.
Qed.

Lemma failed_writes_snoc (written : list (main.batch * bool)) (b : main.batch)
  (ok : bool) :
  failed_writes (written ++ [(b, ok)]) =
    (failed_writes written + if ok then 0 else 1)%nat.
Proof.
  unfold failed_writes. rewrite filter_app, length_app.
  destruct ok; simpl; reflexivity.
Qed.

Lemma returned_le (ws : list main.worker) : (returned ws <= length ws)%nat.
Proof. unfold returned. apply length_filter. Qed.

Lemma failures_transition (s s' : main.state) :
  transition s s' ->
  (failed_writes (main.written s) <= returned (main.workers s))%nat ->
  (failed_writes (main.written s') <= returned (main.workers s'))%nat.
Proof.
  intros T H.
  destruct T; state_simpl; auto;
    match goal with
    | Hws : main.workers _ = _ |- _ => rewrite Hws in H
    end;
    rewrite returned_middle in *; rewrite ?failed_writes_snoc;
    cbn [is_done] in *; lia.
Qed.

Lemma failures_reaches (s s' : main.state) :
  reaches s s' ->
  (failed_writes (main.written s) <= returned (main.workers s))%nat ->
  (failed_writes (main.written s') <= returned (main.workers s'))%nat.
Proof.
  induction 1 as [| s1 s2 s3 _ IH T]; [auto |].
  intros H. eapply failures_transition; eauto.
Qed.

(** X19: a worker that gets an error from the sink returns and takes no
    other batch, and nothing else stops a worker before the queue is closed
    and empty: in every run the number of failed writes is at most the
    number of workers that have returned, hence at most the number of
    workers. *)
Theorem failed_writes_bounded (reader : Converter) (n : nat)
  (sched : list main.action) (s : main.state) :
  main.run sched (initial reader n) = Some s ->
  (failed_writes (main.written s) <= returned (main.workers s))%nat /\
  (failed_writes (main.written s) <= n)%nat.
Proof.
  intros Hrun.
  pose proof (run_reaches _ _ _ Hrun) as Hreach.
  assert (H : (failed_writes (main.written s) <= returned (main.workers s))%nat).
  { apply (failures_reaches _ _ Hreach). unfold initial, failed_writes. simpl. lia. }
  split; [exact H |].
  destruct (pool_inv_reaches _ _ _ Hreach (pool_inv_initial reader n)) as (Hlen & _).
  pose proof (returned_le (main.workers s)). lia.
Qed.

Lemma failed_writes_bounded_witness :
  (failed_writes (main.written one_row_final)
   <= returned (main.workers one_row_final))%nat /\
  (failed_writes (main.written one_row_final) <= 1)%nat.
Proof.
  apply (failed_writes_bounded
           (fst (NewConverter (csv.NewReader [["a"]; ["1"]])
                   (Some (AddBoolKeys (AddNumberKeys NewConfiguration []) []))))
           1 (sequential_schedule 0 1) one_row_final).
  vm_compute. reflexivity.
Defined.

(** ** The worker pool: what is reported at the end *)

Lemma complete_inv_transition (s s' : main.state) :
  transition s s' -> complete_inv s -> complete_inv s'.
Proof.
  unfold complete_inv. intros T H.
  destruct T as [s rd e Hp Hr | s rd rd' b n err eof Hp Hr He
                | s rd rd' b n e Hp Hr He | s b eof rd Hp Hq | s Hp | s Hp Hd
                | s l1 l2 b rest Hrun Hws Hb | s l1 l2 Hrun Hws Hb Hc
                | s l1 l2 b Hrun Hws | s l1 l2 b Hrun Hws
                | s l1 l2 b Hrun Hws | s l1 l2 rc Hrun Hws];
    state_simpl; intros Hpc;
    try discriminate Hpc;
    try (unfold main.running in Hrun; rewrite Hpc in Hrun; discriminate Hrun).
  - destruct eof; discriminate Hpc.
  - exists (main.log s). reflexivity.
Qed.

Lemma complete_inv_reaches (s s' : main.state) :
  reaches s s' -> complete_inv s -> complete_inv s'.
Proof.
  induction 1 as [| s1 s2 s3 _ IH T]; [auto |].
  intros H. eapply complete_inv_transition; eauto.
Qed.

Lemma complete_inv_initial (reader : Converter) (n : nat) :
  complete_inv (initial reader n).
Proof. unfold complete_inv, initial. simpl. discriminate. Qed.

Lemma all_done_Forall (ws : list main.worker) :
  main.all_done ws = true -> Forall (fun w => w = main.WDone) ws.
Proof.
  induction ws as [| w ws IH]; simpl; intros H; [constructor |].
  apply andb_prop in H as [Hw Hws].
  constructor; [destruct w; try discriminate Hw; reflexivity | auto].
Qed.

Lemma all_done_quiescent (s : main.state) :
  main.all_done (main.workers s) = true ->
  quiescent s /\ flat_map inflight (main.workers s) = [].
Proof.
  intros H. apply all_done_Forall in H. unfold quiescent.
  induction H as [| w ws -> _ [IH1 IH2]]; [split; [constructor | reflexivity] |].
  split; [constructor; [reflexivity | exact IH1] | simpl; exact IH2].
Qed.

Lemma written_split (written : list (main.batch * bool)) :
  sumZ (map batch_len (map fst written)) =
    sumZ (map batch_len (ok_batches written))
    + sumZ (map batch_len (failed_batches written)).
Proof.
  unfold ok_batches, failed_batches.
  induction written as [| [b ok] written IH]; [reflexivity |].
  rewrite !filter_cons. cbn [snd].
  destruct ok.
  - destruct (decide (true = true)) as [_ | N]; [| congruence].
    destruct (decide (true = false)) as [N | _]; [discriminate N |].
    simpl in *. lia.
  - destruct (decide (false = true)) as [N | _]; [discriminate N |].
    destruct (decide (false = false)) as [_ | N]; [| congruence].
    simpl in *. lia.
Qed.

Lemma no_failed_accepted (written : list (main.batch * bool)) :
  failed_batches written = [] -> Forall accepted written.
Proof.
  unfold failed_batches, accepted.
  induction written as [| [b ok] written IH]; [constructor |].
  rewrite filter_cons. cbn [snd]. destruct ok.
  - destruct (decide (true = false)) as [N | _]; [discriminate N |].
    intros H. constructor; [reflexivity | auto].
  - destruct (decide (false = false)) as [_ | N]; [| congruence].
    discriminate.
Qed.

Lemma accepted_ok_batches (written : list (main.batch * bool)) :
  Forall accepted written -> ok_batches written = map fst written.
Proof.
  unfold ok_batches, accepted.
  induction 1 as [| [b ok] written Hw _ IH]; [reflexivity |].
  rewrite filter_cons. simpl in Hw. subst ok. cbn [snd].
  destruct (decide (true = true)) as [_ | N]; [| congruence].
  simpl. rewrite IH. reflexivity.
Qed.

Lemma complete_counts (reader : Converter) (n : nat) (s : main.state) :
  reaches (initial reader n) s ->
  main.main_pc s = main.PComplete ->
  (exists l, main.log s = l ++ [main.LogComplete (main.recordCount s)]) /\
  main.recordCount s =
    main.wrap64 (sumZ (map batch_len (ok_batches (main.written s)))) /\
  main.sent s ≡ₚ map fst (main.written s) ++ main.batches s /\
  (Forall accepted (main.written s) -> (0 < n)%nat -> main.batches s = []).
Proof.
  intros Hreach Hpc.
  pose proof (complete_inv_reaches _ _ Hreach (complete_inv_initial reader n) Hpc) as Hlog.
  destruct (pool_inv_reaches _ _ _ Hreach (pool_inv_initial reader n))
    as (Hlen & Hperm & _ & Hdone & Hall).
  specialize (Hall Hpc).
  destruct (all_done_quiescent _ Hall) as [Hq Hfl].
  destruct (quiescent_sums _ Hq) as [_ Hr].
  destruct (counters_inv_reaches _ _ Hreach (counters_inv_initial reader n)) as (Hrc & _).
  rewrite Hr, Z.sub_0_r in Hrc. rewrite Hfl in Hperm. cbn [app] in Hperm.
  split; [exact Hlog |]. split; [exact Hrc |]. split; [exact Hperm |].
  intros Hacc Hn.
  apply all_done_Forall in Hall.
  destruct (main.workers s) as [| w ws] eqn:Hws; [simpl in Hlen; lia |].
  apply Forall_cons in Hall as [-> _].
  apply (Hdone Hacc). left.
Qed.

(** X20: what [importLocal] reports when it returns.  The last log line
    is "complete" with the record counter, which is the 64-bit sum of the
    sizes of the batches the sink accepted.  The records sent on the queue
    are those reported, those of the batches the sink refused and those of
    the batches left in the queue (left only when every worker has returned
    on an error, or when there is no worker): a refused batch is missing
    from the total and the import still reports completion. *)
Theorem importLocal_report (reader : Converter) (n : nat) (sched : list main.action)
  (s : main.state) :
  main.run sched (initial reader n) = Some s ->
  main.main_pc s = main.PComplete ->
  (exists l, main.log s = l ++ [main.LogComplete (main.recordCount s)]) /\
  main.recordCount s =
    main.wrap64 (sumZ (map batch_len (ok_batches (main.written s)))) /\
  sumZ (map batch_len (main.sent s)) =
    sumZ (map batch_len (ok_batches (main.written s)))
    + sumZ (map batch_len (failed_batches (main.written s)))
    + sumZ (map batch_len (main.batches s)) /\
  (failed_batches (main.written s) = [] -> (0 < n)%nat -> main.batches s = []).
Proof.
  intros Hrun Hpc.
  destruct (complete_counts reader n s (run_reaches _ _ _ Hrun) Hpc)
    as (Hlog & Hrc & Hperm & Hempty).
  split; [exact Hlog |]. split; [exact Hrc |]. split.
  - rewrite (sumZ_Permutation _ _ (Permutation_map batch_len Hperm)).
    rewrite map_app, sumZ_app, written_split. reflexivity.
  - intros Hf. apply Hempty. apply no_failed_accepted. exact Hf.
Qed.

Lemma importLocal_report_witness :
  (exists l, main.log one_row_final = l ++ [main.LogComplete (main.recordCount one_row_final)]) /\
  main.recordCount one_row_final =
    main.wrap64 (sumZ (map batch_len (ok_batches (main.written one_row_final)))) /\
  sumZ (map batch_len (main.sent one_row_final)) =
    sumZ (map batch_len (ok_batches (main.written one_row_final)))
    + sumZ (map batch_len (failed_batches (main.written one_row_final)))
    + sumZ (map batch_len (main.batches one_row_final)) /\
  (failed_batches (main.written one_row_final) = [] -> (0 < 1)%nat ->
   main.batches one_row_final = []).
Proof.
  apply (importLocal_report
           (fst (NewConverter (csv.NewReader [["a"]; ["1"]])
                   (Some (AddBoolKeys (AddNumberKeys NewConfiguration []) []))))
           1 (sequential_schedule 0 1) one_row_final).
  - vm_compute. reflexivity.
  - vm_compute. reflexivity.
Defined.

Lemma idle_inv_transition (s s' : main.state) :
  transition s s' -> idle_inv s -> idle_inv s'.
Proof.
  unfold idle_inv. intros T (Hws0 & Hwr & Hrc & Hbc & Hsent).
  destruct T as [s rd e Hp Hr | s rd rd' b n err eof Hp Hr He
                | s rd rd' b n e Hp Hr He | s b eof rd Hp Hq | s Hp | s Hp Hd
                | s l1 l2 b rest Hrun Hws Hb | s l1 l2 Hrun Hws Hb Hc
                | s l1 l2 b Hrun Hws | s l1 l2 b Hrun Hws
                | s l1 l2 b Hrun Hws | s l1 l2 rc Hrun Hws];
    state_simpl;
    try (rewrite Hws in Hws0; destruct l1; discriminate Hws0);
    split_and!; auto.
  rewrite Hsent. reflexivity.
Qed.

Lemma idle_inv_reaches (s s' : main.state) :
  reaches s s' -> idle_inv s -> idle_inv s'.
Proof.
  induction 1 as [| s1 s2 s3 _ IH T]; [auto |].
  intros H. eapply idle_inv_transition; eauto.
Qed.

(** X21: with a concurrency of 0 no worker is started: the sink is never
    called and the counters keep their initial values, every batch read
    stays in the queue, so at most 128 batches are ever read; and when the
    input ends before that, the import reports completion with 0 records. *)
Theorem importLocal_no_workers (reader : Converter) (sched : list main.action)
  (s : main.state) :
  main.run sched (initial reader 0) = Some s ->
  main.written s = [] /\ main.recordCount s = 0 /\ main.batchCount s = 1 /\
  main.batches s = main.sent s /\ (length (main.sent s) <= 128)%nat /\
  (main.main_pc s = main.PComplete ->
   exists l, main.log s = l ++ [main.LogComplete 0]).
Proof.
  intros Hrun. pose proof (run_reaches _ _ _ Hrun) as Hreach.
  assert (H0 : idle_inv (initial reader 0)).
  { unfold idle_inv, initial. simpl. split_and!; reflexivity. }
  destruct (idle_inv_reaches _ _ Hreach H0) as (_ & Hwr & Hrc & Hbc & Hsent).
  destruct (queue_inv_reaches _ _ Hreach (queue_inv_initial reader 0)) as (Hlen & _).
  split_and!; auto.
  - rewrite Hsent. exact Hlen.
  - intros Hpc.
    destruct (complete_inv_reaches _ _ Hreach (complete_inv_initial reader 0) Hpc)
      as [l Hl].
    exists l. rewrite Hl, Hrc. reflexivity.
Qed.

Lemma importLocal_no_workers_witness :
  exists s,
    main.run [main.Main; main.Main; main.Main; main.Main]
      (initial (fst (NewConverter (csv.NewReader [["a"]; ["1"]]) None)) 0) = Some s /\
    main.written s = [] /\ main.recordCount s = 0 /\ main.batchCount s = 1 /\
    main.batches s = main.sent s /\ (length (main.sent s) <= 128)%nat /\
    (main.main_pc s = main.PComplete ->
     exists l, main.log s = l ++ [main.LogComplete 0]).
Proof.
  eexists. split; [vm_compute; reflexivity |].
  apply (importLocal_no_workers
           (fst (NewConverter (csv.NewReader [["a"]; ["1"]]) None))
           [main.Main; main.Main; main.Main; main.Main]).
  vm_compute. reflexivity.
Defined.

(** ** The ingestion loop: a malformed row, and delivery of every row *)

Lemma ReadBatch_loop_prefix (hdr : list string) (tail : list (list string)) :
  forall n good c items,
    header_mode hdr c -> csv.pending (r c) = good ++ tail ->
    arity (length hdr) good -> (n <= length good)%nat ->
    ReadBatch_loop n c items =
      Returned (set_r c (csv.mkReader (drop n good ++ tail) (csv.FieldsPerRecord (r c))),
                (items ++ map (row_item c) (take n good),
                 length (items ++ map (row_item c) (take n good)), None)).
Proof.
  induction n as [| n IH]; intros good c items Hm Hp Har Hle.
  - cbn [ReadBatch_loop]. rewrite take_0, drop_0. cbn [map]. rewrite app_nil_r, <- Hp.
    destruct c as [[p f] cc nc ic]. reflexivity.
  - destruct good as [| row good]; [simpl in Hle; lia |].
    cbn [ReadBatch_loop]. apply Forall_cons in Har as [Hrow Hgood].
    change ((row :: good) ++ tail) with (row :: (good ++ tail)) in Hp.
    destruct (Read_header_item _ _ _ _ Hm Hp Hrow) as [-> [item Hitem]].
    rewrite Hitem.
    set (c1 := set_r c _).
    assert (Hm1 : header_mode hdr c1) by (apply header_mode_set_r; exact Hm).
    rewrite (IH good c1 (items ++ [Some item]) Hm1 eq_refl Hgood) by (simpl in Hle; lia).
    subst c1. cbn [set_r r csv.FieldsPerRecord conf columnNames columnNamesToInclude
                   map firstn skipn].
    rewrite <- !app_assoc. cbn [app].
    rewrite (map_ext _ _ (row_item_set_r c _)), Hitem. reflexivity.
Qed.

Lemma ReadBatch_good_batch (hdr bad : list string) (rest good : list (list string))
  (c : Converter) :
  header_mode hdr c -> csv.pending (r c) = good ++ bad :: rest ->
  arity (length hdr) good -> (25 <= length good)%nat ->
  exists c' b,
    ReadBatch c = Returned (c', (b, length b, None)) /\
    full b /\ header_mode hdr c' /\
    csv.pending (r c') = drop 25 good ++ bad :: rest.
Proof.
  intros Hm Hp Har Hle.
  pose proof (ReadBatch_loop_prefix hdr (bad :: rest) 25 good c [] Hm Hp Har Hle) as H.
  eexists. eexists. split; [exact H |].
  split.
  - unfold full. cbn [app]. rewrite length_map, length_take. lia.
  - split; [apply header_mode_set_r; exact Hm | reflexivity].
Qed.

Lemma ReadBatch_bad_batch (hdr bad : list string) (rest good : list (list string))
  (c : Converter) :
  length bad <> length hdr ->
  header_mode hdr c -> csv.pending (r c) = good ++ bad :: rest ->
  arity (length hdr) good -> (length good < 25)%nat ->
  exists c' b, ReadBatch c = Returned (c', (b, length b, Some csv_ErrFieldCount)).
Proof.
  intros Hbad Hm Hp Har Hlt.
  pose proof (ReadBatch_loop_bad_row hdr bad rest Hbad good 25 c [] Hm Hp Har Hlt) as H.
  eexists. eexists. exact H.
Qed.

Lemma fatal_inv_transition (hdr bad : list string) (rest : list (list string))
  (G : nat) (s s' : main.state) :
  length bad <> length hdr ->
  transition s s' -> fatal_inv hdr bad rest G s -> fatal_inv hdr bad rest G s'.
Proof.
  unfold fatal_inv. intros Hbad T (Hfull & Hinv).
  destruct T as [s rd e Hp Hr | s rd rd' b n err eof Hp Hr He
                | s rd rd' b n e Hp Hr He | s b eof rd Hp Hq | s Hp | s Hp Hd
                | s l1 l2 b rest' Hrun Hws Hb | s l1 l2 Hrun Hws Hb Hc
                | s l1 l2 b Hrun Hws | s l1 l2 b Hrun Hws
                | s l1 l2 b Hrun Hws | s l1 l2 rc Hrun Hws];
    state_simpl;
    try rewrite Hp in Hinv;
    try (split; [exact Hfull |];
         unfold main.running in Hrun;
         destruct (main.main_pc s); try discriminate Hrun; exact Hinv).
  - (* ReadBatch panics *)
    destruct Hinv as (Hm & good & Hpend & Har & Hn).
    destruct (Nat.lt_ge_cases (length good) 25) as [Hlt | Hge].
    + destruct (ReadBatch_bad_batch _ _ _ _ _ Hbad Hm Hpend Har Hlt) as (c' & b' & Hb').
      congruence.
    + destruct (ReadBatch_good_batch _ _ _ _ _ Hm Hpend Har Hge) as (c' & b' & Hb' & _).
      congruence.
  - (* ReadBatch returns a batch *)
    destruct Hinv as (Hm & good & Hpend & Har & Hn).
    split; [exact Hfull |].
    destruct (Nat.lt_ge_cases (length good) 25) as [Hlt | Hge].
    + destruct (ReadBatch_bad_batch _ _ _ _ _ Hbad Hm Hpend Har Hlt) as (c' & b' & Hb').
      rewrite Hb' in Hr. injection Hr as _ _ _ <-.
      destruct He as [[He _] | [He _]]; discriminate He.
    + destruct (ReadBatch_good_batch _ _ _ _ _ Hm Hpend Har Hge)
        as (c' & b' & Hb' & Hf & Hm' & Hp').
      rewrite Hb' in Hr. injection Hr as <- <- _ <-.
      destruct He as [[_ ->] | [He _]]; [| discriminate He].
      split; [reflexivity |]. split; [exact Hf |]. split; [exact Hm' |].
      exists (drop 25 good). split; [exact Hp' |]. split.
      * apply Forall_drop. exact Har.
      * rewrite length_drop. lia.
  - (* ReadBatch fails *)
    destruct Hinv as (Hm & good & Hpend & Har & Hn).
    split; [exact Hfull |].
    destruct (Nat.lt_ge_cases (length good) 25) as [Hlt | Hge].
    + split; [lia |]. eexists. eexists. reflexivity.
    + destruct (ReadBatch_good_batch _ _ _ _ _ Hm Hpend Har Hge) as (c' & b' & Hb' & _).
      congruence.
  - (* send *)
    destruct Hinv as (-> & Hf & Hm & good & Hpend & Har & Hn).
    split.
    + apply Forall_app. split; [exact Hfull | apply Forall_singleton; exact Hf].
    + split; [exact Hm |]. exists good. rewrite length_app. simpl.
      split; [exact Hpend |]. split; [exact Har | lia].
  - destruct Hinv.
  - destruct Hinv.
Qed.

Lemma fatal_inv_reaches (hdr bad : list string) (rest : list (list string))
  (G : nat) (s s' : main.state) :
  length bad <> length hdr ->
  reaches s s' -> fatal_inv hdr bad rest G s -> fatal_inv hdr bad rest G s'.
Proof.
  intros Hbad. induction 1 as [| s1 s2 s3 _ IH T]; [auto |].
  intros H. eapply fatal_inv_transition; eauto.
Qed.

Lemma fatal_rounds (hdr bad : list string) (rest : list (list string)) :
  length bad <> length hdr ->
  forall k good rd (ws : list main.worker) rc bc snt wr lg,
    header_mode hdr rd -> csv.pending (r rd) = good ++ bad :: rest ->
    arity (length hdr) good -> (length good < 25 * S k)%nat ->
    exists sched s,
      main.run sched
        (main.mkState (main.PReadBatch rd) [] false (main.WReceive :: ws)
           rc bc snt wr lg) = Some s /\
      main.main_pc s = main.PFatal.
Proof.
  intros Hbad.
  induction k as [| k IH]; intros good rd ws rc bc snt wr lg Hm Hp Har Hlen;
    destruct (Nat.lt_ge_cases (length good) 25) as [Hlt | Hge]; try lia.
  1, 2: destruct (ReadBatch_bad_batch _ _ _ _ _ Hbad Hm Hp Har Hlt) as (c' & b & Hb);
    exists [main.Main]; eexists;
    cbv [main.run main.step main.running main.main_step main.set_main main.add_log
         main.main_pc main.batches main.closed main.workers main.recordCount
         main.batchCount main.sent main.written main.log];
    rewrite Hb;
    (destruct (decide (csv_ErrFieldCount = io_EOF)) as [N | _]; [discriminate N |]);
    split; reflexivity.
  destruct (ReadBatch_good_batch _ _ _ _ _ Hm Hp Har Hge) as (rd' & b & Hb & _ & Hm' & Hp').
  destruct (round_runs rd rd' b (length b) false ws rc bc snt wr lg Hb)
    as (rc1 & bc1 & lg1 & Hrun).
  destruct (IH (drop 25 good) rd' ws rc1 bc1 (snt ++ [b]) (wr ++ [(b, true)]) lg1 Hm' Hp')
    as (sched & s & Hrest & Hpc).
  - apply Forall_drop. exact Har.
  - rewrite length_drop. lia.
  - exists (round ++ sched), s. split; [| exact Hpc].
    rewrite run_app, Hrun. exact Hrest.
Qed.

(** X22: a row of another arity than the header ends the import in
    [logger.Fatal].  On an input whose rows have the header's arity up to
    such a row, with at least one worker: some run reaches the fatal exit,
    and in every run the queue is never closed and the import never
    completes; only full batches are sent, so the good rows read in the
    same call of [ReadBatch] as the bad row (the rows after the last
    multiple of 25) are read and never sent; the last log line of a run
    that exited is the failure to read a batch. *)
Theorem importLocal_malformed_row (header : list string) (good : list (list string))
  (bad : list string) (rest : list (list string))
  (numericFields booleanFields : list string) (concurrency : Z) :
  header <> [] -> 1 <= concurrency ->
  arity (length header) good -> length bad <> length header ->
  exists reader,
    main.importLocal_start (header :: good ++ bad :: rest)
      numericFields booleanFields concurrency
      = main.Started (initial reader (Z.to_nat concurrency)) /\
    (exists sched s,
        main.run sched (initial reader (Z.to_nat concurrency)) = Some s /\
        main.main_pc s = main.PFatal) /\
    forall sched s,
      main.run sched (initial reader (Z.to_nat concurrency)) = Some s ->
      main.main_pc s <> main.PComplete /\ main.closed s = false /\
      Forall full (main.sent s) /\
      (25 * length (main.sent s) <= length good)%nat /\
      (main.main_pc s = main.PFatal ->
       length (main.sent s) = (length good / 25)%nat /\
       exists l bc, main.log s = l ++ [main.LogReadBatchFatal bc]).
Proof.
  intros Hh Hc Har Hbad.
  destruct (importLocal_start_header header (good ++ bad :: rest)
              numericFields booleanFields concurrency Hh ltac:(lia))
    as (reader & Hstart & Hm & Hp).
  exists reader. split; [exact Hstart |]. split.
  - destruct (Z.to_nat concurrency) as [| n] eqn:Hn; [lia |].
    unfold initial. cbn [replicate].
    apply (fatal_rounds header bad rest Hbad (length good) good reader
             (replicate n main.WReceive) 0 1 [] [] [] Hm Hp Har).
    lia.
  - intros sched s Hrun. pose proof (run_reaches _ _ _ Hrun) as Hreach.
    assert (H0 : fatal_inv header bad rest (length good)
                   (initial reader (Z.to_nat concurrency))).
    { unfold fatal_inv, initial. simpl. split; [constructor |].
      split; [exact Hm |]. exists good. split; [exact Hp |]. split; [exact Har | lia]. }
    destruct (fatal_inv_reaches _ _ _ _ _ _ Hbad Hreach H0) as (Hfull & Hinv).
    destruct (pool_inv_reaches _ _ _ Hreach (pool_inv_initial reader _))
      as (_ & _ & Hclosed & _).
    split_and!.
    + intros Hpc. rewrite Hpc in Hinv. exact Hinv.
    + destruct (main.closed s); [| reflexivity].
      destruct (Hclosed eq_refl) as [Hpc | Hpc]; rewrite Hpc in Hinv; destruct Hinv.
    + exact Hfull.
    + destruct (main.main_pc s); try (destruct Hinv; fail).
      * destruct Hinv as (_ & g & _ & _ & Hn). lia.
      * destruct Hinv as (_ & _ & _ & g & _ & _ & Hn). lia.
      * destruct Hinv as (Hn & _). lia.
    + intros Hpc. rewrite Hpc in Hinv. destruct Hinv as (Hn & Hlog).
      split; [| exact Hlog].
      apply (Nat.div_unique _ 25 _ (length good - 25 * length (main.sent s))); lia.
Qed.

Lemma importLocal_malformed_row_witness :
  exists reader,
    main.importLocal_start (["a"] :: replicate 26 ["1"] ++ ["2"; "3"] :: [["4"]])
      [] [] 1
      = main.Started (initial reader (Z.to_nat 1)) /\
    (exists sched s,
        main.run sched (initial reader (Z.to_nat 1)) = Some s /\
        main.main_pc s = main.PFatal) /\
    forall sched s,
      main.run sched (initial reader (Z.to_nat 1)) = Some s ->
      main.main_pc s <> main.PComplete /\ main.closed s = false /\
      Forall full (main.sent s) /\
      (25 * length (main.sent s) <= length (replicate 26 ["1"]))%nat /\
      (main.main_pc s = main.PFatal ->
       length (main.sent s) = (length (replicate 26 ["1"]) / 25)%nat /\
       exists l bc, main.log s = l ++ [main.LogReadBatchFatal bc]).
Proof.
  apply (importLocal_malformed_row ["a"] (replicate 26 ["1"]) ["2"; "3"] [["4"]] [] [] 1).
  - discriminate.
  - lia.
  - apply Forall_replicate. reflexivity.
  - simpl. lia.
Defined.

Lemma delivery_inv_transition (hdr : list string) (c0 : Converter)
  (rows : list (list string)) (s s' : main.state) :
  transition s s' -> delivery_inv hdr c0 rows s -> delivery_inv hdr c0 rows s'.
Proof.
  unfold delivery_inv. intros T Hinv.
  destruct T as [s rd e Hp Hr | s rd rd' b n err eof Hp Hr He
                | s rd rd' b n e Hp Hr He | s b eof rd Hp Hq | s Hp | s Hp Hd
                | s l1 l2 b rest' Hrun Hws Hb | s l1 l2 Hrun Hws Hb Hc
                | s l1 l2 b Hrun Hws | s l1 l2 b Hrun Hws
                | s l1 l2 b Hrun Hws | s l1 l2 rc Hrun Hws];
    state_simpl;
    try rewrite Hp in Hinv;
    try exact Hinv.
  - (* ReadBatch panics *)
    destruct Hinv as (Hm & Har & _).
    destruct (ReadBatch_loop_items hdr batchSize rd [] Hm Har) as (c' & Hb & _).
    unfold ReadBatch in Hr. congruence.
  - (* ReadBatch returns a batch *)
    destruct Hinv as (Hm & Har & Heq & Hcat).
    destruct (ReadBatch_loop_items hdr batchSize rd [] Hm Har) as (c' & Hb & Hc').
    unfold ReadBatch in Hr. rewrite Hb in Hr. injection Hr as <- <- _ <-.
    subst c'. unfold batchSize in *. cbn [app set_r r csv.pending].
    split; [apply header_mode_set_r; exact Hm |].
    split; [apply Forall_drop; exact Har |].
    split; [intros row; rewrite row_item_set_r; apply Heq |].
    split.
    + rewrite (map_ext _ _ Heq), <- map_app, take_drop. exact Hcat.
    + intros ->. destruct He as [[_ He] | [He _]]; [discriminate He |].
      destruct (Nat.ltb_spec (length (csv.pending (r rd))) 25) as [Hlt | _];
        [| discriminate He].
      apply drop_ge. lia.
  - (* ReadBatch fails *)
    destruct Hinv as (Hm & Har & _).
    destruct (ReadBatch_loop_items hdr batchSize rd [] Hm Har) as (c' & Hb & _).
    unfold ReadBatch in Hr. rewrite Hb in Hr. injection Hr as _ _ _ Herr.
    destruct (length (csv.pending (r rd)) <? batchSize)%nat; congruence.
  - (* send *)
    destruct Hinv as (Hm & Har & Heq & Hcat & Hend).
    rewrite concat_app. cbn [concat]. rewrite app_nil_r.
    destruct eof.
    + rewrite (Hend eq_refl) in Hcat. cbn [map] in Hcat.
      rewrite app_nil_r in Hcat. exact Hcat.
    + split; [exact Hm |]. split; [exact Har |]. split; [exact Heq |].
      rewrite <- app_assoc. exact Hcat.
Qed.

Lemma delivery_inv_reaches (hdr : list string) (c0 : Converter)
  (rows : list (list string)) (s s' : main.state) :
  reaches s s' -> delivery_inv hdr c0 rows s -> delivery_inv hdr c0 rows s'.
Proof.
  induction 1 as [| s1 s2 s3 _ IH T]; [auto |].
  intros H. eapply delivery_inv_transition; eauto.
Qed.

Lemma rounds_run_any (hdr : list string) :
  forall k rd (ws : list main.worker) rc bc snt wr lg,
    header_mode hdr rd -> arity (length hdr) (csv.pending (r rd)) ->
    (length (csv.pending (r rd)) < 25 * S k)%nat ->
    Forall accepted wr ->
    exists sched rc' bc' snt' wr' lg',
      main.run sched
        (main.mkState (main.PReadBatch rd) [] false (main.WReceive :: ws)
           rc bc snt wr lg) =
      Some (main.mkState main.PClose [] false (main.WReceive :: ws)
              rc' bc' snt' wr' lg') /\
      Forall accepted wr'.
Proof.
  induction k as [| k IH]; intros rd ws rc bc snt wr lg Hm Har Hlen Hok;
    destruct (ReadBatch_header _ _ Hm Har) as (rd' & b & Hb & _ & _ & Hm' & Hp');
    destruct (Nat.ltb_spec (length (csv.pending (r rd))) 25) as [Hlt | Hge]; try lia.
  1, 2: destruct (round_runs rd rd' b (length b) true ws rc bc snt wr lg Hb)
      as (rc' & bc' & lg' & Hrun);
    exists round, rc', bc', (snt ++ [b]), (wr ++ [(b, true)]), lg';
    (split; [exact Hrun |]);
    apply Forall_app; (split; [exact Hok | apply Forall_singleton; reflexivity]).
  destruct (round_runs rd rd' b (length b) false ws rc bc snt wr lg Hb)
    as (rc1 & bc1 & lg1 & Hrun).
  destruct (IH rd' ws rc1 bc1 (snt ++ [b]) (wr ++ [(b, true)]) lg1 Hm')
    as (sched & rc' & bc' & snt' & wr' & lg' & Hrest & Hok').
  - rewrite Hp'. apply Forall_drop. exact Har.
  - rewrite Hp', length_drop. lia.
  - apply Forall_app. split; [exact Hok | apply Forall_singleton; reflexivity].
  - exists (round ++ sched), rc', bc', snt', wr', lg'. split; [| exact Hok'].
    rewrite run_app, Hrun. exact Hrest.
Qed.

Lemma concat_batch_len (bs : list main.batch) :
  sumZ (map batch_len bs) = Z.of_nat (length (concat bs)).
Proof.
  induction bs as [| b bs IH]; [reflexivity |].
  cbn [map concat]. rewrite length_app.
  change (sumZ (batch_len b :: map batch_len bs))
    with (batch_len b + sumZ (map batch_len bs)).
  rewrite IH. unfold batch_len. lia.
Qed.

(** X23: every row is delivered once.  On an input of a header and any
    number of rows of its arity, with at least one worker, a run in which
    the sink accepts every batch can complete; and in every complete run
    in which the sink accepted every batch, the batches sent, laid end to
    end, are the conversions of the rows in input order, the sink was
    called with exactly these batches, each once, and the final log line
    reports the number of rows as a 64-bit value. *)
Theorem importLocal_delivers_every_row (header : list string)
  (rows : list (list string)) (numericFields booleanFields : list string)
  (concurrency : Z) :
  header <> [] -> 1 <= concurrency -> arity (length header) rows ->
  exists reader,
    main.importLocal_start (header :: rows) numericFields booleanFields concurrency
      = main.Started (initial reader (Z.to_nat concurrency)) /\
    (exists sched s,
        main.run sched (initial reader (Z.to_nat concurrency)) = Some s /\
        main.main_pc s = main.PComplete /\ Forall accepted (main.written s)) /\
    forall sched s,
      main.run sched (initial reader (Z.to_nat concurrency)) = Some s ->
      main.main_pc s = main.PComplete -> Forall accepted (main.written s) ->
      concat (main.sent s) = map (row_item reader) rows /\
      map fst (main.written s) ≡ₚ main.sent s /\
      main.recordCount s = main.wrap64 (Z.of_nat (length rows)) /\
      exists l,
        main.log s = l ++ [main.LogComplete (main.wrap64 (Z.of_nat (length rows)))].
Proof.
  intros Hh Hc Har.
  destruct (importLocal_start_header header rows numericFields booleanFields
              concurrency Hh ltac:(lia))
    as (reader & Hstart & Hm & Hp).
  exists reader. split; [exact Hstart |].
  destruct (Z.to_nat concurrency) as [| n] eqn:Hn; [lia |].
  split.
  - unfold initial. cbn [replicate].
    destruct (rounds_run_any header (length rows) reader (replicate n main.WReceive)
                0 1 [] [] [] Hm)
      as (sched & rc' & bc' & snt' & wr' & lg' & Hrun & Hok).
    + rewrite Hp. exact Har.
    + rewrite Hp. lia.
    + constructor.
    + eexists (sched ++ _). eexists.
      rewrite run_app, Hrun.
      change (main.WReceive :: replicate n main.WReceive)
        with (replicate (S n) main.WReceive).
      rewrite (closing_runs (S n)).
      split; [reflexivity |]. split; [reflexivity | exact Hok].
  - intros sched s Hrun Hpc Hacc.
    pose proof (run_reaches _ _ _ Hrun) as Hreach.
    assert (H0 : delivery_inv header reader rows (initial reader (S n))).
    { unfold delivery_inv, initial. simpl. rewrite Hp.
      split; [exact Hm |]. split; [exact Har |]. split; reflexivity. }
    pose proof (delivery_inv_reaches _ _ _ _ _ Hreach H0) as Hinv.
    unfold delivery_inv in Hinv. rewrite Hpc in Hinv.
    destruct (complete_counts reader (S n) s Hreach Hpc)
      as ([l Hlog] & Hrc & Hperm & Hempty).
    rewrite (Hempty Hacc ltac:(lia)), app_nil_r in Hperm.
    assert (Hcount : main.recordCount s = main.wrap64 (Z.of_nat (length rows))).
    { rewrite Hrc, (accepted_ok_batches _ Hacc).
      rewrite <- (sumZ_Permutation _ _ (Permutation_map batch_len Hperm)).
      rewrite concat_batch_len, Hinv, length_map. reflexivity. }
    split; [exact Hinv |]. split; [symmetry; exact Hperm |].
    split; [exact Hcount |].
    exists l. rewrite Hlog, Hcount. reflexivity.
Qed.

Lemma importLocal_delivers_every_row_witness :
  exists reader,
    main.importLocal_start (["a"; "b"] :: replicate 26 ["1"; "x"]) ["a"] [] 2
      = main.Started (initial reader (Z.to_nat 2)) /\
    (exists sched s,
        main.run sched (initial reader (Z.to_nat 2)) = Some s /\
        main.main_pc s = main.PComplete /\ Forall accepted (main.written s)) /\
    forall sched s,
      main.run sched (initial reader (Z.to_nat 2)) = Some s ->
      main.main_pc s = main.PComplete -> Forall accepted (main.written s) ->
      concat (main.sent s) = map (row_item reader) (replicate 26 ["1"; "x"]) /\
      map fst (main.written s) ≡ₚ main.sent s /\
      main.recordCount s = main.wrap64 (Z.of_nat (length (replicate 26 ["1"; "x"]))) /\
      exists l,
        main.log s =
          l ++ [main.LogComplete
                  (main.wrap64 (Z.of_nat (length (replicate 26 ["1"; "x"]))))].
Proof.
  apply (importLocal_delivers_every_row ["a"; "b"] (replicate 26 ["1"; "x"]) ["a"] [] 2).
  - discriminate.
  - lia.
  - apply Forall_replicate. reflexivity.
Defined.
